(** * fermipy.catalog: source-catalog normalisation

    A shallow embedding of [fermipy/catalog.py]: the table utilities
    ([add_columns], [join_tables], [strip_columns]), the base [Catalog]
    constructor, the format dispatcher [Catalog.create], the constructors
    of [CatalogFPY], of [Catalog2FHL] and of the 4FGL family, and the
    [_fill_params] method of every release class.

    Conventions of the embedding.
    - An astropy [Table] is an ordered list of named columns; a column is a
      typed list of cells.  A text cell is a byte string; the width of a
      text column is not part of a table, so that a write into an existing
      text column takes the width as an argument ([relabel]) or is outside
      the embedding ([setscalar]).
    - A floating-point cell is the binary64 value of its content
      ([PrimFloat.float]).  numpy's [*], [/], [exp] and [**], which work in
      the dtype of the columns, are parameters of the development, and so
      is the parameter registry [get_function_par_names] of
      [fermipy.model_utils].
    - numpy's [argsort], which promises no order among equal keys, and the
      test astropy's [SkyCoord] makes of the coordinates are the class
      [Library]: the theorems hold for every instance of it.
    - A Python exception is the result [None], and so is an input outside
      the embedding; the reading of FITS files is outside the embedding.
      What a function returns in the embedding is what the code returns. *)

From Stdlib Require Import ZArith Ascii Floats.
From stdpp Require Import gmap strings list sorting.

Set Warnings "-clear-no-such-hyp,-inexact-float".
(** ** Byte strings *)

(** [bytes.strip()]: leading and trailing ASCII white space removed. *)
Fixpoint lstrip (s : string) : string :=
  match s with
  | String a s' => if Ascii.is_space a then lstrip s' else s
  | EmptyString => EmptyString
  end.

Definition rstrip (s : string) : string := String.rev (lstrip (String.rev s)).

Definition strip (s : string) : string := rstrip (lstrip s).

(** [sub in s] for strings. *)
Fixpoint str_contains (sub s : string) : bool :=
  String.prefix sub s ||
  match s with
  | String _ s' => str_contains sub s'
  | EmptyString => false
  end.

(** [s.rfind(c)], with Python's [-1] for "not found". *)
Fixpoint rfind_from (i : Z) (c : Ascii.ascii) (s : string) : Z :=
  match s with
  | EmptyString => (-1)%Z
  | String a s' =>
      let r := rfind_from (i + 1) c s' in
      if bool_decide (r = (-1)%Z) then (if bool_decide (a = c) then i else (-1)%Z) else r
  end.

Definition rfind (s : string) (c : Ascii.ascii) : Z := rfind_from 0 c s.

(** [s[lo:hi]] for [0 <= lo]. *)
Definition slice (s : string) (lo hi : Z) : string :=
  String.substring (Z.to_nat lo) (Z.to_nat (hi - lo)) s.

Fixpoint str_forallb (f : Ascii.ascii → bool) (s : string) : bool :=
  match s with
  | EmptyString => true
  | String a s' => f a && str_forallb f s'
  end.

(** [os.path.splitext] (posixpath): the extension starts at the last dot of
    the last path component, unless only dots precede it there. *)
Definition splitext (p : string) : string * string :=
  let sepIndex := rfind p "/"%char in
  let dotIndex := rfind p "."%char in
  let n := Z.of_nat (String.length p) in
  if bool_decide (sepIndex < dotIndex)%Z
     && negb (str_forallb (λ a, bool_decide (a = "."%char))
                (slice p (sepIndex + 1) dotIndex))
  then (slice p 0 dotIndex, slice p dotIndex n)
  else (p, "").

Definition endswith (s suffix : string) : bool :=
  String.prefix (String.rev suffix) (String.rev s).

(** [os.path.join] (posixpath) *)
Definition path_join2 (path b : string) : string :=
  if String.prefix "/" b then b
  else if bool_decide (path = "") || endswith path "/" then path +:+ b
  else path +:+ "/" +:+ b.

Definition os_path_join (a : string) (p : list string) : string :=
  foldl path_join2 a p.

(** [s[:w]]: what a text column of width [w] keeps of [s]. *)
Definition truncate (w : nat) (s : string) : string := String.substring 0 w s.

(** A string of white space only, and a string with no white space at its
    two ends. *)
Definition all_space (s : string) : Prop := str_forallb Ascii.is_space s = true.

Definition no_space_ends (s : string) : Prop :=
  (∀ c t, s = String c t → Ascii.is_space c = false) ∧
  (∀ t c, s = t +:+ String c "" → Ascii.is_space c = false).
(** ** numpy arrays *)

Abbreviation nan := PrimFloat.nan.

(** [np.nan * np.ones((n, w))] *)
Definition nan_ones (n w : nat) : list (list float) :=
  replicate n (replicate w (nan * 1)%float).

(** [a == v] and [a != v], element by element, on an array of strings *)
Definition np_eq (a : list string) (v : string) : list bool :=
  (λ x, bool_decide (x = v)) <$> a.

Definition np_ne (a : list string) (v : string) : list bool :=
  (λ x, bool_decide (x ≠ v)) <$> a.

(** [a | b] on boolean arrays of one shape *)
Definition np_or (a b : list bool) : option (list bool) :=
  if bool_decide (length a = length b) then Some (zip_with orb a b) else None.

(** [a[m]] for a boolean mask [m]: the cells where the mask is set, in
    order; an [IndexError] when the shapes differ. *)
Fixpoint select_rows {A} (m : list bool) (a : list A) : option (list A) :=
  match m, a with
  | [], [] => Some []
  | b :: m', x :: a' =>
      r ← select_rows m' a'; Some (if b then x :: r else r)
  | _, _ => None
  end.

(** [a[m] = v] for a scalar [v] *)
Fixpoint mask_fill {A} (a : list A) (m : list bool) (v : A) : option (list A) :=
  match a, m with
  | [], [] => Some []
  | x :: a', b :: m' =>
      r ← mask_fill a' m' v; Some ((if b then v else x) :: r)
  | _, _ => None
  end.

(** [a[m, j] = v] for a two-dimensional [a], a boolean mask [m] over its
    rows, a column index [j] and an array [v] holding one value per selected
    row.  Errors: mask and array of different lengths, [j] outside a row,
    [v] longer or shorter than the selection. *)
Fixpoint mask_set_slot (a : list (list float)) (m : list bool) (j : nat)
    (v : list float) : option (list (list float)) :=
  match a, m with
  | [], [] => match v with [] => Some [] | _ => None end
  | row :: a', b :: m' =>
      if negb (bool_decide (j < length row)) then None
      else if b then
        match v with
        | x :: v' => r ← mask_set_slot a' m' j v'; Some (<[j:=x]> row :: r)
        | [] => None
        end
      else r ← mask_set_slot a' m' j v; Some (row :: r)
  | _, _ => None
  end.
(** ** astropy tables *)

Inductive coldata :=
  | StrCol (d : list string)          (* dtype kind 'S' / 'U' *)
  | IntCol (d : list Z)               (* dtype kind 'i' *)
  | FloatCol (d : list float)         (* dtype kind 'f' *)
  | BoolCol (d : list bool)           (* dtype kind 'b' *)
  | VecCol (d : list (list float)).   (* dtype kind 'f', one row of floats per cell *)

Definition col_len (c : coldata) : nat :=
  match c with
  | StrCol d => length d
  | IntCol d => length d
  | FloatCol d => length d
  | BoolCol d => length d
  | VecCol d => length d
  end.

Definition Table := list (string * coldata).

Definition colnames (t : Table) : list string := t.*1.

(** [len(t)] *)
Definition len (t : Table) : nat :=
  match t with
  | [] => 0
  | (_, c) :: _ => col_len c
  end.

(** Every column has the table's length: astropy keeps this for every
    table it builds. *)
Definition wf_table (t : Table) : Prop :=
  Forall (λ nc, col_len nc.2 = len t) t ∧ NoDup (colnames t).

(** [t[name]]; a [KeyError] is [None]. *)
Fixpoint getcol (t : Table) (name : string) : option coldata :=
  match t with
  | [] => None
  | (n, c) :: t' => if bool_decide (n = name) then Some c else getcol t' name
  end.

Definition has_col (t : Table) (name : string) : bool :=
  bool_decide (name ∈ colnames t).

Definition strcol (t : Table) (name : string) : option (list string) :=
  c ← getcol t name; match c with StrCol d => Some d | _ => None end.

Definition floatcol (t : Table) (name : string) : option (list float) :=
  c ← getcol t name; match c with FloatCol d => Some d | _ => None end.

Definition boolcol (t : Table) (name : string) : option (list bool) :=
  c ← getcol t name; match c with BoolCol d => Some d | _ => None end.

Definition veccol (t : Table) (name : string) : option (list (list float)) :=
  c ← getcol t name; match c with VecCol d => Some d | _ => None end.

(** The data of an existing column replaced, its place in the table kept:
    what an assignment through the column object ([t[name][...] = v]) does. *)
Fixpoint setdata (t : Table) (name : string) (c : coldata) : Table :=
  match t with
  | [] => []
  | (n, c0) :: t' =>
      if bool_decide (n = name) then (n, c) :: t' else (n, c0) :: setdata t' name c
  end.

(** [t[name] = c] for a whole column [c]: an existing column is replaced
    where it stands, a new one is appended; a [ValueError] when the length
    of [c] is not the table's. *)
Definition setitem (t : Table) (name : string) (c : coldata) : option Table :=
  if bool_decide (t = []) || bool_decide (col_len c = len t) then
    Some (if has_col t name then setdata t name c else t ++ [(name, c)])
  else None.

(** [t.remove_column(name)] *)
Definition remove_column (t : Table) (name : string) : option Table :=
  if has_col t name then Some (filter (λ nc, nc.1 ≠ name) t) else None.

(** [strip_columns]: white space stripped from every text column. *)
Definition strip_columns (tab : Table) : Table :=
  (λ nc, match nc.2 with
         | StrCol d => (nc.1, StrCol (strip <$> d))
         | _ => nc
         end) <$> tab.

(** [t[name] = v] for a scalar [v], where [c n] is the column of [n] cells
    [v].  A new column holds [v] on every row; astropy refuses it on a
    table of no rows ([TypeError]).  An existing column is filled in place
    and keeps its dtype: the embedding covers the column whose cells are
    of the type of [v] and are no text (a text column cuts [v] to its
    width); [v] is a value of every dtype of that type ([False], 50000.0). *)
Definition same_kind (a b : coldata) : bool :=
  match a, b with
  | StrCol _, StrCol _ | IntCol _, IntCol _ | FloatCol _, FloatCol _
  | BoolCol _, BoolCol _ | VecCol _, VecCol _ => true
  | _, _ => false
  end.

Definition setscalar (t : Table) (name : string) (c : nat → coldata) : option Table :=
  match getcol t name with
  | Some (StrCol _) => None
  | Some c0 =>
      if same_kind c0 (c 0) then Some (setdata t name (c (col_len c0))) else None
  | None =>
      if bool_decide (len t = 0) then None else Some (t ++ [(name, c (len t))])
  end.

(** [Column(name=col.name, length=n, dtype=col.dtype)]: a new column of [n]
    zeros of the element type of [col] (the empty string for text, [False]
    for booleans).  The shape of [col] is not passed on: the new column
    has one value per cell also when [col] has a row of values per cell. *)
Definition zeros_like (n : nat) (col : coldata) : coldata :=
  match col with
  | StrCol _ => StrCol (replicate n "")
  | IntCol _ => IntCol (replicate n 0%Z)
  | FloatCol _ | VecCol _ => FloatCol (replicate n 0%float)
  | BoolCol _ => BoolCol (replicate n false)
  end.

(** [add_columns]: the table [t0] after the call. *)
Definition add_columns (t0 t1 : Table) : Table :=
  foldl (λ (t0 : Table) (nc : string * coldata),
           if has_col t0 nc.1 then t0
           else t0 ++ [(nc.1, zeros_like (len t0) nc.2)])
    t0 t1.

(** The cell of a column on a row. *)
Inductive cellval :=
  | CStr (s : string)
  | CInt (z : Z)
  | CFloat (x : float)
  | CBool (b : bool)
  | CVec (v : list float).

Definition cell_at (c : coldata) (i : nat) : option cellval :=
  match c with
  | StrCol d => CStr <$> d !! i
  | IntCol d => CInt <$> d !! i
  | FloatCol d => CFloat <$> d !! i
  | BoolCol d => CBool <$> d !! i
  | VecCol d => CVec <$> d !! i
  end.
(** ** Keys, [argsort] and [SkyCoord] *)

(** The values of a join or sort key.  Keys are text or integer columns
    (every key of this module is a column of source names); the order is
    numpy's: byte-wise for strings, numeric for integers. *)
Inductive keyval :=
  | KStr (s : string)
  | KInt (z : Z).

Global Instance keyval_eq_dec : EqDecision keyval.
Proof. solve_decision. Defined.

Definition keyval_leb (a b : keyval) : bool :=
  match a, b with
  | KStr x, KStr y => String.leb x y
  | KInt x, KInt y => (x <=? y)%Z
  | KInt _, KStr _ => true
  | KStr _, KInt _ => false
  end.

Definition keyval_le (a b : keyval) : Prop := keyval_leb a b.

Definition key_column (c : coldata) : option (list keyval) :=
  match c with
  | StrCol d => Some (KStr <$> d)
  | IntCol d => Some (KInt <$> d)
  | _ => None
  end.

(** The key columns of the two tables of a join, which must be of one kind. *)
Definition key_columns (lc rc : coldata) : option (list keyval * list keyval) :=
  match lc, rc with
  | StrCol a, StrCol b => Some (KStr <$> a, KStr <$> b)
  | IntCol a, IntCol b => Some (KInt <$> a, KInt <$> b)
  | _, _ => None
  end.

(** [a.take(idx)] *)
Definition take {A} (d : list A) (idx : list nat) : option (list A) :=
  mapM (d !!.) idx.

Definition take_col (c : coldata) (idx : list nat) : option coldata :=
  match c with
  | StrCol d => StrCol <$> take d idx
  | IntCol d => IntCol <$> take d idx
  | FloatCol d => FloatCol <$> take d idx
  | BoolCol d => BoolCol <$> take d idx
  | VecCol d => VecCol <$> take d idx
  end.

(** What the embedding takes from numpy and astropy without computing it.
    [argsort keys] is the list of the row numbers in ascending order of
    their keys; numpy promises no order among equal keys, and the class
    asks for none.  [SkyCoord ra dec] tells whether astropy builds the sky
    coordinates from the columns [RAJ2000] and [DEJ2000] (it refuses a
    declination outside [-90, 90], for one). *)
Class Library := {
  argsort : list keyval → list nat;
  argsort_Permutation keys : argsort keys ≡ₚ seq 0 (length keys);
  argsort_sorted keys : ∃ ks, take keys (argsort keys) = Some ks ∧ Sorted keyval_le ks;
  SkyCoord : coldata → coldata → bool
}.
(** ** The base class [Catalog] *)

Record Catalog := mkCatalog { _table : Table; _extdir : string }.

(** [Catalog.__init__].  The sky coordinates ([_src_skydir], [_radec],
    [_glonlat]) are derived by astropy from the columns [RAJ2000] and
    [DEJ2000] and take no part in what follows; the embedding keeps the
    lookup of the two columns, which fails when one is absent, and the
    test [SkyCoord] makes of them.  A new [Column(dtype='S20', length=n)]
    holds [n] empty strings.  The two spatial columns are text columns;
    the comparison of a column of another type with [''] is outside the
    embedding ([None]).  [extended] and [extdir] are assigned as scalars
    ([setscalar]). *)
Definition Catalog_init {lib : Library} (table : Table) (extdir : string) : option Catalog :=
  ra ← getcol table "RAJ2000";
  dec ← getcol table "DEJ2000";
  _ ← (if SkyCoord ra dec then Some () else None);
  table ← (if negb (has_col table "Spatial_Filename")
           then setitem table "Spatial_Filename" (StrCol (replicate (len table) ""))
           else Some table);
  table ← (if negb (has_col table "Spatial_Function")
           then setitem table "Spatial_Function" (StrCol (replicate (len table) ""))
           else Some table);
  filename ← strcol table "Spatial_Filename";
  function ← strcol table "Spatial_Function";
  m ← np_or (np_ne filename "") (np_ne function "");
  table ← setscalar table "extended" (λ n, BoolCol (replicate n false));
  extended ← boolcol table "extended";
  extended ← mask_fill extended m true;
  let table := setdata table "extended" (BoolCol extended) in
  table ← setscalar table "extdir" (λ n, StrCol (replicate n extdir));
  Some (mkCatalog table extdir).

(** The cells of a spatial column of the table [Catalog.__init__] is given:
    empty strings when the table has no such column. *)
Definition spatial (table : Table) (name : string) : option (list string) :=
  if has_col table name then strcol table name
  else Some (replicate (len table) "").
(** ** The format dispatcher [Catalog.create] *)

(** The release classes of the module. *)
Inductive release :=
  | Catalog3FGL | Catalog2FHL | CatalogFL8Y | Catalog4FGL | Catalog4FGLDR2
  | Catalog4FGLDR3 | Catalog4FGLDR4 | Catalog4FGLP | CatalogFPY.

Global Instance release_eq_dec : EqDecision release.
Proof. solve_decision. Defined.

Inductive exn :=
  | Exception (msg : string)   (* [raise Exception(msg)] *)
  | IOError.                   (* the file cannot be opened or read *)

(** What [create] does last: it returns the entity that [cls(fitsfile)]
    (or [cls()], for [None]) constructs, or it raises. *)
Inductive dispatch :=
  | Construct (cls : release) (fitsfile : option string)
  | Raise (e : exn).

(** What [create] reads of a FITS file: the header of HDU 1 and the column
    names of its table. *)
Record FitsFile := mkFitsFile {
  header : gmap string string;
  columns : list string
}.

Section Dispatcher.
(** [fermipy.PACKAGE_DATA] and the file system *)
Variable PACKAGE_DATA : string.
Variable isfile : string → bool.
Variable fits_open : string → option FitsFile.

(** [Catalog.create].  [fits_open] stands for [fits.open] and
    [Table.read(fitsfile, hdu=1)] together; the header values are strings.
    [fallthrough] is the test of [NickName] that ends the first branch: the
    chain on the name tag falls to it when it returns nothing. *)
Definition create (name : string) : dispatch :=
  let extname := (splitext name).2 in
  if bool_decide (extname = ".fits") || bool_decide (extname = ".fit") then
    let fitsfile := name in
    let fitsfile :=
      if negb (isfile fitsfile)
      then os_path_join PACKAGE_DATA ["catalogs"; fitsfile] else fitsfile in
    match fits_open fitsfile with
    | None => Raise IOError
    | Some h =>
        let name := default "" (header h !! "CDS-NAME") in
        let catalog_file_version := default "" (header h !! "VERSION") in
        let tab := columns h in
        let fallthrough :=
          if bool_decide ("NickName" ∈ tab)
          then Construct Catalog4FGLP (Some fitsfile)
          else Construct CatalogFPY (Some fitsfile) in
        if bool_decide (name = "3FGL") then Construct Catalog3FGL (Some fitsfile)
        else if bool_decide (name = "FL8Y") then Construct CatalogFL8Y (Some fitsfile)
        else if bool_decide (name = "4FGL") then
          if bool_decide (catalog_file_version ∈ ["v17"; "v18"; "v19"; "v20"; "v21"; "v22"]) then
            if bool_decide ("PLEC_Index" ∈ tab)
            then Construct Catalog4FGL (Some fitsfile) else fallthrough
          else if bool_decide (catalog_file_version ∈ ["v23"; "v24"; "v25"; "v26"; "v27"]) then
            if bool_decide ("PLEC_Index" ∈ tab)
            then Construct Catalog4FGLDR2 (Some fitsfile) else fallthrough
          else if bool_decide (catalog_file_version ∈ ["v28"; "v29"; "v30"; "v31"]) then
            if bool_decide ("PLEC_IndexS" ∈ tab)
            then Construct Catalog4FGLDR3 (Some fitsfile) else fallthrough
          else if bool_decide (catalog_file_version ∈ ["v32"; "v33"; "v34"; "v35"]) then
            if bool_decide ("PLEC_IndexS" ∈ tab)
            then Construct Catalog4FGLDR4 (Some fitsfile) else fallthrough
          else Raise (Exception "Error - 4FGL catalog fits file version not recognised.")
        else if str_contains "gll_psch_v08" fitsfile
        then Construct Catalog2FHL (Some fitsfile)
        else fallthrough
    end
  else if bool_decide (name = "3FGL") then Construct Catalog3FGL None
  else if bool_decide (name = "2FHL") then Construct Catalog2FHL None
  else if bool_decide (name = "FL8Y") then Construct CatalogFL8Y None
  else if bool_decide (name = "4FGL") then Construct Catalog4FGL None
  else if bool_decide (name = "4FGL-DR2") then Construct Catalog4FGLDR2 None
  else if bool_decide (name = "4FGL-DR3") then Construct Catalog4FGLDR3 None
  else if bool_decide (name = "4FGL-DR4") then Construct Catalog4FGLDR4 None
  else Raise (Exception ("Unrecognized catalog " +:+ name +:+ ".")).

(** The file a path names: the path itself, or the bundled file of that
    name when no file is at the path. *)
Definition resolve (name : string) : string :=
  if negb (isfile name) then os_path_join PACKAGE_DATA ["catalogs"; name] else name.
End Dispatcher.

(** The names [create] takes for a path to a FITS file. *)
Definition is_path (name : string) : Prop :=
  (splitext name).2 = ".fits" ∨ (splitext name).2 = ".fit".

(** The release identifiers [create] knows and the version tags of the
    four schema generations of the 4FGL family. *)
Definition known_releases : list string :=
  ["3FGL"; "2FHL"; "FL8Y"; "4FGL"; "4FGL-DR2"; "4FGL-DR3"; "4FGL-DR4"].

Definition known_versions : list string :=
  ["v17"; "v18"; "v19"; "v20"; "v21"; "v22"; "v23"; "v24"; "v25"; "v26";
   "v27"; "v28"; "v29"; "v30"; "v31"; "v32"; "v33"; "v34"; "v35"].

(** The signature column of the schema generation a version tag belongs to,
    and the class of that generation. *)
Definition generation (version : string) : option (string * release) :=
  if bool_decide (version ∈ ["v17"; "v18"; "v19"; "v20"; "v21"; "v22"])
  then Some ("PLEC_Index", Catalog4FGL)
  else if bool_decide (version ∈ ["v23"; "v24"; "v25"; "v26"; "v27"])
  then Some ("PLEC_Index", Catalog4FGLDR2)
  else if bool_decide (version ∈ ["v28"; "v29"; "v30"; "v31"])
  then Some ("PLEC_IndexS", Catalog4FGLDR3)
  else if bool_decide (version ∈ ["v32"; "v33"; "v34"; "v35"])
  then Some ("PLEC_IndexS", Catalog4FGLDR4)
  else None.

(** The release identifiers and the classes [create] constructs for them. *)
Definition token_table : list (string * release) :=
  [("3FGL", Catalog3FGL); ("2FHL", Catalog2FHL); ("FL8Y", CatalogFL8Y);
   ("4FGL", Catalog4FGL); ("4FGL-DR2", Catalog4FGLDR2);
   ("4FGL-DR3", Catalog4FGLDR3); ("4FGL-DR4", Catalog4FGLDR4)].
(** ** Parameter vectors: [_fill_params] *)

(** [{k: i for i, k in enumerate(names)}]: a later position of a name
    replaces an earlier one. *)
Definition enumerate_dict (names : list string) : gmap string nat :=
  foldl (λ d ik, <[ik.2:=ik.1]> d) ∅ (imap pair names).

(** An expression of [_fill_params] evaluates to an array of floats or
    raises. *)
Abbreviation arr := (option (list float)).

(** [tab[name][m]].  The columns [_fill_params] reads are columns of
    floats; a column of another type is outside the embedding ([None]). *)
Definition col (tab : Table) (name : string) (m : list bool) : arr :=
  floatcol tab name ≫= select_rows m.

(** [tab['SpectrumType'] == family] *)
Definition spectrum_mask (tab : Table) (family : string) : option (list bool) :=
  st ← strcol tab "SpectrumType"; Some (np_eq st family).

(** [tab['param_values'][m, j] = v]; [j] is [None] when the subscript
    [idxs[...]] raised a [KeyError]. *)
Definition set_param_values (tab : Table) (m : list bool) (j : option nat)
    (v : arr) : option Table :=
  v ← v;
  j ← j;
  a ← veccol tab "param_values";
  a ← mask_set_slot a m j v;
  Some (setdata tab "param_values" (VecCol a)).

Section FillParams.
(** [fermipy.model_utils.get_function_par_names] and numpy's [*], [/],
    [exp] and [**] on the cells of two columns of floats.  numpy computes
    them in the dtype of the columns (float32 in the FITS catalogs, where
    a product is rounded to float32 and [exp] overflows from 88.8 on), so
    they are parameters; the columns a method reads are taken to have one
    dtype.  A cell is the binary64 value of its content.  [-1.0 * x] is
    exact in every dtype and stays a binary64 product. *)
Variable get_function_par_names : string → list string.
Variable mul : float → float → float.
Variable div : float → float → float.
Variable exp : float → float.
Variable pow : float → float → float.

Definition np_scale (c : float) (a : arr) : arr :=
  a ≫= λ a : list float, Some (PrimFloat.mul c <$> a).
Definition np_exp (a : arr) : arr := a ≫= λ a : list float, Some (exp <$> a).
Definition np_mul (a b : arr) : arr := a ← a; b ← b; Some (zip_with mul a b).
Definition np_div (a b : arr) : arr := a ← a; b ← b; Some (zip_with div a b).
Definition np_pow (a b : arr) : arr := a ← a; b ← b; Some (zip_with pow a b).

Definition Catalog2FHL_fill_params (tab : Table) : option Table :=
  tab ← setitem tab "param_values" (VecCol (nan_ones (len tab) 10));
  (* PowerLaw *)
  m ← spectrum_mask tab "PowerLaw";
  tab ← set_param_values tab m (Some 0) (col tab "Flux_Density" m);
  tab ← set_param_values tab m (Some 1) (np_scale (-1) (col tab "Spectral_Index" m));
  tab ← set_param_values tab m (Some 2) (col tab "Pivot_Energy" m);
  Some tab.

(** [print(idxs)] in the second block writes to the standard output and
    is left out. *)
Definition Catalog3FGL_fill_params (tab : Table) : option Table :=
  tab ← setitem tab "param_values" (VecCol (nan_ones (len tab) 10));
  (* PowerLaw *)
  m ← spectrum_mask tab "PowerLaw";
  let idxs := enumerate_dict (get_function_par_names "PowerLaw") in
  tab ← set_param_values tab m (idxs !! "Prefactor") (col tab "Flux_Density" m);
  tab ← set_param_values tab m (idxs !! "Index") (np_scale (-1) (col tab "Spectral_Index" m));
  tab ← set_param_values tab m (idxs !! "Scale") (col tab "Pivot_Energy" m);
  (* PLSuperExpCutoff *)
  m ← spectrum_mask tab "PLSuperExpCutoff";
  let idxs := enumerate_dict (get_function_par_names "PLSuperExpCutoff") in
  tab ← set_param_values tab m (idxs !! "Prefactor")
          (np_mul (col tab "Flux_Density" m)
             (np_exp (np_pow (np_div (col tab "Pivot_Energy" m) (col tab "Cutoff" m))
                        (col tab "Exp_Index" m))));
  tab ← set_param_values tab m (idxs !! "Index1") (np_scale (-1) (col tab "Spectral_Index" m));
  tab ← set_param_values tab m (idxs !! "Scale") (col tab "Pivot_Energy" m);
  tab ← set_param_values tab m (idxs !! "Cutoff") (col tab "Cutoff" m);
  tab ← set_param_values tab m (idxs !! "Index2") (col tab "Exp_Index" m);
  (* LogParabola *)
  m ← spectrum_mask tab "LogParabola";
  let idxs := enumerate_dict (get_function_par_names "LogParabola") in
  tab ← set_param_values tab m (idxs !! "norm") (col tab "Flux_Density" m);
  tab ← set_param_values tab m (idxs !! "alpha") (col tab "Spectral_Index" m);
  tab ← set_param_values tab m (idxs !! "beta") (col tab "beta" m);
  tab ← set_param_values tab m (idxs !! "Eb") (col tab "Pivot_Energy" m);
  Some tab.

Definition Catalog4FGL_fill_params (tab : Table) : option Table :=
  tab ← setitem tab "param_values" (VecCol (nan_ones (len tab) 10));
  (* PowerLaw *)
  m ← spectrum_mask tab "PowerLaw";
  let idxs := enumerate_dict (get_function_par_names "PowerLaw") in
  tab ← set_param_values tab m (idxs !! "Prefactor") (col tab "PL_Flux_Density" m);
  tab ← set_param_values tab m (idxs !! "Index") (np_scale (-1) (col tab "PL_Index" m));
  tab ← set_param_values tab m (idxs !! "Scale") (col tab "Pivot_Energy" m);
  (* PLSuperExpCutoff2 *)
  m ← spectrum_mask tab "PLSuperExpCutoff2";
  let idxs := enumerate_dict (get_function_par_names "PLSuperExpCutoff2") in
  tab ← set_param_values tab m (idxs !! "Prefactor")
          (np_mul (col tab "PLEC_Flux_Density" m)
             (np_exp (np_mul (col tab "PLEC_Expfactor" m)
                        (np_pow (col tab "Pivot_Energy" m) (col tab "PLEC_Exp_Index" m)))));
  tab ← set_param_values tab m (idxs !! "Index1") (np_scale (-1) (col tab "PLEC_Index" m));
  tab ← set_param_values tab m (idxs !! "Scale") (col tab "Pivot_Energy" m);
  tab ← set_param_values tab m (idxs !! "Expfactor") (col tab "PLEC_Expfactor" m);
  tab ← set_param_values tab m (idxs !! "Index2") (col tab "PLEC_Exp_Index" m);
  (* LogParabola *)
  m ← spectrum_mask tab "LogParabola";
  let idxs := enumerate_dict (get_function_par_names "LogParabola") in
  tab ← set_param_values tab m (idxs !! "norm") (col tab "LP_Flux_Density" m);
  tab ← set_param_values tab m (idxs !! "alpha") (col tab "LP_Index" m);
  tab ← set_param_values tab m (idxs !! "beta") (col tab "LP_beta" m);
  tab ← set_param_values tab m (idxs !! "Eb") (col tab "Pivot_Energy" m);
  Some tab.

Definition CatalogFL8Y_fill_params (tab : Table) : option Table :=
  tab ← setitem tab "param_values" (VecCol (nan_ones (len tab) 10));
  (* PowerLaw *)
  m ← spectrum_mask tab "PowerLaw";
  let idxs := enumerate_dict (get_function_par_names "PowerLaw") in
  tab ← set_param_values tab m (idxs !! "Prefactor") (col tab "Flux_Density" m);
  tab ← set_param_values tab m (idxs !! "Index") (np_scale (-1) (col tab "PL_Index" m));
  tab ← set_param_values tab m (idxs !! "Scale") (col tab "Pivot_Energy" m);
  (* PLSuperExpCutoff2 *)
  m ← spectrum_mask tab "PLSuperExpCutoff2";
  let idxs := enumerate_dict (get_function_par_names "PLSuperExpCutoff2") in
  tab ← set_param_values tab m (idxs !! "Prefactor")
          (np_mul (col tab "Flux_Density" m)
             (np_exp (np_mul (col tab "PLEC_Expfactor" m)
                        (np_pow (col tab "Pivot_Energy" m) (col tab "PLEC_Exp_Index" m)))));
  tab ← set_param_values tab m (idxs !! "Index1") (np_scale (-1) (col tab "PLEC_Index" m));
  tab ← set_param_values tab m (idxs !! "Scale") (col tab "Pivot_Energy" m);
  tab ← set_param_values tab m (idxs !! "Expfactor") (col tab "PLEC_Expfactor" m);
  tab ← set_param_values tab m (idxs !! "Index2") (col tab "PLEC_Exp_Index" m);
  (* LogParabola *)
  m ← spectrum_mask tab "LogParabola";
  let idxs := enumerate_dict (get_function_par_names "LogParabola") in
  tab ← set_param_values tab m (idxs !! "norm") (col tab "Flux_Density" m);
  tab ← set_param_values tab m (idxs !! "alpha") (col tab "LP_Index" m);
  tab ← set_param_values tab m (idxs !! "beta") (col tab "LP_beta" m);
  tab ← set_param_values tab m (idxs !! "Eb") (col tab "Pivot_Energy" m);
  Some tab.

(** The body of [Catalog4FGLDR2._fill_params] is that of
    [Catalog4FGL._fill_params], line for line. *)
Definition Catalog4FGLDR2_fill_params (tab : Table) : option Table :=
  Catalog4FGL_fill_params tab.

Definition Catalog4FGLDR3_fill_params (tab : Table) : option Table :=
  tab ← setitem tab "param_values" (VecCol (nan_ones (len tab) 10));
  (* PowerLaw *)
  m ← spectrum_mask tab "PowerLaw";
  let idxs := enumerate_dict (get_function_par_names "PowerLaw") in
  tab ← set_param_values tab m (idxs !! "Prefactor") (col tab "PL_Flux_Density" m);
  tab ← set_param_values tab m (idxs !! "Index") (np_scale (-1) (col tab "PL_Index" m));
  tab ← set_param_values tab m (idxs !! "Scale") (col tab "Pivot_Energy" m);
  (* PLSuperExpCutoff4 *)
  m ← spectrum_mask tab "PLSuperExpCutoff4";
  let idxs := enumerate_dict (get_function_par_names "PLSuperExpCutoff4") in
  tab ← set_param_values tab m (idxs !! "Prefactor") (col tab "PLEC_Flux_Density" m);
  tab ← set_param_values tab m (idxs !! "IndexS") (np_scale (-1) (col tab "PLEC_IndexS" m));
  tab ← set_param_values tab m (idxs !! "Scale") (col tab "Pivot_Energy" m);
  tab ← set_param_values tab m (idxs !! "ExpfactorS") (col tab "PLEC_ExpfactorS" m);
  tab ← set_param_values tab m (idxs !! "Index2") (col tab "PLEC_Exp_Index" m);
  (* LogParabola *)
  m ← spectrum_mask tab "LogParabola";
  let idxs := enumerate_dict (get_function_par_names "LogParabola") in
  tab ← set_param_values tab m (idxs !! "norm") (col tab "LP_Flux_Density" m);
  tab ← set_param_values tab m (idxs !! "alpha") (col tab "LP_Index" m);
  tab ← set_param_values tab m (idxs !! "beta") (col tab "LP_beta" m);
  tab ← set_param_values tab m (idxs !! "Eb") (col tab "Pivot_Energy" m);
  Some tab.

(** The body of [Catalog4FGLDR4._fill_params] is that of
    [Catalog4FGLDR3._fill_params], line for line. *)
Definition Catalog4FGLDR4_fill_params (tab : Table) : option Table :=
  Catalog4FGLDR3_fill_params tab.

(** [cls._fill_params(tab)]; the classes [Catalog4FGLP] and [CatalogFPY]
    have no such method. *)
Definition fill_params (cls : release) (tab : Table) : option Table :=
  match cls with
  | Catalog2FHL => Catalog2FHL_fill_params tab
  | Catalog3FGL => Catalog3FGL_fill_params tab
  | Catalog4FGL => Catalog4FGL_fill_params tab
  | CatalogFL8Y => CatalogFL8Y_fill_params tab
  | Catalog4FGLDR2 => Catalog4FGLDR2_fill_params tab
  | Catalog4FGLDR3 => Catalog4FGLDR3_fill_params tab
  | Catalog4FGLDR4 => Catalog4FGLDR4_fill_params tab
  | Catalog4FGLP | CatalogFPY => None
  end.
End FillParams.
(** ** astropy's [join], [Table.sort] and masked tables *)

(** A masked column: [None] is a masked cell.  A two-dimensional column
    keeps the width of its rows. *)
Inductive mcoldata :=
  | MStrCol (d : list (option string))
  | MIntCol (d : list (option Z))
  | MFloatCol (d : list (option float))
  | MBoolCol (d : list (option bool))
  | MVecCol (w : nat) (d : list (option (list float))).

Definition MTable := list (string * mcoldata).

Definition unmasked (c : coldata) : mcoldata :=
  match c with
  | StrCol d => MStrCol (Some <$> d)
  | IntCol d => MIntCol (Some <$> d)
  | FloatCol d => MFloatCol (Some <$> d)
  | BoolCol d => MBoolCol (Some <$> d)
  | VecCol d => MVecCol (length (default [] (head d))) (Some <$> d)
  end.

(** The rows [idx] of a column of the right table; no row ([None]) gives a
    masked cell. *)
Definition take_masked {A} (d : list A) (idx : list (option nat)) : list (option A) :=
  (λ oj : option nat, oj ≫= (d !!.)) <$> idx.

Definition take_masked_col (c : coldata) (idx : list (option nat)) : mcoldata :=
  match c with
  | StrCol d => MStrCol (take_masked d idx)
  | IntCol d => MIntCol (take_masked d idx)
  | FloatCol d => MFloatCol (take_masked d idx)
  | BoolCol d => MBoolCol (take_masked d idx)
  | VecCol d => MVecCol (length (default [] (head d))) (take_masked d idx)
  end.

(** The rows of the right table whose key is [k]. *)
Definition matching {lib : Library} (rk : list keyval) (k : keyval) : list nat :=
  filter (λ j, rk !! j = Some k) (argsort rk).

(** The rows of a left outer join: pairs of a row of [left] and a matching
    row of [right], or of no row when nothing matches, in ascending order
    of the key. *)
Definition join_rows {lib : Library} (lk rk : list keyval) : list (nat * option nat) :=
  i ← argsort lk;
  match lk !! i with
  | Some k =>
      match matching rk k with
      | [] => [(i, None)]
      | js => (λ j, (i, Some j)) <$> js
      end
  | None => []
  end.

(** [join(left, right, keys=key, join_type='left')].  astropy refuses a
    table of no rows ([ValueError]).  The columns of [left] come first, in
    their order and the key among them, then those of [right] but its key;
    a name the two tables share outside the key gets the suffixes [_1] and
    [_2].  The rows are sorted by the key. *)
Definition join {lib : Library} (left right : Table) (key : string) : option MTable :=
  _ ← (if bool_decide (len left = 0) || bool_decide (len right = 0)
       then None else Some ());
  lc ← getcol left key;
  rc ← getcol right key;
  keys ← key_columns lc rc;
  let rows := join_rows keys.1 keys.2 in
  lcols ← mapM (λ nc : string * coldata,
                  d ← take_col nc.2 rows.*1;
                  Some (if bool_decide (nc.1 ≠ key) && has_col right nc.1
                        then nc.1 +:+ "_1" else nc.1, unmasked d)) left;
  let rcols := (λ nc : string * coldata,
                  (if has_col left nc.1 then nc.1 +:+ "_2" else nc.1,
                   take_masked_col nc.2 rows.*2))
               <$> filter (λ nc, nc.1 ≠ key) right in
  let out := lcols ++ rcols in
  if bool_decide (NoDup out.*1) then Some out else None.

(** The loop over [out.colnames] and [out.filled()]: a masked cell becomes
    [''] in a text column, [0] in an integer column and [nan] elsewhere
    (which a boolean column stores as [True]). *)
Definition filled_col (c : mcoldata) : coldata :=
  match c with
  | MStrCol d => StrCol (default "" <$> d)
  | MIntCol d => IntCol (default 0%Z <$> d)
  | MFloatCol d => FloatCol (default nan <$> d)
  | MBoolCol d => BoolCol (default true <$> d)
  | MVecCol w d => VecCol (default (replicate w nan) <$> d)
  end.

Definition filled (t : MTable) : Table := prod_map id filled_col <$> t.

(** [t[old].name = new] *)
Definition rename_column (t : Table) (old new : string) : option Table :=
  if has_col t old && negb (has_col t new)
  then Some ((λ nc : string * coldata,
                if bool_decide (nc.1 = old) then (new, nc.2) else nc) <$> t)
  else None.

(** [t[cols]] for a list of names *)
Definition select_columns (t : Table) (cols : list string) : option Table :=
  if bool_decide (NoDup cols)
  then mapM (λ c, d ← getcol t c; Some (c, d)) cols
  else None.

(** [t.sort(key)] *)
Definition sort_table {lib : Library} (t : Table) (key : string) : option Table :=
  kc ← getcol t key;
  keys ← key_column kc;
  mapM (λ nc : string * coldata, d ← take_col nc.2 (argsort keys); Some (nc.1, d)) t.

(** The value [join_tables] puts in a cell of a column of [right] on a row
    that matches no row of [right]: [''] for text, [0] for integers, [nan]
    elsewhere. *)
Definition fill_value (c : coldata) : cellval :=
  match c with
  | StrCol _ => CStr ""
  | IntCol _ => CInt 0
  | FloatCol _ => CFloat nan
  | BoolCol _ => CBool true
  | VecCol d => CVec (replicate (length (default [] (head d))) nan)
  end.

(** ** [join_tables] *)

(** On table values: [right.copy()] is [right] itself. *)
Definition join_tables {lib : Library} (left right : Table) (key_left key_right : string)
    (cols_right : option (list string)) : option Table :=
  let cols_right :=
    match cols_right with
    | None => colnames right
    | Some cols => filter (λ c, c ∈ colnames right) cols
    end in
  right ← (if bool_decide (key_left ≠ key_right)
           then rename_column right key_right key_left else Some right);
  let cols_right :=
    if bool_decide (key_left ∉ cols_right) then cols_right ++ [key_left] else cols_right in
  sel ← select_columns right cols_right;
  out ← join left sel key_left;
  Some (filled out).

(** On table objects.  The caller's tables live in a heap and are passed by
    reference; [right.copy()] allocates, and the renaming of the key column
    writes to the heap.  A run gives the returned reference, or [None] for
    an exception, and the heap it leaves. *)
Abbreviation loc := nat.
Abbreviation heap := (gmap loc Table).
Definition ST (A : Type) : Type := heap → option A * heap.

Definition st_ret {A} (x : A) : ST A := λ h, (Some x, h).
Definition st_bind {A B} (f : A → ST B) (c : ST A) : ST B :=
  λ h, match c h with
       | (Some x, h') => f x h'
       | (None, h') => (None, h')
       end.
Global Instance ST_ret : MRet ST := @st_ret.
Global Instance ST_bind : MBind ST := @st_bind.

Definition st_raise {A} : ST A := λ h, (None, h).
Definition st_lift {A} (o : option A) : ST A := λ h, (o, h).
Definition st_load (p : loc) : ST Table := λ h, (h !! p, h).
Definition st_store (p : loc) (t : Table) : ST unit := λ h, (Some (), <[p:=t]> h).
Definition st_alloc (t : Table) : ST loc :=
  λ h, let p := fresh (dom h) in (Some p, <[p:=t]> h).

(** [t.copy()] *)
Definition Table_copy (p : loc) : ST loc := t ← st_load p; st_alloc t.

(** [t[old].name = new] on the object [p] *)
Definition rename_column_st (p : loc) (old new : string) : ST unit :=
  t ← st_load p; t ← st_lift (rename_column t old new); st_store p t.

Definition join_tables_st {lib : Library} (left right : loc) (key_left key_right : string)
    (cols_right : option (list string)) : ST loc :=
  right ← Table_copy right;
  cols_right ← match cols_right with
               | None => t ← st_load right; mret (colnames t)
               | Some cols =>
                   t ← st_load right; mret (filter (λ c, c ∈ colnames t) cols)
               end;
  _ ← (if bool_decide (key_left ≠ key_right)
       then rename_column_st right key_right key_left else mret ());
  let cols_right :=
    if bool_decide (key_left ∉ cols_right) then cols_right ++ [key_left] else cols_right in
  l ← st_load left;
  r ← st_load right;
  sel ← st_lift (select_columns r cols_right);
  out ← st_lift (join l sel key_left);
  st_alloc (filled out).
(** ** The constructors *)

Section Constructors.
Context {lib : Library}.
Variable get_function_par_names : string → list string.
Variable mul : float → float → float.
Variable div : float → float → float.
Variable exp : float → float.
Variable pow : float → float → float.

(** The step every constructor takes when the table of extended sources
    has no column [Spatial_Function]. *)
Definition add_spatial_function (table_extsrc : Table) : option Table :=
  if negb (has_col table_extsrc "Spatial_Function") then
    t ← setitem table_extsrc "Spatial_Function"
          (StrCol (replicate (len table_extsrc) ""));
    setitem t "Spatial_Function" (StrCol (replicate (len t) "SpatialMap"))
  else Some table_extsrc.

(** [t[name][t[name] == old] = new] on a text column of width [w]: the
    write is in place, and the cells written hold [new] cut to the width
    of the column. *)
Definition relabel (t : Table) (name : string) (w : nat) (old new : string) :
    option Table :=
  d ← strcol t name;
  d ← mask_fill d (np_eq d old) (truncate w new);
  Some (setdata t name (StrCol d)).

(** [__init__] of [Catalog4FGL], [CatalogFL8Y], [Catalog4FGLDR2],
    [Catalog4FGLDR3] and [Catalog4FGLDR4], from the two tables read from
    the FITS file.  The five bodies are one text but for the archive of
    the default [extdir], the new label of [PLSuperExpCutoff] (absent in
    [CatalogFL8Y]) and the class whose [_fill_params] runs last.  [width]
    is the width of the text column [SpectrumType] of the file, which the
    column keeps through [strip_columns], the join and the sort, and to
    which the relabelling in place cuts the new label.  [Spatial_Function]
    is made a column of width 20 before its relabelling. *)
Definition Catalog4FGL_family_init (archive : string) (new_label : option string)
    (_fill_params : Table → option Table)
    (table : Table) (width : nat) (table_extsrc : Table) (extdir : option string) :
    option Catalog :=
  let extdir :=
    default (os_path_join "$FERMIPY_DATA_DIR" ["catalogs"; archive]) extdir in
  let table := strip_columns table in
  let table_extsrc := strip_columns table_extsrc in
  table_extsrc ← add_spatial_function table_extsrc;
  table ← join_tables table table_extsrc "Extended_Source_Name" "Source_Name"
            (Some ["Model_Form"; "Model_SemiMajor"; "Model_SemiMinor";
                   "Model_PosAng"; "Spatial_Filename"; "Spatial_Function"]);
  table ← sort_table table "Source_Name";
  self ← Catalog_init table extdir;
  let table := _table self in
  names ← strcol table "Extended_Source_Name";
  let excol :=
    (λ exname, bool_decide (0 < String.length (strip exname))) <$> names in
  table ← setitem table "extended" (BoolCol excol);
  table ← setitem table "Extended" (BoolCol excol);
  scol ← strcol table "Spatial_Function";
  table ← remove_column table "Spatial_Function";
  table ← setitem table "Spatial_Function" (StrCol (truncate 20 <$> scol));
  table ← relabel table "Spatial_Function" 20 "RadialGauss" "RadialGaussian";
  signif ← floatcol table "Signif_Avg";
  table ← setitem table "TS" (FloatCol (zip_with mul signif signif));
  table ← match new_label with
          | Some l => relabel table "SpectrumType" width "PLSuperExpCutoff" l
          | None => Some table
          end;
  table ← _fill_params table;
  Some (mkCatalog table extdir).

Definition Catalog4FGL_init :=
  Catalog4FGL_family_init "Extended_8years" (Some "PLSuperExpCutoff2")
    (Catalog4FGL_fill_params get_function_par_names mul exp pow).

Definition CatalogFL8Y_init :=
  Catalog4FGL_family_init "Extended_archive_v18" None
    (CatalogFL8Y_fill_params get_function_par_names mul exp pow).

Definition Catalog4FGLDR2_init :=
  Catalog4FGL_family_init "Extended_8years" (Some "PLSuperExpCutoff2")
    (Catalog4FGLDR2_fill_params get_function_par_names mul exp pow).

Definition Catalog4FGLDR3_init :=
  Catalog4FGL_family_init "Extended_12years" (Some "PLSuperExpCutoff4")
    (Catalog4FGLDR3_fill_params get_function_par_names).

Definition Catalog4FGLDR4_init :=
  Catalog4FGL_family_init "Extended_14years" (Some "PLSuperExpCutoff4")
    (Catalog4FGLDR4_fill_params get_function_par_names).

(** [cls(fitsfile, extdir)] for the classes of the 4FGL family *)
Definition init_4FGL_family (cls : release) :
    option (Table → nat → Table → option string → option Catalog) :=
  match cls with
  | Catalog4FGL => Some Catalog4FGL_init
  | CatalogFL8Y => Some CatalogFL8Y_init
  | Catalog4FGLDR2 => Some Catalog4FGLDR2_init
  | Catalog4FGLDR3 => Some Catalog4FGLDR3_init
  | Catalog4FGLDR4 => Some Catalog4FGLDR4_init
  | _ => None
  end.

(** [CatalogFPY.__init__], from the table read from the FITS file.  The
    empty string it writes fits every width. *)
Definition CatalogFPY_init (table : Table) (extdir : option string) : option Catalog :=
  let extdir :=
    default (os_path_join "$FERMIPY_DATA_DIR" ["catalogs"; "Extended_archive_v18"])
      extdir in
  let table := strip_columns table in
  table ← relabel table "Spatial_Filename" 0 "None" "";
  Catalog_init table extdir.

(** [PowerLaw.eval_norm(scale, index, emin, emax, flux)] of
    [fermipy.spectrum], on arrays [index] and [flux] *)
Variable eval_norm : float → list float → float → float → list float → list float.

(** [Catalog2FHL.__init__], from the two tables read from the FITS file. *)
Definition Catalog2FHL_init (table table_extsrc : Table) (extdir : option string) :
    option Catalog :=
  let extdir :=
    default (os_path_join "$FERMIPY_DATA_DIR" ["catalogs"; "Extended_archive_2fhl_v00"])
      extdir in
  let table := strip_columns table in
  let table_extsrc := strip_columns table_extsrc in
  table_extsrc ← add_spatial_function table_extsrc;
  table ← join_tables table table_extsrc "Source_Name" "Source_Name"
            (Some ["Model_Form"; "Model_SemiMajor"; "Model_SemiMinor";
                   "Model_PosAng"; "Spatial_Filename"; "Spatial_Function"]);
  table ← sort_table table "Source_Name";
  self ← Catalog_init table extdir;
  let table := _table self in
  index ← floatcol table "Spectral_Index";
  flux50 ← floatcol table "Flux50";
  table ← setitem table "Flux_Density"
            (FloatCol (eval_norm 50000 (PrimFloat.opp <$> index) 50000 2000000 flux50));
  table ← setscalar table "Pivot_Energy" (λ n, FloatCol (replicate n 50000%float));
  table ← setscalar table "SpectrumType" (λ n, StrCol (replicate n "PowerLaw"));
  table ← Catalog2FHL_fill_params table;
  Some (mkCatalog table extdir).
End Constructors.
(** ** The statements of [_fill_params], row by row

    Every statement of a [_fill_params] method has the form
    [tab['param_values'][m, slot] = expression], in a block that computes
    the mask [m] of one spectral family and the dictionary [idxs] of its
    parameter names.  The statements of a method are listed here as data,
    with their bulk reading (which is the method, see [fill_params_exec]
    below) and their reading on one row. *)

Inductive expr :=
  | Col (name : string)             (* [tab[name][m]] *)
  | Scale (c : float) (e : expr)    (* [c * e] *)
  | Mul (a b : expr)                (* [a * b] *)
  | Div (a b : expr)                (* [a / b] *)
  | Pow (a b : expr)                (* [a ** b] *)
  | Exp (a : expr).                 (* [np.exp(a)] *)

Inductive slot :=
  | ByName (p : string)             (* [idxs[p]] *)
  | Literal (j : nat).              (* a literal index *)

Definition stmt : Type := slot * expr.
Definition block : Type := string * list stmt.

Definition slot_index (idxs : gmap string nat) (s : slot) : option nat :=
  match s with
  | ByName p => idxs !! p
  | Literal j => Some j
  end.

Section Statements.
Variable get_function_par_names : string → list string.
Variable mul : float → float → float.
Variable div : float → float → float.
Variable exp : float → float.
Variable pow : float → float → float.

Fixpoint eval (tab : Table) (m : list bool) (e : expr) : arr :=
  match e with
  | Col name => col tab name m
  | Scale c e => np_scale c (eval tab m e)
  | Mul a b => np_mul mul (eval tab m a) (eval tab m b)
  | Div a b => np_div div (eval tab m a) (eval tab m b)
  | Pow a b => np_pow pow (eval tab m a) (eval tab m b)
  | Exp a => np_exp exp (eval tab m a)
  end.

Fixpoint exec_stmts (stmts : list stmt) (m : list bool) (idxs : gmap string nat)
    (k : Table → option Table) (tab : Table) : option Table :=
  match stmts with
  | [] => k tab
  | s :: stmts =>
      tab ← set_param_values tab m (slot_index idxs s.1) (eval tab m s.2);
      exec_stmts stmts m idxs k tab
  end.

Fixpoint exec_blocks (blocks : list block) (tab : Table) : option Table :=
  match blocks with
  | [] => Some tab
  | b :: blocks =>
      m ← spectrum_mask tab b.1;
      exec_stmts b.2 m (enumerate_dict (get_function_par_names b.1))
        (exec_blocks blocks) tab
  end.

Definition exec_fill (blocks : list block) (tab : Table) : option Table :=
  tab ← setitem tab "param_values" (VecCol (nan_ones (len tab) 10));
  exec_blocks blocks tab.

(** The value of an expression on row [i] *)
Fixpoint eval_row (tab : Table) (i : nat) (e : expr) : option float :=
  match e with
  | Col name => floatcol tab name ≫= (.!! i)
  | Scale c e => PrimFloat.mul c <$> eval_row tab i e
  | Mul a b => x ← eval_row tab i a; y ← eval_row tab i b; Some (mul x y)
  | Div a b => x ← eval_row tab i a; y ← eval_row tab i b; Some (div x y)
  | Pow a b => x ← eval_row tab i a; y ← eval_row tab i b; Some (pow x y)
  | Exp a => exp <$> eval_row tab i a
  end.

(** One statement on the parameter vector of row [i] *)
Definition row_stmt (tab : Table) (i : nat) (idxs : gmap string nat)
    (row : option (list float)) (s : stmt) : option (list float) :=
  row ← row;
  j ← slot_index idxs s.1;
  x ← eval_row tab i s.2;
  if bool_decide (j < length row) then Some (<[j:=x]> row) else None.

(** One block on the parameter vector of a row of spectrum type [s] *)
Definition row_block (tab : Table) (i : nat) (s : string)
    (row : option (list float)) (b : block) : option (list float) :=
  if bool_decide (s = b.1)
  then foldl (row_stmt tab i (enumerate_dict (get_function_par_names b.1))) row b.2
  else row.

Definition row_fill (tab : Table) (i : nat) (s : string) (blocks : list block)
    : option (list float) :=
  foldl (row_block tab i s) (Some (replicate 10 nan)) blocks.
End Statements.

(** The statements of each method, in the order of the source. *)
Definition PowerLaw_block (flux index : string) : block :=
  ("PowerLaw",
   [(ByName "Prefactor", Col flux);
    (ByName "Index", Scale (-1) (Col index));
    (ByName "Scale", Col "Pivot_Energy")]).

Definition LogParabola_block (flux index curvature : string) : block :=
  ("LogParabola",
   [(ByName "norm", Col flux);
    (ByName "alpha", Col index);
    (ByName "beta", Col curvature);
    (ByName "Eb", Col "Pivot_Energy")]).

Definition PLSuperExpCutoff2_block (flux : string) : block :=
  ("PLSuperExpCutoff2",
   [(ByName "Prefactor",
     Mul (Col flux)
       (Exp (Mul (Col "PLEC_Expfactor") (Pow (Col "Pivot_Energy") (Col "PLEC_Exp_Index")))));
    (ByName "Index1", Scale (-1) (Col "PLEC_Index"));
    (ByName "Scale", Col "Pivot_Energy");
    (ByName "Expfactor", Col "PLEC_Expfactor");
    (ByName "Index2", Col "PLEC_Exp_Index")]).

Definition blocks_of (cls : release) : list block :=
  match cls with
  | Catalog2FHL =>
      [("PowerLaw",
        [(Literal 0, Col "Flux_Density");
         (Literal 1, Scale (-1) (Col "Spectral_Index"));
         (Literal 2, Col "Pivot_Energy")])]
  | Catalog3FGL =>
      [PowerLaw_block "Flux_Density" "Spectral_Index";
       ("PLSuperExpCutoff",
        [(ByName "Prefactor",
          Mul (Col "Flux_Density")
            (Exp (Pow (Div (Col "Pivot_Energy") (Col "Cutoff")) (Col "Exp_Index"))));
         (ByName "Index1", Scale (-1) (Col "Spectral_Index"));
         (ByName "Scale", Col "Pivot_Energy");
         (ByName "Cutoff", Col "Cutoff");
         (ByName "Index2", Col "Exp_Index")]);
       LogParabola_block "Flux_Density" "Spectral_Index" "beta"]
  | Catalog4FGL | Catalog4FGLDR2 =>
      [PowerLaw_block "PL_Flux_Density" "PL_Index";
       PLSuperExpCutoff2_block "PLEC_Flux_Density";
       LogParabola_block "LP_Flux_Density" "LP_Index" "LP_beta"]
  | CatalogFL8Y =>
      [PowerLaw_block "Flux_Density" "PL_Index";
       PLSuperExpCutoff2_block "Flux_Density";
       LogParabola_block "Flux_Density" "LP_Index" "LP_beta"]
  | Catalog4FGLDR3 | Catalog4FGLDR4 =>
      [PowerLaw_block "PL_Flux_Density" "PL_Index";
       ("PLSuperExpCutoff4",
        [(ByName "Prefactor", Col "PLEC_Flux_Density");
         (ByName "IndexS", Scale (-1) (Col "PLEC_IndexS"));
         (ByName "Scale", Col "Pivot_Energy");
         (ByName "ExpfactorS", Col "PLEC_ExpfactorS");
         (ByName "Index2", Col "PLEC_Exp_Index")]);
       LogParabola_block "LP_Flux_Density" "LP_Index" "LP_beta"]
  | Catalog4FGLP | CatalogFPY => []
  end.

(** The spectral families a method handles, and the column it reads the
    power-law index from. *)
Definition families (cls : release) : list string := (blocks_of cls).*1.

Definition index_column (cls : release) : string :=
  match cls with
  | Catalog2FHL | Catalog3FGL => "Spectral_Index"
  | _ => "PL_Index"
  end.

(** The classes that have a [_fill_params], and those among them that look
    the slots up in the registry. *)
Definition has_fill_params (cls : release) : bool :=
  match cls with
  | Catalog4FGLP | CatalogFPY => false
  | _ => true
  end.

Definition registry_driven (cls : release) : bool :=
  match cls with
  | Catalog2FHL | Catalog4FGLP | CatalogFPY => false
  | _ => true
  end.

(** The cell of a column of floats on row [i] *)
Definition cell (tab : Table) (name : string) (i : nat) : option float :=
  floatcol tab name ≫= (.!! i).

(** The column a class reads the flux density of [PLSuperExpCutoff2] from *)
Definition plec_flux_column (cls : release) : string :=
  match cls with
  | CatalogFL8Y => "Flux_Density"
  | _ => "PLEC_Flux_Density"
  end.

Definition slot_named (s : slot) : bool :=
  match s with ByName _ => true | Literal _ => false end.

Global Instance slot_eq_dec : EqDecision slot.
Proof. solve_decision. Defined.

(** The keys of a table, and what it is for a result to keep the columns of
    [left] as they are, row for row. *)
Definition key_of (t : Table) (key : string) : option (list keyval) :=
  getcol t key ≫= key_column.

Definition same_row_order (left out : Table) : Prop :=
  ∀ (k : nat) (n : string) (c : coldata), left !! k = Some (n, c) →
    ∃ n', out !! k = Some (n', c).

(** Two tables for the order of the rows of a join *)
Definition left_BA : Table := [("k", StrCol ["B"; "A"]); ("x", IntCol [2; 1]%Z)].
Definition right_A : Table := [("k", StrCol ["A"]); ("y", IntCol [10]%Z)].

(** [hoare P c Q E]: from a heap that satisfies [P], the computation [c]
    returns [x] and leaves a heap that satisfies [Q x], or raises and
    leaves a heap that satisfies [E]. *)
Definition hoare {A} (P : heap → Prop) (c : ST A) (Q : A → heap → Prop)
    (E : heap → Prop) : Prop :=
  ∀ h, P h → match c h with
             | (Some x, h') => Q x h'
             | (None, h') => E h'
             end.

(** ** More of [_fill_params] *)

(** The columns each class reads the parameters of [PowerLaw] and of
    [LogParabola] from. *)
Definition pl_flux_column (cls : release) : string :=
  match cls with
  | Catalog2FHL | Catalog3FGL | CatalogFL8Y => "Flux_Density"
  | _ => "PL_Flux_Density"
  end.

Definition lp_flux_column (cls : release) : string :=
  match cls with
  | Catalog3FGL | CatalogFL8Y => "Flux_Density"
  | _ => "LP_Flux_Density"
  end.

Definition lp_index_column (cls : release) : string :=
  match cls with
  | Catalog3FGL => "Spectral_Index"
  | _ => "LP_Index"
  end.

Definition lp_beta_column (cls : release) : string :=
  match cls with
  | Catalog3FGL => "beta"
  | _ => "LP_beta"
  end.

(** The columns an expression reads, the columns the statements of a class
    read, and the parameter names a class looks up, each with its family. *)
Fixpoint expr_columns (e : expr) : list string :=
  match e with
  | Col name => [name]
  | Scale _ e => expr_columns e
  | Mul a b | Div a b | Pow a b => expr_columns a ++ expr_columns b
  | Exp a => expr_columns a
  end.

Definition columns_read (cls : release) : list string :=
  b ← blocks_of cls; s ← b.2; expr_columns s.2.

Definition names_used (cls : release) : list (string * string) :=
  b ← blocks_of cls; s ← b.2;
  match s.1 with ByName p => [(b.1, p)] | Literal _ => [] end.

(** What a statement needs to run: its slot and the columns it reads. *)
Definition stmt_ok (tab : Table) (idxs : gmap string nat) (s : stmt) : Prop :=
  is_Some (slot_index idxs s.1) ∧ Forall (λ c, is_Some (floatcol tab c)) (expr_columns s.2).
(** ** A [Library] to run the constructors with *)

(** A merge sort for [argsort], which is stable, and a [SkyCoord] that
    takes two columns of floats with every declination in [-90, 90]. *)
Definition by_key (x y : keyval * nat) : Prop := keyval_leb x.1 y.1.

Definition merge_argsort (keys : list keyval) : list nat :=
  (merge_sort by_key (zip keys (seq 0 (length keys)))).*2.

Definition declinations (ra dec : coldata) : bool :=
  match ra, dec with
  | FloatCol _, FloatCol d =>
      forallb (λ x, PrimFloat.leb (-90) x && PrimFloat.leb x 90) d
  | _, _ => false
  end.

Definition merge_sort_library : Library.
Proof.
  assert (Htotal : Total by_key).
  { intros x y. unfold by_key.
    destruct x.1 as [a|a], y.1 as [b|b]; simpl; auto.
    - destruct (String.leb_total a b) as [->| ->]; simpl; auto.
    - destruct (Z.leb_spec a b); [auto|]. right. apply Is_true_true, Z.leb_le. lia. }
  assert (Hall : ∀ keys,
    Forall (λ ki : keyval * nat, keys !! ki.2 = Some ki.1)
      (merge_sort by_key (zip keys (seq 0 (length keys))))).
  { intros keys. rewrite merge_sort_Permutation.
    apply Forall_forall. intros [k i] Hin.
    apply list_elem_of_lookup in Hin as [n Hn].
    apply lookup_zip_with_Some in Hn as (k' & i' & [= -> ->] & Hk & Hi).
    apply lookup_seq in Hi as [-> _]. done. }
  refine {| argsort := merge_argsort; SkyCoord := declinations |}.
  - intros keys. unfold merge_argsort.
    rewrite merge_sort_Permutation. rewrite snd_zip; [done|]. by rewrite length_seq.
  - intros keys. exists (merge_sort by_key (zip keys (seq 0 (length keys)))).*1. split.
    + unfold take, merge_argsort. apply mapM_Some. apply Forall2_fmap.
      specialize (Hall keys).
      induction Hall as [|[k i] l Hki Hl IH]; constructor; auto.
    + apply (Sorted_fmap fst by_key keyval_le); [by intros x y|].
      apply (Sorted_merge_sort by_key).
Defined.
(** ** Sample inputs *)

(** The lists of parameter names the comments of [_fill_params] give. *)
Definition sample_registry (family : string) : list string :=
  if bool_decide (family = "PowerLaw") then ["Prefactor"; "Index"; "Scale"]
  else if bool_decide (family = "PLSuperExpCutoff")
  then ["Prefactor"; "Index1"; "Scale"; "Cutoff"; "Index2"]
  else if bool_decide (family = "PLSuperExpCutoff2")
  then ["Prefactor"; "Index1"; "Scale"; "Expfactor"; "Index2"]
  else if bool_decide (family = "PLSuperExpCutoff4")
  then ["Prefactor"; "IndexS"; "Scale"; "ExpfactorS"; "Index2"]
  else if bool_decide (family = "LogParabola") then ["norm"; "alpha"; "beta"; "Eb"]
  else [].

(** A registry that lists the parameters of [PowerLaw] in another order
    than the literal slots of [Catalog2FHL._fill_params] take, and a table
    of one power-law source with the columns [Catalog2FHL._fill_params] and
    [Catalog3FGL._fill_params] read. *)
Definition reordered_registry (family : string) : list string :=
  if bool_decide (family = "PowerLaw") then ["Index"; "Prefactor"; "Scale"]
  else sample_registry family.

Definition sample_2FHL : Table :=
  [("SpectrumType", StrCol ["PowerLaw"]);
   ("Flux_Density", FloatCol [3%float]);
   ("Spectral_Index", FloatCol [2%float]);
   ("Pivot_Energy", FloatCol [50000%float]);
   ("Cutoff", FloatCol [0%float]);
   ("Exp_Index", FloatCol [0%float]);
   ("beta", FloatCol [0%float])].

(** The product and the quotient of binary64, which are numpy's on columns
    of float64, and stand-ins for numpy's [exp] and [**] where a run needs
    functions. *)
Definition sample_mul (x y : float) : float := (x * y)%float.
Definition sample_div (x y : float) : float := (x / y)%float.
Definition sample_exp (x : float) : float := (x + 1)%float.
Definition sample_pow (x y : float) : float := (x * y)%float.

(** A point-source table of three sources, the second with the cells of
    the scenario for [PLSuperExpCutoff2], and a table of extended sources. *)
Definition sample_table : Table :=
  [("Source_Name", StrCol ["4FGL J0002"; "4FGL J0001 "; "4FGL J0003"]);
   ("RAJ2000", FloatCol [10; 20; 30]%float);
   ("DEJ2000", FloatCol [-5; 5; 15]%float);
   ("Extended_Source_Name", StrCol [" "; "Crab "; ""]);
   ("SpectrumType", StrCol ["PowerLaw"; "PLSuperExpCutoff2"; "Unknown"]);
   ("Signif_Avg", FloatCol [3; 4; 5]%float);
   ("PL_Flux_Density", FloatCol [1.0e-12; 1.0e-12; 1.0e-12]%float);
   ("PL_Index", FloatCol [2.5; 2.0; 2.0]%float);
   ("Pivot_Energy", FloatCol [1000; 1000; 1000]%float);
   ("PLEC_Flux_Density", FloatCol [1.0e-12; 1.0e-12; 1.0e-12]%float);
   ("PLEC_Expfactor", FloatCol [0.01; 0.01; 0.01]%float);
   ("PLEC_Exp_Index", FloatCol [1.5; 1.5; 1.5]%float);
   ("PLEC_Index", FloatCol [2.0; 2.0; 2.0]%float);
   ("LP_Flux_Density", FloatCol [1.0e-12; 1.0e-12; 1.0e-12]%float);
   ("LP_Index", FloatCol [2.0; 2.0; 2.0]%float);
   ("LP_beta", FloatCol [0.5; 0.5; 0.5]%float)].

Definition sample_extsrc : Table :=
  [("Source_Name", StrCol ["Crab"]);
   ("Model_Form", StrCol ["Map"]);
   ("Spatial_Filename", StrCol ["Crab.fits"])].

Definition sample_2FHL_filled : Table :=
  Eval vm_compute in
    default [] (fill_params reordered_registry sample_mul sample_div sample_exp sample_pow
                  Catalog2FHL sample_2FHL).

Definition sample_filled : Table :=
  Eval vm_compute in
    default [] (fill_params sample_registry sample_mul sample_div sample_exp sample_pow
        Catalog4FGL sample_table).

Definition sample_catalog : Catalog :=
  Eval vm_compute in
    default (mkCatalog [] "")
      (Catalog4FGL_init (lib:=merge_sort_library)
         sample_registry sample_mul sample_exp sample_pow
         sample_table 17 sample_extsrc None).

Definition sample_extsrc_radec : Table :=
  [("Source_Name", StrCol ["Crab"; "J0001"; "J0002"]);
   ("RAJ2000", FloatCol [83.6; 1; 2]%float);
   ("DEJ2000", FloatCol [22.0; 1; 2]%float);
   ("Spatial_Filename", StrCol ["Crab.fits"; ""; ""]);
   ("Spatial_Function", StrCol [""; ""; "RadialDisk"])].

Definition sample_base : Catalog :=
  Eval vm_compute in default (mkCatalog [] "") (Catalog_init (lib:=merge_sort_library)
      sample_extsrc_radec "").

(** A file system with one catalog file, read under [/data/catalogs]. *)
Definition sample_open (file : FitsFile) (path : string) : option FitsFile :=
  if bool_decide (path = "/data/catalogs/gll_psc.fit") then Some file else None.

Definition sample_v99 : FitsFile :=
  mkFitsFile {["CDS-NAME" := "4FGL"; "VERSION" := "v99"]} ["Source_Name"; "PLEC_Index"].

Definition sample_v20 : FitsFile :=
  mkFitsFile {["CDS-NAME" := "4FGL"; "VERSION" := "v20"]} ["Source_Name"; "NickName"].
Definition sample_joined : Table :=
  Eval vm_compute in default [] (join_tables (lib:=merge_sort_library)
      left_BA right_A "k" "k" None).

(** A table with the columns [Catalog3FGL._fill_params] reads, of one
    source for each family the method handles, and a table with the columns
    [Catalog4FGLDR3._fill_params] reads. *)
Definition sample_3FGL : Table :=
  [("SpectrumType", StrCol ["PowerLaw"; "PLSuperExpCutoff"; "LogParabola"]);
   ("Flux_Density", FloatCol [3; 4; 5]%float);
   ("Spectral_Index", FloatCol [2; 2.5; 1.5]%float);
   ("Pivot_Energy", FloatCol [1000; 2000; 3000]%float);
   ("Cutoff", FloatCol [0; 4000; 0]%float);
   ("Exp_Index", FloatCol [0; 1; 0]%float);
   ("beta", FloatCol [0; 0; 0.5]%float)].

Definition sample_3FGL_filled : Table :=
  Eval vm_compute in
    default [] (fill_params sample_registry sample_mul sample_div sample_exp sample_pow
        Catalog3FGL sample_3FGL).

Definition sample_DR3 : Table :=
  [("SpectrumType", StrCol ["PLSuperExpCutoff4"; "PowerLaw"]);
   ("PL_Flux_Density", FloatCol [1; 2]%float);
   ("PL_Index", FloatCol [2; 2.5]%float);
   ("Pivot_Energy", FloatCol [1000; 2000]%float);
   ("PLEC_Flux_Density", FloatCol [3; 4]%float);
   ("PLEC_IndexS", FloatCol [1.5; 1.75]%float);
   ("PLEC_ExpfactorS", FloatCol [0.5; 0.25]%float);
   ("PLEC_Exp_Index", FloatCol [0.5; 0.75]%float);
   ("LP_Flux_Density", FloatCol [5; 6]%float);
   ("LP_Index", FloatCol [2; 2]%float);
   ("LP_beta", FloatCol [0.5; 0.5]%float)].

(** A table of the third schema generation with a row of
    [PLSuperExpCutoff2] that has the cells of the scenario, under the
    column names of the second generation and of the third. *)
Definition sample_DR3_PLEC2 : Table :=
  [("SpectrumType", StrCol ["PLSuperExpCutoff2"]);
   ("PL_Flux_Density", FloatCol [1.0e-12]%float);
   ("PL_Index", FloatCol [2.0]%float);
   ("Pivot_Energy", FloatCol [1000]%float);
   ("PLEC_Flux_Density", FloatCol [1.0e-12]%float);
   ("PLEC_Index", FloatCol [2.0]%float);
   ("PLEC_Expfactor", FloatCol [0.01]%float);
   ("PLEC_IndexS", FloatCol [2.0]%float);
   ("PLEC_ExpfactorS", FloatCol [0.01]%float);
   ("PLEC_Exp_Index", FloatCol [1.5]%float);
   ("LP_Flux_Density", FloatCol [1.0e-12]%float);
   ("LP_Index", FloatCol [2.0]%float);
   ("LP_beta", FloatCol [0.5]%float)].

Definition sample_DR3_PLEC2_filled : Table :=
  Eval vm_compute in
    default [] (fill_params sample_registry sample_mul sample_div sample_exp sample_pow
                  Catalog4FGLDR3 sample_DR3_PLEC2).

Definition sample_DR3_filled : Table :=
  Eval vm_compute in
    default [] (fill_params sample_registry sample_mul sample_div sample_exp sample_pow
        Catalog4FGLDR3 sample_DR3).

(** A registry from before [PLSuperExpCutoff4]: it lists the parameters of
    [PLSuperExpCutoff2] under that name too. *)
Definition older_registry (family : string) : list string :=
  if bool_decide (family = "PLSuperExpCutoff4")
  then ["Prefactor"; "Index1"; "Scale"; "Expfactor"; "Index2"]
  else sample_registry family.

(** More catalog files: one tagged [3FGL] that has the version tag and the
    signature column of a 4FGL file, one of the third schema generation of
    4FGL, one tagged [4FGL] with no version tag, and one with no tag at
    all. *)
Definition sample_tag_3FGL : FitsFile :=
  mkFitsFile {["CDS-NAME" := "3FGL"; "VERSION" := "v20"]} ["Source_Name"; "PLEC_Index"].

Definition sample_v30 : FitsFile :=
  mkFitsFile {["CDS-NAME" := "4FGL"; "VERSION" := "v30"]} ["Source_Name"; "PLEC_IndexS"].

Definition sample_no_version : FitsFile :=
  mkFitsFile {["CDS-NAME" := "4FGL"]} ["Source_Name"; "PLEC_Index"].

Definition sample_untagged : FitsFile :=
  mkFitsFile ∅ ["Source_Name"; "Spatial_Filename"].

(** A heap with the two tables of the join, a table of a user catalog with
    its catalog, and the tables of a 2FHL file with its catalog, for a
    normalisation that returns the flux it is given. *)
Definition sample_heap : heap := {[0 := left_BA; 1 := right_A]}.

Definition sample_FPY : Table :=
  [("Source_Name", StrCol ["a"; "b"]);
   ("RAJ2000", FloatCol [10; 20]%float);
   ("DEJ2000", FloatCol [-5; 5]%float);
   ("Spatial_Filename", StrCol ["None "; " a.fits"])].

Definition sample_FPY_catalog : Catalog :=
  Eval vm_compute in default (mkCatalog [] "") (CatalogFPY_init (lib:=merge_sort_library)
      sample_FPY None).

Definition sample_eval_norm (scale : float) (index : list float) (emin emax : float)
    (flux : list float) : list float := flux.

Definition sample_2FHL_file : Table :=
  [("Source_Name", StrCol ["2FHL J0002"; "2FHL J0001"]);
   ("RAJ2000", FloatCol [10; 20]%float);
   ("DEJ2000", FloatCol [-5; 5]%float);
   ("Spectral_Index", FloatCol [2; 3]%float);
   ("Flux50", FloatCol [7; 8]%float)].

Definition sample_2FHL_extsrc : Table :=
  [("Source_Name", StrCol ["2FHL J0001"]);
   ("Spatial_Filename", StrCol ["J0001.fits"])].

Definition sample_2FHL_catalog : Catalog :=
  Eval vm_compute in
    default (mkCatalog [] "")
      (Catalog2FHL_init (lib:=merge_sort_library) sample_eval_norm
         sample_2FHL_file sample_2FHL_extsrc None).
(** ** The methods are their statements *)

(** Each [_fill_params] is the bulk reading of its statements. *)
Lemma fill_params_exec reg mul div exp pow cls tab :
  has_fill_params cls = true →
  fill_params reg mul div exp pow cls tab = exec_fill reg mul div exp pow (blocks_of cls) tab.
Proof. destruct cls; intros Hc; try discriminate Hc; reflexivity. Qed.
(** ** Lemmas on tables *)

Lemma has_col_getcol t name : has_col t name = true ↔ is_Some (getcol t name).
Proof.
  unfold has_col, colnames. rewrite bool_decide_eq_true.
  induction t as [|[n c] t IH]; simpl.
  - split; [intros H; inversion H | intros [? ?]; discriminate].
  - rewrite elem_of_cons. case_bool_decide; subst.
    + split; eauto.
    + rewrite <- IH. split; [intros [?|?]; [congruence|done] | auto].
Qed.

Lemma has_col_false t name : has_col t name = false ↔ getcol t name = None.
Proof.
  rewrite <- not_true_iff_false, has_col_getcol, <- eq_None_not_Some. done.
Qed.

Lemma getcol_setdata_ne t name c name' :
  name ≠ name' → getcol (setdata t name c) name' = getcol t name'.
Proof.
  intros Hne. induction t as [|[n c0] t IH]; simpl; [done|].
  repeat (case_bool_decide; simpl); subst; congruence.
Qed.

Lemma getcol_setdata_eq t name c :
  is_Some (getcol t name) → getcol (setdata t name c) name = Some c.
Proof.
  induction t as [|[n c0] t IH]; simpl; intros [x Hx]; [done|].
  repeat (case_bool_decide; simpl); subst; try congruence. eauto.
Qed.

Lemma getcol_app_ne t name c name' :
  name ≠ name' → getcol (t ++ [(name, c)]) name' = getcol t name'.
Proof.
  intros Hne. induction t as [|[n c0] t IH]; simpl.
  - rewrite bool_decide_eq_false_2; done.
  - case_bool_decide; done.
Qed.

Lemma getcol_app_eq t name c :
  getcol t name = None → getcol (t ++ [(name, c)]) name = Some c.
Proof.
  induction t as [|[n c0] t IH]; simpl.
  - rewrite bool_decide_eq_true_2; done.
  - case_bool_decide; [done|auto].
Qed.

Lemma setitem_eq t name c t' :
  setitem t name c = Some t' → getcol t' name = Some c.
Proof.
  unfold setitem. destruct (_ || _); [|done]. intros [= <-].
  destruct (has_col t name) eqn:Hh.
  - apply getcol_setdata_eq, has_col_getcol, Hh.
  - apply getcol_app_eq, has_col_false, Hh.
Qed.

Lemma setitem_ne t name c t' name' :
  setitem t name c = Some t' → name ≠ name' → getcol t' name' = getcol t name'.
Proof.
  unfold setitem. destruct (_ || _); [|done]. intros [= <-] Hne.
  destruct (has_col t name); [by apply getcol_setdata_ne | by apply getcol_app_ne].
Qed.

Lemma mask_fill_lookup {A} (a : list A) (m : list bool) (v : A) (r : list A) :
  mask_fill a m v = Some r →
  length a = length m ∧ length r = length a ∧
  ∀ (i : nat) (x : A) (b : bool), a !! i = Some x → m !! i = Some b →
    r !! i = Some (if b then v else x).
Proof.
  revert m r. induction a as [|x a IH]; intros [|b m] r; simpl; try done.
  - intros [= <-]. split_and!; [done..|]. intros i ???. by rewrite lookup_nil.
  - destruct (mask_fill a m v) as [r'|] eqn:Hr; [|done]. simpl. intros [= <-].
    destruct (IH _ _ Hr) as (Hl1 & Hl2 & Hi). simpl. split_and!; [lia..|].
    intros [|i] y c; simpl; [by intros [= <-] [= <-]|]. apply Hi.
Qed.

Lemma setitem_len t name c t' : setitem t name c = Some t' → t ≠ [] → len t' = len t.
Proof.
  unfold setitem. destruct (_ || _) eqn:Hb; [|done]. intros [= <-] Hne.
  destruct t as [|[n0 c0] t]; [done|].
  rewrite orb_true_iff, !bool_decide_eq_true in Hb. destruct Hb as [?|Hb]; [done|].
  destruct (has_col _ name); [|done]. simpl. case_bool_decide; [done|done].
Qed.

Lemma setdata_len t name c : col_len c = len t → len (setdata t name c) = len t.
Proof. destruct t as [|[n0 c0] t]; [done|]. simpl. by case_bool_decide. Qed.

Lemma setdata_len_col t name c c0 :
  getcol t name = Some c0 → col_len c = col_len c0 → len (setdata t name c) = len t.
Proof.
  destruct t as [|[n0 c1] t]; [done|]. simpl.
  case_bool_decide; [|done]. intros [= ->] Hc. exact Hc.
Qed.

Lemma setitem_nonempty t name c t' : setitem t name c = Some t' → t ≠ [] → t' ≠ [].
Proof.
  unfold setitem. destruct (_ || _); [|done]. intros [= <-] Hne.
  destruct t as [|[n0 c0] t]; [done|].
  destruct (has_col _ name); simpl; [by case_bool_decide|done].
Qed.

Lemma len_app (t : Table) nc : t ≠ [] → len (t ++ [nc]) = len t.
Proof. by destruct t as [|[n0 c0] t]. Qed.

Lemma len_nonzero (t : Table) : len t ≠ 0 → t ≠ [].
Proof. by destruct t. Qed.

(** A scalar assignment: the other columns stay, and the column assigned
    holds the scalar on as many rows as the table has, or as the column
    had. *)
Lemma setscalar_ne t name c t' name' :
  setscalar t name c = Some t' → name ≠ name' → getcol t' name' = getcol t name'.
Proof.
  unfold setscalar. intros H Hne.
  destruct (getcol t name) as [c0|].
  - destruct c0; try done; destruct (same_kind _ _); try done;
      injection H as <-; by apply getcol_setdata_ne.
  - case_bool_decide; [done|]. injection H as <-. by apply getcol_app_ne.
Qed.

Lemma setscalar_eq t name c t' :
  setscalar t name c = Some t' →
  ∃ n, getcol t' name = Some (c n) ∧
    match getcol t name with
    | Some c0 => n = col_len c0 ∧ same_kind c0 (c 0) = true ∧ ∀ d, c0 ≠ StrCol d
    | None => n = len t ∧ len t ≠ 0
    end.
Proof.
  unfold setscalar. intros H.
  destruct (getcol t name) as [c0|] eqn:Hc.
  - assert (Hs : is_Some (getcol t name)) by (rewrite Hc; eauto).
    destruct c0; try done; destruct (same_kind _ _) eqn:Hk; try done;
      injection H as <-; eexists; (split; [by apply getcol_setdata_eq|done]).
  - case_bool_decide; [done|]. injection H as <-.
    eexists. split; [by apply getcol_app_eq|done].
Qed.

Lemma setscalar_len t name c t' :
  (∀ n, col_len (c n) = n) →
  setscalar t name c = Some t' → len t' = len t ∧ (t ≠ [] → t' ≠ []).
Proof.
  unfold setscalar. intros Hc H.
  destruct (getcol t name) as [c0|] eqn:Hc0.
  - assert (len (setdata t name (c (col_len c0))) = len t ∧
            (t ≠ [] → setdata t name (c (col_len c0)) ≠ [])).
    { destruct t as [|[n0 c1] t]; [done|]. simpl in *.
      case_bool_decide; [|done]. injection Hc0 as ->. simpl. by rewrite Hc. }
    destruct c0; try done; destruct (same_kind _ _); try done; by injection H as <-.
  - case_bool_decide as Hl; [done|]. injection H as <-.
    split; [by apply len_app, len_nonzero|]. by destruct t.
Qed.

Lemma mask_fill_np_eq d old new :
  mask_fill d (np_eq d old) new =
    Some ((λ x, if bool_decide (x = old) then new else x) <$> d).
Proof.
  induction d as [|x d IH]; [done|].
  unfold np_eq in *. rewrite !fmap_cons. simpl. by rewrite IH.
Qed.

Lemma relabel_eq t name w old new t' :
  relabel t name w old new = Some t' →
  ∃ d, strcol t name = Some d ∧
       strcol t' name =
         Some ((λ x, if bool_decide (x = old) then truncate w new else x) <$> d) ∧
       ∀ c, c ≠ name → getcol t' c = getcol t c.
Proof.
  unfold relabel. destruct (strcol t name) as [d|] eqn:Hd; [simpl|done].
  rewrite mask_fill_np_eq. simpl. intros [= <-]. exists d. split; [done|]. split.
  - unfold strcol in *. rewrite getcol_setdata_eq; [done|].
    destruct (getcol t name); [eauto|done].
  - intros c Hc. by apply getcol_setdata_ne.
Qed.

Lemma getcol_elem_of (t : Table) n c : getcol t n = Some c → (n, c) ∈ t.
Proof.
  induction t as [|[n0 c0] t IH]; simpl; [done|].
  case_bool_decide; [intros [= <-]; subst; by left|]. intros. right. auto.
Qed.
(** ** The base constructor *)

Section BaseConstructor.
Context {lib : Library}.

(** What [Catalog.__init__] leaves.  It returns only on a table of one row
    or more that has the columns [RAJ2000] and [DEJ2000], from which
    astropy builds the sky coordinates, and no column [extdir]; a column
    [extended] the table has is a column of booleans.  It leaves the
    directory, every column the table had but [extended] as it was, the
    two spatial columns empty where the table had none, [extended] true
    where one of the two is not empty, and the directory on every row of
    [extdir]. *)
Lemma Catalog_init_columns table extdir self :
  Catalog_init table extdir = Some self →
  _extdir self = extdir ∧
  (∃ ra dec, getcol table "RAJ2000" = Some ra ∧ getcol table "DEJ2000" = Some dec ∧
     SkyCoord ra dec = true) ∧
  len table ≠ 0 ∧ getcol table "extdir" = None ∧
  len (_table self) = len table ∧
  (∀ c, c ≠ "extended" → c ≠ "extdir" → is_Some (getcol table c) →
     getcol (_table self) c = getcol table c) ∧
  (∃ filename function,
     spatial table "Spatial_Filename" = Some filename ∧
     spatial table "Spatial_Function" = Some function ∧
     strcol (_table self) "Spatial_Filename" = Some filename ∧
     strcol (_table self) "Spatial_Function" = Some function ∧
     length filename = length function ∧
     boolcol (_table self) "extended" =
       Some (zip_with (λ fn fu, bool_decide (fn ≠ "") || bool_decide (fu ≠ ""))
               filename function) ∧
     match getcol table "extended" with
     | Some c0 => col_len c0 = length filename ∧ ∃ d, c0 = BoolCol d
     | None => length filename = len table
     end) ∧
  strcol (_table self) "extdir" = Some (replicate (len table) extdir).
Proof.
  unfold Catalog_init. intros H.
  destruct (getcol table "RAJ2000") as [ra|] eqn:Hra; [simpl in H|done].
  destruct (getcol table "DEJ2000") as [de|] eqn:Hde; [simpl in H|done].
  destruct (SkyCoord ra de) eqn:Hsky; [simpl in H|done].
  assert (Hne : table ≠ []) by (by destruct table).
  destruct (if negb (has_col table "Spatial_Filename") then _ else _)
    as [t1|] eqn:H1; [simpl in H|done].
  destruct (if negb (has_col t1 "Spatial_Function") then _ else _)
    as [t2|] eqn:H2; [simpl in H|done].
  destruct (strcol t2 "Spatial_Filename") as [filename|] eqn:Hfn; [simpl in H|done].
  destruct (strcol t2 "Spatial_Function") as [function|] eqn:Hfu; [simpl in H|done].
  destruct (np_or _ _) as [m|] eqn:Hm; [simpl in H|done].
  destruct (setscalar t2 "extended" _) as [t3|] eqn:H3; [simpl in H|done].
  destruct (boolcol t3 "extended") as [ext0|] eqn:He0; [simpl in H|done].
  destruct (mask_fill ext0 m true) as [ext|] eqn:He; [simpl in H|done].
  destruct (setscalar (setdata t3 _ _) "extdir" _) as [t5|] eqn:H5; [simpl in H|done].
  injection H as <-. simpl.
  assert (Hl1 : len t1 = len table ∧ t1 ≠ []).
  { destruct (has_col table "Spatial_Filename"); simpl in H1; [by injection H1 as <-|].
    split; [by eapply setitem_len|by eapply setitem_nonempty]. }
  assert (Hl2 : len t2 = len table ∧ t2 ≠ []).
  { destruct Hl1 as [<- ?].
    destruct (has_col t1 "Spatial_Function"); simpl in H2; [by injection H2 as <-|].
    split; [by eapply setitem_len|by eapply setitem_nonempty]. }
  assert (Hl3 : len t3 = len table ∧ t3 ≠ []).
  { destruct Hl2 as [<- Hne2].
    destruct (setscalar_len _ _ (λ n, BoolCol (replicate n false)) _
                (λ n, length_replicate n false) H3). auto. }
  assert (H1c : ∀ c, c ≠ "Spatial_Filename" → getcol t1 c = getcol table c).
  { intros c Hc. destruct (has_col table "Spatial_Filename"); simpl in H1;
      [by injection H1 as <-|by eapply setitem_ne]. }
  assert (H2c : ∀ c, c ≠ "Spatial_Function" → getcol t2 c = getcol t1 c).
  { intros c Hc. destruct (has_col t1 "Spatial_Function"); simpl in H2;
      [by injection H2 as <-|by eapply setitem_ne]. }
  assert (H12 : ∀ c, is_Some (getcol table c) → getcol t2 c = getcol table c).
  { intros c Hc.
    assert (getcol t1 c = getcol table c) as H1c'.
    { destruct (has_col table "Spatial_Filename") eqn:Hh1; simpl in H1;
        [by injection H1 as <-|].
      apply has_col_false in Hh1. apply (setitem_ne _ _ _ _ _ H1).
      intros <-. rewrite Hh1 in Hc. by destruct Hc. }
    rewrite <- H1c'.
    destruct (has_col t1 "Spatial_Function") eqn:Hh2; simpl in H2;
      [by injection H2 as <-|].
    apply has_col_false in Hh2. apply (setitem_ne _ _ _ _ _ H2).
    intros <-. rewrite <- H1c', Hh2 in Hc. by destruct Hc. }
  assert (Hfr : ∀ c, c ≠ "extended" → c ≠ "extdir" → getcol t5 c = getcol t2 c).
  { intros c ??. rewrite (setscalar_ne _ _ _ _ _ H5) by done.
    rewrite getcol_setdata_ne by done. by rewrite (setscalar_ne _ _ _ _ _ H3). }
  assert (Hlen4 : len (setdata t3 "extended" (BoolCol ext)) = len t3 ∧
                  length ext = length filename ∧ length filename = length function ∧
                  ext = zip_with (λ fn fu, bool_decide (fn ≠ "") || bool_decide (fu ≠ ""))
                          filename function ∧
                  match getcol table "extended" with
                  | Some c0 => col_len c0 = length filename ∧ ∃ d, c0 = BoolCol d
                  | None => length filename = len table
                  end).
  { destruct (setscalar_eq _ _ _ _ H3) as (n & Hn & Hcase).
    unfold boolcol in He0. rewrite Hn in He0. simpl in He0. injection He0 as <-.
    unfold np_or in Hm. case_bool_decide as Hlen; [|done]. injection Hm as <-.
    unfold np_ne in *. rewrite !length_fmap in Hlen.
    pose proof (mask_fill_lookup _ _ _ _ He) as (Hla & Hlb & Hi).
    rewrite length_zip_with, !length_fmap, length_replicate in Hla.
    rewrite length_replicate in Hlb.
    assert (ext = zip_with (λ fn fu, bool_decide (fn ≠ "") || bool_decide (fu ≠ ""))
                    filename function) as Hext.
    { apply list_eq. intros i.
      destruct (decide (i < n)) as [Hlt|Hge].
      - destruct (lookup_lt_is_Some_2 filename i) as [fn Hfn']; [lia|].
        destruct (lookup_lt_is_Some_2 function i) as [fu Hfu']; [lia|].
        rewrite (Hi i false (bool_decide (fn ≠ "") || bool_decide (fu ≠ ""))).
        + rewrite lookup_zip_with, Hfn', Hfu'. simpl.
          by destruct (bool_decide (fn ≠ "") || bool_decide (fu ≠ "")).
        + by apply lookup_replicate_2.
        + by rewrite lookup_zip_with, !list_lookup_fmap, Hfn', Hfu'.
      - rewrite !lookup_ge_None_2; [done| |lia].
        rewrite length_zip_with. lia. }
    split_and!; [|lia|lia|done|].
    - apply (setdata_len_col _ _ _ _ Hn). simpl. by rewrite length_replicate.
    - destruct (getcol table "extended") as [c0|] eqn:Hc0.
      + rewrite H12, Hc0 in Hcase by (rewrite Hc0; eauto).
        destruct Hcase as (-> & Hk & Hns). split; [lia|].
        destruct c0; try done. eauto.
      + assert (getcol t2 "extended" = None) as Hnone.
        { by rewrite H2c, H1c. }
        rewrite Hnone in Hcase. destruct Hcase as (-> & _).
        destruct Hl2 as [Hl2 _]. lia. }
  destruct Hlen4 as (Hl4 & Hle & Hlff & Hext & Hcase).
  destruct (setscalar_eq _ _ _ _ H5) as (n5 & Hn5 & Hcase5).
  assert (Hd4 : getcol (setdata t3 "extended" (BoolCol ext)) "extdir"
                = getcol table "extdir").
  { rewrite getcol_setdata_ne by done. rewrite (setscalar_ne _ _ _ _ _ H3) by done.
    by rewrite H2c, H1c. }
  rewrite Hd4 in Hcase5.
  destruct (getcol table "extdir") as [c0|] eqn:Hdir.
  { destruct Hcase5 as (_ & Hk & Hns). destruct c0; try done. by destruct (Hns d). }
  destruct Hcase5 as (-> & Hnz).
  destruct Hl1 as [Hl1 _], Hl2 as [Hl2 _], Hl3 as [Hl3 _].
  rewrite Hl4, Hl3 in Hnz, Hn5.
  assert (Hsp1 : spatial table "Spatial_Filename" = Some filename).
  { unfold spatial. destruct (has_col table "Spatial_Filename") eqn:Hh; simpl in H1.
    - injection H1 as <-. unfold strcol in *. by rewrite <- H2c.
    - unfold strcol in Hfn. rewrite H2c, (setitem_eq _ _ _ _ H1) in Hfn by done.
      exact Hfn. }
  assert (Hsp2 : spatial table "Spatial_Function" = Some function).
  { unfold spatial. destruct (has_col table "Spatial_Function") eqn:Hh.
    - apply has_col_getcol in Hh. unfold strcol in *. by rewrite <- H12.
    - assert (has_col t1 "Spatial_Function" = false) as Hh1.
      { apply has_col_false. rewrite H1c by done. by apply has_col_false. }
      rewrite Hh1 in H2. simpl in H2. unfold strcol in Hfu.
      rewrite (setitem_eq _ _ _ _ H2) in Hfu. simpl in Hfu. by rewrite <- Hl1. }
  split_and!; [done|eauto|done|done| | | |].
  - destruct (setscalar_len _ _ (λ n, StrCol (replicate n extdir)) _
                (λ n, length_replicate n extdir) H5) as [-> _].
    by rewrite Hl4.
  - intros c ?? Hc. rewrite Hfr by done. by apply H12.
  - exists filename, function. unfold strcol, boolcol in *.
    rewrite !Hfr by done. rewrite (setscalar_ne _ _ _ _ _ H5) by done.
    rewrite getcol_setdata_eq.
    2:{ destruct (getcol t3 "extended"); [eauto|done]. }
    simpl. rewrite <- Hext. done.
  - unfold strcol. by rewrite Hn5.
Qed.

(** C5. After [Catalog.__init__], the cell of the column [extended] is true
    on exactly the rows whose [Spatial_Filename] or [Spatial_Function] cell
    is not the empty string.  The cells of the two columns are those of
    the table the constructor was given (the empty string on every row,
    where the table had no such column), and the constructor leaves them in
    the two columns; the three columns have one length, the number of rows
    of the table, so this covers every row. *)
Theorem Catalog_init_extended table extdir self :
  Catalog_init table extdir = Some self →
  ∃ filename function extended,
    spatial table "Spatial_Filename" = Some filename ∧
    spatial table "Spatial_Function" = Some function ∧
    strcol (_table self) "Spatial_Filename" = Some filename ∧
    strcol (_table self) "Spatial_Function" = Some function ∧
    boolcol (_table self) "extended" = Some extended ∧
    length filename = length extended ∧ length function = length extended ∧
    (wf_table table → length extended = len table) ∧
    len (_table self) = len table ∧
    ∀ i, i < length extended →
      ∃ fn fu e, filename !! i = Some fn ∧ function !! i = Some fu ∧
        extended !! i = Some e ∧
        (e = true ↔ fn ≠ "" ∨ fu ≠ "") ∧
        (fn = "" → fu = "" → e = false).
Proof.
  intros H.
  destruct (Catalog_init_columns _ _ _ H)
    as (_ & _ & _ & _ & Hlen & _ & (filename & function & Hs1 & Hs2 & Hf1 & Hf2 &
        Hl & He & Hcase) & _).
  exists filename, function, (zip_with (λ fn fu, bool_decide (fn ≠ "") || bool_decide (fu ≠ ""))
                     filename function).
  rewrite length_zip_with.
  split_and!; [done|done|done|done|done|lia|lia| |done|].
  - intros [Hwf _].
    destruct (getcol table "extended") as [c0|] eqn:Hc0; [|lia].
    destruct Hcase as [Hc _]. apply getcol_elem_of in Hc0.
    pose proof (proj1 (Forall_forall _ _) Hwf _ Hc0) as Hwf0. simpl in Hwf0. lia.
  - intros i Hi.
    destruct (lookup_lt_is_Some_2 filename i) as [fn Hfn]; [lia|].
    destruct (lookup_lt_is_Some_2 function i) as [fu Hfu]; [lia|].
    exists fn, fu, (bool_decide (fn ≠ "") || bool_decide (fu ≠ "")).
    split_and!; [done|done| | |].
    + by rewrite lookup_zip_with, Hfn, Hfu.
    + repeat case_bool_decide; simpl; naive_solver.
    + intros -> ->. reflexivity.
Qed.

End BaseConstructor.
(** ** The dispatcher *)

Section DispatcherFacts.
Variable PACKAGE_DATA : string.
Variable isfile : string → bool.
Variable fits_open : string → option FitsFile.

Lemma create_path name :
  is_path name →
  bool_decide ((splitext name).2 = ".fits") || bool_decide ((splitext name).2 = ".fit") = true.
Proof.
  intros [H|H]; rewrite orb_true_iff, !bool_decide_eq_true; auto.
Qed.

Lemma create_token name :
  ¬ is_path name →
  bool_decide ((splitext name).2 = ".fits") || bool_decide ((splitext name).2 = ".fit") = false.
Proof.
  intros H. apply not_true_iff_false. rewrite orb_true_iff, !bool_decide_eq_true. exact H.
Qed.

(** C7. A path to a file whose name tag is [4FGL] and whose version tag is
    none of [v17] to [v35]: [create] raises the exception of an
    unrecognised file version, and constructs nothing. *)
Theorem create_unrecognized_version name h version :
  is_path name →
  fits_open (resolve PACKAGE_DATA isfile name) = Some h →
  header h !! "CDS-NAME" = Some "4FGL" →
  header h !! "VERSION" = Some version →
  version ∉ known_versions →
  create PACKAGE_DATA isfile fits_open name =
    Raise (Exception "Error - 4FGL catalog fits file version not recognised.").
Proof.
  intros Hp Ho Hn Hv Hk. unfold create, resolve in *.
  rewrite (create_path _ Hp), Ho, Hn, Hv. simpl.
  unfold known_versions in Hk.
  repeat (case_bool_decide as Hin; [exfalso; set_solver|clear Hin]).
  reflexivity.
Qed.

(** C8. A name that is no path to a FITS file and none of the seven
    release identifiers: [create] raises the exception of an unrecognised
    catalog, and constructs nothing. *)
Theorem create_unrecognized_catalog name :
  ¬ is_path name →
  name ∉ known_releases →
  create PACKAGE_DATA isfile fits_open name =
    Raise (Exception ("Unrecognized catalog " +:+ name +:+ ".")).
Proof.
  intros Hp Hk. unfold create. rewrite (create_token _ Hp).
  unfold known_releases in Hk.
  repeat (case_bool_decide as Hin; [exfalso; set_solver|clear Hin]).
  reflexivity.
Qed.

(** C10. A path to a file whose name tag is [4FGL] and whose version tag
    belongs to a schema generation, while the signature column of that
    generation is not in the table: [create] raises nothing and selects
    no class of the 4FGL generations; it constructs [Catalog4FGLP] when
    the table has a column [NickName] and [CatalogFPY] otherwise. *)
Theorem create_signature_absent name h version signature cls :
  is_path name →
  fits_open (resolve PACKAGE_DATA isfile name) = Some h →
  header h !! "CDS-NAME" = Some "4FGL" →
  header h !! "VERSION" = Some version →
  generation version = Some (signature, cls) →
  signature ∉ columns h →
  create PACKAGE_DATA isfile fits_open name =
    Construct (if bool_decide ("NickName" ∈ columns h) then Catalog4FGLP else CatalogFPY)
      (Some (resolve PACKAGE_DATA isfile name)).
Proof.
  intros Hp Ho Hn Hv Hg Hs. unfold create, resolve in *.
  rewrite (create_path _ Hp), Ho, Hn, Hv. simpl.
  unfold generation in Hg.
  repeat (destruct (bool_decide (version ∈ _));
          [injection Hg as <- <-; rewrite (bool_decide_eq_false_2 _ Hs);
           by destruct (bool_decide ("NickName" ∈ _))|]).
  discriminate Hg.
Qed.
End DispatcherFacts.
(** ** Lemmas on the registry dictionary and on masked arrays *)

Lemma enumerate_dict_snoc names k :
  enumerate_dict (names ++ [k]) = <[k:=length names]> (enumerate_dict names).
Proof.
  unfold enumerate_dict. rewrite imap_app, foldl_app. simpl.
  by rewrite Nat.add_0_r.
Qed.

(** The index a name has in the dictionary is a position of the name in the
    list: the last one. *)
Lemma enumerate_dict_lookup names k j :
  enumerate_dict names !! k = Some j →
  names !! j = Some k ∧ ∀ j', names !! j' = Some k → j' ≤ j.
Proof.
  revert j. induction names as [|x names IH] using rev_ind; intros j.
  - unfold enumerate_dict. simpl. by rewrite lookup_empty.
  - rewrite enumerate_dict_snoc. destruct (decide (x = k)) as [->|Hne].
    + rewrite lookup_insert_eq. intros [= <-]. split.
      * by rewrite lookup_app_r, Nat.sub_diag.
      * intros j' Hj'. apply lookup_lt_Some in Hj'.
        rewrite length_app in Hj'. simpl in Hj'. lia.
    + rewrite lookup_insert_ne by done. intros Hj.
      destruct (IH _ Hj) as [Hl Hmax]. split.
      * by apply lookup_app_l_Some.
      * intros j' Hj'. apply Hmax.
        destruct (decide (j' < length names)) as [?|Hge].
        -- by rewrite lookup_app_l in Hj'.
        -- rewrite lookup_app_r in Hj' by lia.
           destruct (j' - length names) as [|n]; simpl in Hj'; [congruence|].
           by rewrite lookup_nil in Hj'.
Qed.

Lemma enumerate_dict_bound names k j :
  enumerate_dict names !! k = Some j → j < length names.
Proof. intros H. apply enumerate_dict_lookup in H as [H _]. by apply lookup_lt_Some in H. Qed.

Lemma enumerate_dict_inj names k k' j :
  enumerate_dict names !! k = Some j → enumerate_dict names !! k' = Some j → k = k'.
Proof.
  intros [H _]%enumerate_dict_lookup [H' _]%enumerate_dict_lookup. congruence.
Qed.

(** In a list without repetition, the index is the position. *)
Lemma enumerate_dict_NoDup names k j :
  NoDup names → names !! j = Some k → enumerate_dict names !! k = Some j.
Proof.
  intros Hnd. revert j. induction names as [|x names IH] using rev_ind; intros j.
  - by rewrite lookup_nil.
  - rewrite enumerate_dict_snoc. apply NoDup_app in Hnd as (Hnd & Hx & _).
    intros Hj. destruct (decide (j < length names)) as [Hlt|Hge].
    + rewrite lookup_app_l in Hj by done. rewrite lookup_insert_ne.
      * by apply IH.
      * intros ->. eapply Hx; [by eapply list_elem_of_lookup_2|]. by left.
    + rewrite lookup_app_r in Hj by lia.
      destruct (j - length names) as [|n] eqn:Hn; simpl in Hj.
      * injection Hj as ->. rewrite lookup_insert_eq. f_equal. lia.
      * by rewrite lookup_nil in Hj.
Qed.

Lemma select_rows_length {A} (m : list bool) (a v : list A) :
  select_rows m a = Some v → length m = length a.
Proof.
  revert a v. induction m as [|b m IH]; intros [|x a] v; simpl; try done.
  destruct (select_rows m a) eqn:Hs; [|done]. intros _. f_equal. eauto.
Qed.

Lemma select_rows_fmap {A B} (f : A → B) (m : list bool) (a v : list A) :
  select_rows m a = Some v → select_rows m (f <$> a) = Some (f <$> v).
Proof.
  revert a v. induction m as [|b m IH]; intros [|x a] v; simpl; try done.
  - by intros [= <-].
  - destruct (select_rows m a) eqn:Hs; [|done]. simpl. intros [= <-].
    change (list_fmap A B f a) with (f <$> a).
    rewrite (IH _ _ Hs). simpl. by destruct b.
Qed.

Lemma select_rows_zip_with {A B C} (f : A → B → C) (m : list bool)
    (a va : list A) (b vb : list B) :
  select_rows m a = Some va → select_rows m b = Some vb →
  select_rows m (zip_with f a b) = Some (zip_with f va vb).
Proof.
  revert a va b vb.
  induction m as [|c m IH]; intros [|x a] va [|y b] vb; simpl; try done.
  - by intros [= <-] [= <-].
  - destruct (select_rows m a) eqn:Hs; [|done].
    destruct (select_rows m b) eqn:Hs'; [|done]. simpl. intros [= <-] [= <-].
    rewrite (IH _ _ _ _ Hs Hs'). simpl. by destruct c.
Qed.

(** The masked assignment of a masked selection is an assignment row by
    row. *)
Lemma mask_set_slot_rows (a : list (list float)) (m : list bool) (j : nat)
    (X v : list float) (a' : list (list float)) :
  select_rows m X = Some v →
  mask_set_slot a m j v = Some a' →
  length a' = length a ∧ length m = length a ∧
  ∀ (i : nat) (row : list float), a !! i = Some row →
    ∃ (b : bool) (x : float), m !! i = Some b ∧ X !! i = Some x ∧ j < length row ∧
      a' !! i = Some (if b then <[j:=x]> row else row).
Proof.
  revert m X v a'.
  induction a as [|row a IH]; intros [|b m] [|x X] v a'; simpl; try done.
  - intros _. destruct v; [|done]. intros [= <-]. split_and!; [done..|].
    intros i row. by rewrite lookup_nil.
  - destruct (select_rows m X) as [v0|] eqn:Hs; [|done]. simpl. intros [= <-].
    case_bool_decide as Hj; [|done]. simpl.
    destruct b.
    + destruct (mask_set_slot a m j v0) as [r|] eqn:Hr; [|done]. simpl.
      intros [= <-]. destruct (IH _ _ _ _ Hs Hr) as (Hl1 & Hl2 & Hi).
      simpl. split_and!; [lia..|].
      intros [|i] row'; simpl.
      * intros [= <-]. by exists true, x.
      * apply Hi.
    + destruct (mask_set_slot a m j v0) as [r|] eqn:Hr; [|done]. simpl.
      intros [= <-]. destruct (IH _ _ _ _ Hs Hr) as (Hl1 & Hl2 & Hi).
      simpl. split_and!; [lia..|].
      intros [|i] row'; simpl.
      * intros [= <-]. by exists false, x.
      * apply Hi.
Qed.

Lemma nan_ones_eq n w : nan_ones n w = replicate n (replicate w nan).
Proof. reflexivity. Qed.
(** ** The frame of an assignment to [param_values] *)

Lemma setdata_id t name c : getcol t name = Some c → setdata t name c = t.
Proof.
  induction t as [|[n c0] t IH]; simpl; [done|].
  case_bool_decide; [by intros [= ->]|]. intros Hg. by rewrite IH.
Qed.

Lemma setdata_setdata t name c c' :
  setdata (setdata t name c) name c' = setdata t name c'.
Proof.
  induction t as [|[n c0] t IH]; simpl; [done|].
  case_bool_decide; simpl.
  - by rewrite bool_decide_eq_true_2.
  - rewrite bool_decide_eq_false_2 by done. by rewrite IH.
Qed.

Lemma veccol_Some t name a : veccol t name = Some a → getcol t name = Some (VecCol a).
Proof. unfold veccol. destruct (getcol t name) as [[]|]; simpl; congruence. Qed.

Lemma veccol_setdata t name a a' :
  veccol t name = Some a → veccol (setdata t name (VecCol a')) name = Some a'.
Proof.
  intros H%veccol_Some. unfold veccol. by rewrite getcol_setdata_eq by eauto.
Qed.

Lemma floatcol_setdata_vec t name a a' c :
  veccol t name = Some a → floatcol (setdata t name (VecCol a')) c = floatcol t c.
Proof.
  intros H%veccol_Some. unfold floatcol. destruct (decide (name = c)) as [<-|Hne].
  - by rewrite getcol_setdata_eq, H by eauto.
  - by rewrite getcol_setdata_ne.
Qed.

Lemma strcol_setdata_vec t name a a' c :
  veccol t name = Some a → strcol (setdata t name (VecCol a')) c = strcol t c.
Proof.
  intros H%veccol_Some. unfold strcol. destruct (decide (name = c)) as [<-|Hne].
  - by rewrite getcol_setdata_eq, H by eauto.
  - by rewrite getcol_setdata_ne.
Qed.

Section StatementFacts.
Variable reg : string → list string.
Variable mul : float → float → float.
Variable div : float → float → float.
Variable exp : float → float.
Variable pow : float → float → float.

Local Abbreviation PV := "param_values".

(** The bulk value of an expression is the selection, by the mask, of its
    values row by row. *)
Lemma eval_rows tab m e v :
  eval mul div exp pow tab m e = Some v →
  ∃ X, select_rows m X = Some v ∧ ∀ i, eval_row mul div exp pow tab i e = X !! i.
Proof.
  revert v. induction e as [name|c e IH|e1 IH1 e2 IH2|e1 IH1 e2 IH2|e1 IH1 e2 IH2|e IH];
    intros v; simpl.
  - unfold col. destruct (floatcol tab name) as [d|]; [simpl|done]. eauto.
  - unfold np_scale. destruct (eval mul div exp pow tab m e) as [w|]; [simpl|done].
    intros [= <-]. destruct (IH _ eq_refl) as (X & HX & Hi).
    exists (PrimFloat.mul c <$> X). split; [by apply select_rows_fmap|].
    intros i. by rewrite Hi, list_lookup_fmap.
  - unfold np_mul. destruct (eval mul div exp pow tab m e1) as [w1|]; [simpl|done].
    destruct (eval mul div exp pow tab m e2) as [w2|]; [simpl|done].
    intros [= <-]. destruct (IH1 _ eq_refl) as (X1 & HX1 & Hi1).
    destruct (IH2 _ eq_refl) as (X2 & HX2 & Hi2).
    exists (zip_with mul X1 X2). split; [by apply select_rows_zip_with|].
    intros i. by rewrite Hi1, Hi2, lookup_zip_with.
  - unfold np_div. destruct (eval mul div exp pow tab m e1) as [w1|]; [simpl|done].
    destruct (eval mul div exp pow tab m e2) as [w2|]; [simpl|done].
    intros [= <-]. destruct (IH1 _ eq_refl) as (X1 & HX1 & Hi1).
    destruct (IH2 _ eq_refl) as (X2 & HX2 & Hi2).
    exists (zip_with div X1 X2). split; [by apply select_rows_zip_with|].
    intros i. by rewrite Hi1, Hi2, lookup_zip_with.
  - unfold np_pow. destruct (eval mul div exp pow tab m e1) as [w1|]; [simpl|done].
    destruct (eval mul div exp pow tab m e2) as [w2|]; [simpl|done].
    intros [= <-]. destruct (IH1 _ eq_refl) as (X1 & HX1 & Hi1).
    destruct (IH2 _ eq_refl) as (X2 & HX2 & Hi2).
    exists (zip_with pow X1 X2). split; [by apply select_rows_zip_with|].
    intros i. by rewrite Hi1, Hi2, lookup_zip_with.
  - unfold np_exp. destruct (eval mul div exp pow tab m e) as [w|]; [simpl|done].
    intros [= <-]. destruct (IH _ eq_refl) as (X & HX & Hi).
    exists (exp <$> X). split; [by apply select_rows_fmap|].
    intros i. by rewrite Hi, list_lookup_fmap.
Qed.

Lemma eval_row_setdata tab a a' i e :
  veccol tab PV = Some a →
  eval_row mul div exp pow (setdata tab PV (VecCol a')) i e = eval_row mul div exp pow tab i e.
Proof.
  intros Ha.
  induction e as [name|c e IH|e1 IH1 e2 IH2|e1 IH1 e2 IH2|e1 IH1 e2 IH2|e IH]; simpl;
    rewrite ?(floatcol_setdata_vec _ _ _ _ _ Ha), ?IH, ?IH1, ?IH2; reflexivity.
Qed.

Lemma row_stmts_setdata tab a a' i idxs row stmts :
  veccol tab PV = Some a →
  foldl (row_stmt mul div exp pow (setdata tab PV (VecCol a')) i idxs) row stmts =
  foldl (row_stmt mul div exp pow tab i idxs) row stmts.
Proof.
  intros Ha. revert row. induction stmts as [|s stmts IH]; intros row; simpl; [done|].
  rewrite IH. unfold row_stmt. by rewrite (eval_row_setdata _ _ _ _ _ Ha).
Qed.

Lemma row_blocks_setdata tab a a' i s row blocks :
  veccol tab PV = Some a →
  foldl (row_block reg mul div exp pow (setdata tab PV (VecCol a')) i s) row blocks =
  foldl (row_block reg mul div exp pow tab i s) row blocks.
Proof.
  intros Ha. revert row. induction blocks as [|b blocks IH]; intros row; simpl; [done|].
  rewrite IH. unfold row_block. by rewrite (row_stmts_setdata _ _ _ _ _ _ _ Ha).
Qed.

Lemma exec_stmts_rows stmts m idxs k tab tab' a :
  exec_stmts mul div exp pow stmts m idxs k tab = Some tab' →
  veccol tab PV = Some a →
  ∃ a1, k (setdata tab PV (VecCol a1)) = Some tab' ∧ length a1 = length a ∧
    (stmts ≠ [] → length m = length a) ∧
    ∀ (i : nat) (row : list float), a !! i = Some row →
      a1 !! i = if default false (m !! i)
                then foldl (row_stmt mul div exp pow tab i idxs) (Some row) stmts
                else Some row.
Proof.
  revert tab a. induction stmts as [|s stmts IH]; intros tab a; simpl.
  - intros Hk Ha. exists a. rewrite (setdata_id _ _ _ (veccol_Some _ _ _ Ha)).
    split_and!; [done..|]. intros i row ->. by destruct (default _ _).
  - intros Hs Ha. unfold set_param_values in Hs.
    destruct (eval mul div exp pow tab m s.2) as [v|] eqn:Hv; [simpl in Hs|done].
    destruct (slot_index idxs s.1) as [j|] eqn:Hj; [simpl in Hs|done].
    rewrite Ha in Hs. simpl in Hs.
    destruct (mask_set_slot a m j v) as [a2|] eqn:Ha2; [simpl in Hs|done].
    destruct (eval_rows _ _ _ _ Hv) as (X & HX & HXi).
    destruct (mask_set_slot_rows _ _ _ _ _ _ HX Ha2) as (Hl1 & Hl2 & Hrows).
    destruct (IH _ _ Hs (veccol_setdata _ _ _ _ Ha)) as (a1 & Hk & Hl3 & _ & Hi).
    exists a1. rewrite setdata_setdata in Hk.
    split_and!; [done|lia|done|].
    intros i row Hrow. destruct (Hrows _ _ Hrow) as (b & x & Hb & Hx & Hjr & Hr2).
    rewrite (Hi _ _ Hr2), Hb. simpl. destruct b; [|done].
    rewrite (row_stmts_setdata _ _ _ _ _ _ _ Ha).
    rewrite HXi, Hx. simpl. by rewrite bool_decide_eq_true_2.
Qed.

Lemma exec_blocks_rows blocks tab tab' a st :
  exec_blocks reg mul div exp pow blocks tab = Some tab' →
  veccol tab PV = Some a →
  strcol tab "SpectrumType" = Some st →
  ∃ a', tab' = setdata tab PV (VecCol a') ∧ length a' = length a ∧
    (Exists (λ b : block, b.2 ≠ []) blocks → length st = length a) ∧
    ∀ (i : nat) (row : list float) (s : string),
      a !! i = Some row → st !! i = Some s →
      a' !! i = foldl (row_block reg mul div exp pow tab i s) (Some row) blocks.
Proof.
  revert tab a. induction blocks as [|b blocks IH]; intros tab a; simpl.
  - intros [= <-] Ha Hst. exists a.
    rewrite (setdata_id _ _ _ (veccol_Some _ _ _ Ha)).
    split_and!; [done..| |done]. intros H. inversion H.
  - intros Hb Ha Hst. unfold spectrum_mask in Hb. rewrite Hst in Hb. simpl in Hb.
    destruct (exec_stmts_rows _ _ _ _ _ _ _ Hb Ha) as (a1 & Hk & Hl1 & Hlm & Hi).
    assert (Ha1 := veccol_setdata _ _ _ a1 Ha).
    assert (Hst1 : strcol (setdata tab PV (VecCol a1)) "SpectrumType" = Some st)
      by (by rewrite (strcol_setdata_vec _ _ _ _ _ Ha)).
    destruct (IH _ _ Hk Ha1 Hst1) as (a' & -> & Hl2 & Hls & Hi').
    exists a'. rewrite setdata_setdata. split_and!; [done|lia| |].
    + intros [Hne|Hex]%Exists_cons.
      * rewrite <- (Hlm Hne). unfold np_eq. by rewrite length_fmap.
      * rewrite (Hls Hex). done.
    + intros i row s Hrow Hs.
      assert (Hm : np_eq st b.1 !! i = Some (bool_decide (s = b.1))).
      { unfold np_eq. by rewrite list_lookup_fmap, Hs. }
      specialize (Hi _ _ Hrow). rewrite Hm in Hi. simpl in Hi.
      destruct (lookup_lt_is_Some_2 a1 i) as [row1 Hrow1].
      { rewrite Hl1. by eapply lookup_lt_Some. }
      rewrite (Hi' _ _ _ Hrow1 Hs), (row_blocks_setdata _ _ _ _ _ _ _ Ha).
      f_equal. rewrite <- Hrow1, Hi. reflexivity.
Qed.

(** What a run of the statements leaves: every column but [param_values]
    as it was, and in [param_values] the vector the statements give row
    by row. *)
Lemma exec_fill_rows blocks tab tab' :
  exec_fill reg mul div exp pow blocks tab = Some tab' →
  Exists (λ b : block, b.2 ≠ []) blocks →
  (∀ c, c ≠ PV → getcol tab' c = getcol tab c) ∧
  ∃ st pv, strcol tab' "SpectrumType" = Some st ∧ veccol tab' PV = Some pv ∧
    length pv = length st ∧
    ∀ (i : nat) (s : string), st !! i = Some s →
      ∃ row, pv !! i = Some row ∧ row_fill reg mul div exp pow tab' i s blocks = Some row.
Proof.
  unfold exec_fill. intros H Hex.
  destruct (setitem tab PV _) as [tab0|] eqn:H0; [simpl in H|done].
  assert (Ha : veccol tab0 PV = Some (nan_ones (len tab) 10)).
  { unfold veccol. by rewrite (setitem_eq _ _ _ _ H0). }
  destruct (strcol tab0 "SpectrumType") as [st|] eqn:Hst.
  2:{ destruct Hex as [b blocks _|b blocks _]; simpl in H;
        unfold spectrum_mask in H; by rewrite Hst in H. }
  destruct (exec_blocks_rows _ _ _ _ _ H Ha Hst) as (a' & -> & Hl & Hls & Hi).
  split.
  { intros c Hc. rewrite getcol_setdata_ne by done. by apply (setitem_ne _ _ _ _ _ H0). }
  exists st, a'. rewrite (strcol_setdata_vec _ _ _ _ _ Ha), (veccol_setdata _ _ _ _ Ha).
  split_and!; [done..|rewrite Hl; symmetry; by apply Hls|].
  intros i s Hs.
  destruct (lookup_lt_is_Some_2 a' i) as [row Hrow].
  { rewrite Hl, <- (Hls Hex). by eapply lookup_lt_Some. }
  exists row. split; [done|]. unfold row_fill.
  rewrite (row_blocks_setdata _ _ _ _ _ _ _ Ha), <- Hrow.
  symmetry. apply Hi; [|done]. rewrite nan_ones_eq. apply lookup_replicate_2.
  rewrite nan_ones_eq, length_replicate in Hl. rewrite <- Hl. by eapply lookup_lt_Some.
Qed.
End StatementFacts.
(** ** The vector of one row *)

Section RowFacts.
Variable reg : string → list string.
Variable mul : float → float → float.
Variable div : float → float → float.
Variable exp : float → float.
Variable pow : float → float → float.

Lemma row_stmts_None tab i idxs stmts :
  foldl (row_stmt mul div exp pow tab i idxs) None stmts = None.
Proof. induction stmts as [|s stmts IH]; simpl; [done|]. exact IH. Qed.

Lemma row_stmts_cons tab i idxs r0 s stmts row :
  foldl (row_stmt mul div exp pow tab i idxs) (Some r0) (s :: stmts) = Some row →
  ∃ j x, slot_index idxs s.1 = Some j ∧ eval_row mul div exp pow tab i s.2 = Some x ∧
    j < length r0 ∧
    foldl (row_stmt mul div exp pow tab i idxs) (Some (<[j:=x]> r0)) stmts = Some row.
Proof.
  simpl. unfold row_stmt at 2. simpl.
  destruct (slot_index idxs s.1) as [j|]; simpl;
    [|by rewrite row_stmts_None].
  destruct (eval_row mul div exp pow tab i s.2) as [x|]; simpl;
    [|by rewrite row_stmts_None].
  case_bool_decide; [|by rewrite row_stmts_None]. eauto 10.
Qed.

(** The statements keep the length of the vector and leave alone the
    slots they do not name. *)
Lemma row_stmts_frame tab i idxs stmts r0 row :
  foldl (row_stmt mul div exp pow tab i idxs) (Some r0) stmts = Some row →
  length row = length r0 ∧
  ∀ k, Forall (λ s : stmt, slot_index idxs s.1 ≠ Some k) stmts → row !! k = r0 !! k.
Proof.
  revert r0. induction stmts as [|s stmts IH]; intros r0.
  - simpl. intros [= <-]. done.
  - intros (j & x & Hj & Hx & Hlt & Hrest)%row_stmts_cons.
    destruct (IH _ Hrest) as [Hl Hk]. rewrite length_insert in Hl. split; [done|].
    intros k [Hs Hf]%Forall_cons. rewrite (Hk _ Hf).
    apply list_lookup_insert_ne. congruence.
Qed.

(** A slot holds the value of the last statement that names it. *)
Lemma row_stmts_slot tab i idxs pre s post r0 row j :
  foldl (row_stmt mul div exp pow tab i idxs) (Some r0) (pre ++ s :: post) = Some row →
  slot_index idxs s.1 = Some j →
  Forall (λ s' : stmt, slot_index idxs s'.1 ≠ Some j) post →
  ∃ x, eval_row mul div exp pow tab i s.2 = Some x ∧ row !! j = Some x.
Proof.
  revert r0. induction pre as [|s0 pre IH]; intros r0; simpl app.
  - intros (j' & x & Hj' & Hx & Hlt & Hrest)%row_stmts_cons Hj Hpost.
    assert (j' = j) as -> by congruence.
    exists x. split; [done|].
    destruct (row_stmts_frame _ _ _ _ _ _ Hrest) as [_ Hk].
    rewrite (Hk _ Hpost). by apply list_lookup_insert_eq.
  - intros (j' & x & Hj' & Hx & Hlt & Hrest)%row_stmts_cons Hj Hpost. eauto.
Qed.

(** A block whose slots are distinct names of the registry writes the
    value of each statement at a position its name has in the list of the
    registry, and nothing at or beyond the length of that list. *)
Lemma row_stmts_named tab i names stmts r0 row :
  foldl (row_stmt mul div exp pow tab i (enumerate_dict names)) (Some r0) stmts = Some row →
  NoDup stmts.*1 →
  Forall (λ s : stmt, ∃ p, s.1 = ByName p) stmts →
  length row = length r0 ∧
  (∀ p e, (ByName p, e) ∈ stmts →
     ∃ j x, enumerate_dict names !! p = Some j ∧ names !! j = Some p ∧
            eval_row mul div exp pow tab i e = Some x ∧ row !! j = Some x) ∧
  (∀ k, length names ≤ k → row !! k = r0 !! k).
Proof.
  intros Hrow Hnd Hnamed.
  destruct (row_stmts_frame _ _ _ _ _ _ Hrow) as [Hl Hfr]. split_and!; [done| |].
  - intros p e (pre & post & ->)%list_elem_of_split.
    rewrite fmap_app, fmap_cons in Hnd.
    apply NoDup_app in Hnd as (_ & _ & Hnd). apply NoDup_cons in Hnd as [Hnotin _].
    apply Forall_app in Hnamed as [_ Hnamed]. apply Forall_cons in Hnamed as [_ Hnamed].
    destruct (enumerate_dict names !! p) as [j|] eqn:Hj.
    2:{ clear -Hrow Hj. exfalso. revert r0 Hrow.
        induction pre as [|s0 pre IH]; intros r0; simpl app.
        - intros (j' & ? & Hj' & _)%row_stmts_cons. simpl in Hj'. congruence.
        - intros (? & ? & _ & _ & _ & Hrest)%row_stmts_cons. eauto. }
    destruct (row_stmts_slot _ _ _ _ _ _ _ _ _ Hrow Hj) as (x & Hx & Hr).
    + apply Forall_forall. intros s' Hs' Hj'.
      destruct (proj1 (Forall_forall _ _) Hnamed _ Hs') as [p' Hp'].
      rewrite Hp' in Hj'. simpl in Hj'.
      assert (p' = p) as -> by (by eapply enumerate_dict_inj).
      apply Hnotin. simpl. rewrite <- Hp'. by apply list_elem_of_fmap_2.
    + exists j, x. split_and!; [done| |done..].
      by apply enumerate_dict_lookup in Hj as [? _].
  - intros k Hk. apply Hfr. apply Forall_forall. intros s Hs Hj.
    destruct (proj1 (Forall_forall _ _) Hnamed _ Hs) as [p Hp].
    rewrite Hp in Hj. simpl in Hj. apply enumerate_dict_bound in Hj. lia.
Qed.

(** A row meets the one block of its spectrum type, if any. *)
Lemma row_blocks_skip tab i s r blocks :
  s ∉ blocks.*1 → foldl (row_block reg mul div exp pow tab i s) r blocks = r.
Proof.
  revert r. induction blocks as [|b blocks IH]; intros r; [done|].
  rewrite fmap_cons, not_elem_of_cons. intros [Hne Hnotin]. simpl.
  rewrite (IH _ Hnotin). unfold row_block. by rewrite bool_decide_eq_false_2.
Qed.

Lemma row_fill_unhandled tab i s blocks :
  s ∉ blocks.*1 → row_fill reg mul div exp pow tab i s blocks = Some (replicate 10 nan).
Proof. apply row_blocks_skip. Qed.

Lemma row_fill_block tab i fam stmts blocks :
  NoDup blocks.*1 → (fam, stmts) ∈ blocks →
  row_fill reg mul div exp pow tab i fam blocks =
  foldl (row_stmt mul div exp pow tab i (enumerate_dict (reg fam)))
    (Some (replicate 10 nan)) stmts.
Proof.
  intros Hnd (pre & post & ->)%list_elem_of_split. unfold row_fill.
  rewrite fmap_app, fmap_cons in Hnd.
  apply NoDup_app in Hnd as (_ & Hpre & Hnd). apply NoDup_cons in Hnd as [Hpost _].
  rewrite foldl_app. simpl.
  rewrite (row_blocks_skip _ _ _ _ post) by done.
  rewrite (row_blocks_skip _ _ _ _ pre).
  2:{ intros Hin. eapply Hpre; [done|]. simpl. by left. }
  unfold row_block. simpl. by rewrite bool_decide_eq_true_2.
Qed.
End RowFacts.
(** ** The methods [_fill_params] *)

Section FillFacts.
Variable reg : string → list string.
Variable mul : float → float → float.
Variable div : float → float → float.
Variable exp : float → float.
Variable pow : float → float → float.

Local Abbreviation PV := "param_values".

Lemma blocks_of_nonempty cls :
  has_fill_params cls = true → Exists (λ b : block, b.2 ≠ []) (blocks_of cls).
Proof. destruct cls; intros Hc; try discriminate Hc; by left. Qed.

Lemma families_NoDup cls : NoDup (blocks_of cls).*1.
Proof. destruct cls; apply (bool_decide_unpack _); by vm_compute. Qed.

Lemma blocks_of_named cls :
  registry_driven cls = true →
  Forall (λ b : block, NoDup b.2.*1 ∧ Forall (λ s : stmt, ∃ p, s.1 = ByName p) b.2)
    (blocks_of cls).
Proof.
  intros Hc.
  assert (Forall (λ b : block, NoDup b.2.*1 ∧
            Forall (λ s : stmt, slot_named s.1 = true) b.2)
            (blocks_of cls)) as Hall.
  { destruct cls; try discriminate Hc; apply (bool_decide_unpack _); by vm_compute. }
  eapply Forall_impl; [exact Hall|]. intros b [Hnd Hn]. split; [done|].
  eapply Forall_impl; [exact Hn|]. intros [[p|j] e]; simpl; [eauto|done].
Qed.

(** After [_fill_params]: the other columns are as before; the vector of
    a row is ten slots; it is all [nan] on a row whose spectrum type the
    method does not handle, and on other rows it is what the statements
    of the block of its type give. *)
Lemma fill_params_rows cls tab tab' :
  fill_params reg mul div exp pow cls tab = Some tab' →
  (∀ c, c ≠ PV → getcol tab' c = getcol tab c) ∧
  ∃ st pv, strcol tab' "SpectrumType" = Some st ∧ veccol tab' PV = Some pv ∧
    length pv = length st ∧
    ∀ (i : nat) (s : string), st !! i = Some s →
      ∃ row, pv !! i = Some row ∧ length row = 10 ∧
        (s ∉ families cls → row = replicate 10 nan) ∧
        (∀ stmts, (s, stmts) ∈ blocks_of cls →
           foldl (row_stmt mul div exp pow tab' i (enumerate_dict (reg s)))
             (Some (replicate 10 nan)) stmts = Some row).
Proof.
  intros H. assert (Hc : has_fill_params cls = true) by (by destruct cls).
  rewrite fill_params_exec in H by done.
  destruct (exec_fill_rows _ _ _ _ _ _ _ _ H (blocks_of_nonempty _ Hc))
    as (Hfr & st & pv & Hst & Hpv & Hl & Hrows).
  split; [done|]. exists st, pv. split_and!; [done..|].
  intros i s Hs. destruct (Hrows _ _ Hs) as (row & Hrow & Hfill).
  exists row.
  assert (Hstmts : ∀ stmts, (s, stmts) ∈ blocks_of cls →
    foldl (row_stmt mul div exp pow tab' i (enumerate_dict (reg s)))
      (Some (replicate 10 nan)) stmts = Some row).
  { intros stmts Hin. rewrite <- Hfill. symmetry.
    by apply row_fill_block; [apply families_NoDup|]. }
  assert (Hun : s ∉ families cls → row = replicate 10 nan).
  { intros Hnotin. rewrite row_fill_unhandled in Hfill by done. congruence. }
  split_and!; [done| |done..].
  destruct (decide (s ∈ families cls)) as [Hin|Hnotin].
  - apply list_elem_of_fmap in Hin as ([fam stmts] & -> & Hin).
    destruct (row_stmts_frame _ _ _ _ _ _ _ _ _ _ (Hstmts _ Hin)) as [-> _].
    by rewrite length_replicate.
  - by rewrite (Hun Hnotin), length_replicate.
Qed.

(** The classes that look the slots up: on a row of a handled spectrum
    type, the value of every statement of the block of that type stands in
    the slot whose index is the position of the statement's parameter
    name in the list of the registry. *)
Lemma registry_driven_slots cls tab tab' :
  registry_driven cls = true →
  fill_params reg mul div exp pow cls tab = Some tab' →
  ∃ st pv, strcol tab' "SpectrumType" = Some st ∧ veccol tab' PV = Some pv ∧
    ∀ (i : nat) (fam : string) stmts p e,
      st !! i = Some fam → (fam, stmts) ∈ blocks_of cls → (ByName p, e) ∈ stmts →
      ∃ row j x, pv !! i = Some row ∧
        enumerate_dict (reg fam) !! p = Some j ∧ reg fam !! j = Some p ∧
        eval_row mul div exp pow tab' i e = Some x ∧ row !! j = Some x.
Proof.
  intros Hc H. destruct (fill_params_rows _ _ _ H) as (_ & st & pv & Hst & Hpv & _ & Hrows).
  exists st, pv. split_and!; [done..|].
  intros i fam stmts p e Hs Hin Hp.
  destruct (Hrows _ _ Hs) as (row & Hrow & _ & _ & Hstmts).
  destruct (proj1 (Forall_forall _ _) (blocks_of_named _ Hc) _ Hin) as [Hnd Hnamed].
  destruct (row_stmts_named _ _ _ _ _ _ _ _ _ _ (Hstmts _ Hin) Hnd Hnamed) as (_ & Hslots & _).
  destruct (Hslots _ _ Hp) as (j & x & ? & ? & ? & ?). eauto 10.
Qed.

(** The cells [_fill_params] reads are those of the table it was given. *)
Lemma fill_params_input cls tab tab' :
  fill_params reg mul div exp pow cls tab = Some tab' →
  strcol tab' "SpectrumType" = strcol tab "SpectrumType" ∧
  ∀ c i, c ≠ PV → cell tab' c i = cell tab c i.
Proof.
  intros H. destruct (fill_params_rows _ _ _ H) as (Hfr & _).
  split; [unfold strcol; by rewrite Hfr|].
  intros c i Hc. unfold cell, floatcol. by rewrite Hfr.
Qed.

Lemma index_column_ne cls : index_column cls ≠ PV.
Proof. by destruct cls. Qed.

Lemma plec_flux_column_ne cls : plec_flux_column cls ≠ PV.
Proof. by destruct cls. Qed.

(** C4. After the [_fill_params] of any class, for the rows of the table
    it was given: on a row whose spectrum type the method does not handle,
    all ten slots are [nan]; on a row whose spectrum type is [PowerLaw],
    in the six classes that look the slots up, the slot of [Index] holds
    [-1] times the cell of the index column and every slot from the
    length of the registry's list for [PowerLaw] on is [nan].
    [Catalog2FHL] does not look the slot up: its vector is the flux
    density, [-1] times the index and the pivot energy in the literal
    slots 0, 1 and 2 and [nan] in the seven others, whatever the registry
    lists. *)
Theorem fill_params_PowerLaw cls tab tab' :
  fill_params reg mul div exp pow cls tab = Some tab' →
  ∃ st pv, strcol tab "SpectrumType" = Some st ∧ veccol tab' PV = Some pv ∧
    length pv = length st ∧
    ∀ (i : nat) (s : string), st !! i = Some s →
      ∃ row, pv !! i = Some row ∧ length row = 10 ∧
        (s = "PowerLaw" →
           ∃ x, cell tab (index_column cls) i = Some x ∧
             (registry_driven cls = true →
                ∃ j, enumerate_dict (reg "PowerLaw") !! "Index" = Some j ∧
                  row !! j = Some (-1 * x)%float ∧
                  ∀ k, length (reg "PowerLaw") ≤ k → k < 10 → row !! k = Some nan) ∧
             (cls = Catalog2FHL →
                ∃ flux pivot,
                  cell tab "Flux_Density" i = Some flux ∧
                  cell tab "Pivot_Energy" i = Some pivot ∧
                  row = [flux; (-1 * x)%float; pivot;
                         nan; nan; nan; nan; nan; nan; nan])) ∧
        (s ∉ families cls → row = replicate 10 nan).
Proof.
  intros H.
  destruct (fill_params_rows _ _ _ H) as (_ & st & pv & Hst & Hpv & Hl & Hrows).
  destruct (fill_params_input _ _ _ H) as [Hst' Hcell].
  exists st, pv. split_and!; [congruence|done..|].
  intros i s Hs. destruct (Hrows _ _ Hs) as (row & Hrow & Hlen & Hun & Hstmts).
  exists row. split_and!; [done..| |done]. intros ->.
  destruct (registry_driven cls) eqn:Hc.
  - assert (∃ flux, PowerLaw_block flux (index_column cls) ∈ blocks_of cls)
      as [flux Hin] by (destruct cls; try discriminate Hc; eexists; by left).
    destruct (proj1 (Forall_forall _ _) (blocks_of_named _ Hc) _ Hin) as [Hnd Hnamed].
    destruct (row_stmts_named _ _ _ _ _ _ _ _ _ _ (Hstmts _ Hin) Hnd Hnamed)
      as (_ & Hslots & Hrest).
    destruct (Hslots "Index" (Scale (-1) (Col (index_column cls))))
      as (j & x' & Hj & _ & Hx' & Hr); [set_solver|].
    simpl in Hx'. fold (cell tab' (index_column cls) i) in Hx'.
    rewrite (Hcell _ _ (index_column_ne cls)) in Hx'.
    destruct (cell tab (index_column cls) i) as [x|]; [|done].
    injection Hx' as <-. exists x. split_and!; [done| |by intros ->].
    intros _. exists j. split_and!; [done..|].
    intros k Hk Hk10. rewrite (Hrest _ Hk). by apply lookup_replicate_2.
  - assert (cls = Catalog2FHL) as -> by (by destruct cls).
    specialize (Hstmts _ ltac:(by left)).
    apply row_stmts_cons in Hstmts as (j0 & x0 & [= <-] & Hx0 & _ & Hstmts).
    apply row_stmts_cons in Hstmts as (j1 & x1 & [= <-] & Hx1 & _ & Hstmts).
    apply row_stmts_cons in Hstmts as (j2 & x2 & [= <-] & Hx2 & _ & Hstmts).
    simpl in Hstmts, Hx0, Hx1, Hx2. injection Hstmts as <-.
    fold (cell tab' "Flux_Density" i) in Hx0.
    fold (cell tab' "Spectral_Index" i) in Hx1.
    fold (cell tab' "Pivot_Energy" i) in Hx2.
    rewrite Hcell in Hx0, Hx1, Hx2 by done. simpl.
    destruct (cell tab "Spectral_Index" i) as [x|]; [|done].
    injection Hx1 as <-. exists x. split_and!; [done..|].
    intros _. by exists x0, x2.
Qed.

(** C3. The [_fill_params] of [Catalog4FGL], [CatalogFL8Y] and
    [Catalog4FGLDR2], for the rows of the table it was given: on a row
    whose spectrum type is [PLSuperExpCutoff2] the slots of [Prefactor],
    [Index1], [Scale], [Expfactor] and [Index2] hold the flux density
    times [exp(expfactor * pivot ** exp_index)], [-1] times the index, the
    pivot energy, the exponential factor and the exponential index, the
    two products, the power and the exponential being numpy's in the
    dtype of the columns; with the cells of the scenario the slots hold
    the values it names.  The other classes have no statement for
    [PLSuperExpCutoff2] ([Catalog4FGLDR3] and [Catalog4FGLDR4] handle
    [PLSuperExpCutoff4]): there all ten slots of such a row are [nan]. *)
Theorem fill_params_PLSuperExpCutoff2 cls tab tab' :
  fill_params reg mul div exp pow cls tab = Some tab' →
  ∃ st pv, strcol tab "SpectrumType" = Some st ∧ veccol tab' PV = Some pv ∧
    length pv = length st ∧
    ∀ i : nat, st !! i = Some "PLSuperExpCutoff2" →
      ∃ row, pv !! i = Some row ∧
        (cls ∈ [Catalog4FGL; CatalogFL8Y; Catalog4FGLDR2] →
           ∃ flux expfactor pivot exp_index index jP jI1 jS jE jI2,
             cell tab (plec_flux_column cls) i = Some flux ∧
             cell tab "PLEC_Expfactor" i = Some expfactor ∧
             cell tab "Pivot_Energy" i = Some pivot ∧
             cell tab "PLEC_Exp_Index" i = Some exp_index ∧
             cell tab "PLEC_Index" i = Some index ∧
             enumerate_dict (reg "PLSuperExpCutoff2") !! "Prefactor" = Some jP ∧
             enumerate_dict (reg "PLSuperExpCutoff2") !! "Index1" = Some jI1 ∧
             enumerate_dict (reg "PLSuperExpCutoff2") !! "Scale" = Some jS ∧
             enumerate_dict (reg "PLSuperExpCutoff2") !! "Expfactor" = Some jE ∧
             enumerate_dict (reg "PLSuperExpCutoff2") !! "Index2" = Some jI2 ∧
             row !! jP = Some (mul flux (exp (mul expfactor (pow pivot exp_index)))) ∧
             row !! jI1 = Some (-1 * index)%float ∧
             row !! jS = Some pivot ∧
             row !! jE = Some expfactor ∧
             row !! jI2 = Some exp_index ∧
             (flux = 1.0e-12%float → expfactor = 0.01%float → pivot = 1000%float →
              exp_index = 1.5%float → index = 2.0%float →
              row !! jP = Some (mul 1.0e-12 (exp (mul 0.01 (pow 1000 1.5)))) ∧
              row !! jI1 = Some (-2.0)%float ∧ row !! jS = Some 1000%float ∧
              row !! jE = Some 0.01%float ∧ row !! jI2 = Some 1.5%float)) ∧
        (cls ∉ [Catalog4FGL; CatalogFL8Y; Catalog4FGLDR2] → row = replicate 10 nan).
Proof.
  intros H.
  destruct (fill_params_rows _ _ _ H) as (_ & st & pv & Hst & Hpv & Hl & Hrows).
  destruct (fill_params_input _ _ _ H) as [Hst' Hcell].
  exists st, pv. split_and!; [congruence|done..|].
  intros i Hs. destruct (Hrows _ _ Hs) as (row & Hrow & _ & Hun & Hstmts).
  exists row. split_and!; [done| |].
  2:{ intros Hcls. apply Hun. intros Hfam. apply Hcls.
      destruct cls; try (by apply elem_of_list_to_set_1 || set_solver);
        exfalso; revert Hfam; by apply (bool_decide_unpack _). }
  intros Hcls.
  assert (Hc : registry_driven cls = true).
  { rewrite !elem_of_cons, elem_of_nil in Hcls. by destruct Hcls as [->|[->|[->|[]]]]. }
  assert (Hin : PLSuperExpCutoff2_block (plec_flux_column cls) ∈ blocks_of cls).
  { rewrite !elem_of_cons, elem_of_nil in Hcls.
    destruct Hcls as [->|[->|[->|[]]]]; right; by left. }
  destruct (proj1 (Forall_forall _ _) (blocks_of_named _ Hc) _ Hin) as [Hnd Hnamed].
  destruct (row_stmts_named _ _ _ _ _ _ _ _ _ _ (Hstmts _ Hin) Hnd Hnamed)
    as (_ & Hslots & _).
  destruct (Hslots "Prefactor" _ ltac:(by left)) as (jP & xP & HjP & _ & HxP & HrP).
  destruct (Hslots "Index1" _ ltac:(right; by left)) as (jI1 & xI1 & HjI1 & _ & HxI1 & HrI1).
  destruct (Hslots "Scale" _ ltac:(do 2 right; by left)) as (jS & xS & HjS & _ & HxS & HrS).
  destruct (Hslots "Expfactor" _ ltac:(do 3 right; by left)) as (jE & xE & HjE & _ & HxE & HrE).
  destruct (Hslots "Index2" _ ltac:(do 4 right; by left)) as (jI2 & xI2 & HjI2 & _ & HxI2 & HrI2).
  simpl in HxP, HxI1, HxS, HxE, HxI2.
  fold (cell tab' (plec_flux_column cls) i) in HxP.
  fold (cell tab' "PLEC_Expfactor" i) in HxP, HxE.
  fold (cell tab' "Pivot_Energy" i) in HxP, HxS.
  fold (cell tab' "PLEC_Exp_Index" i) in HxP, HxI2.
  fold (cell tab' "PLEC_Index" i) in HxI1.
  rewrite HxS, HxE, HxI2 in HxP.
  destruct (cell tab' (plec_flux_column cls) i) as [flux|] eqn:Hflux; [|done].
  destruct (cell tab' "PLEC_Index" i) as [index|] eqn:Hindex; [|done].
  simpl in HxP, HxI1. injection HxP as <-. injection HxI1 as <-.
  rewrite (Hcell _ _ (plec_flux_column_ne cls)) in Hflux.
  rewrite Hcell in Hindex, HxS, HxE, HxI2 by done.
  exists flux, xE, xS, xI2, index, jP, jI1, jS, jE, jI2.
  split_and!; try done.
  intros -> -> -> -> ->. split_and!; done.
Qed.
End FillFacts.

(** C1. [Catalog2FHL._fill_params] writes to the literal slots 0, 1 and 2
    whatever the registry says.  With a registry that lists [Index] first
    and [Prefactor] second, the flux density still goes to slot 0 and the
    index to slot 1, while [Catalog3FGL._fill_params], on the same table,
    puts the index in slot 0 and the flux density in slot 1, as the
    registry has it.  (The six classes other than [Catalog2FHL] take every
    slot from the registry: [registry_driven_slots].) *)
Theorem Catalog2FHL_fill_params_literal_slots mul div exp pow :
  enumerate_dict (reordered_registry "PowerLaw") !! "Prefactor" = Some 1 ∧
  enumerate_dict (reordered_registry "PowerLaw") !! "Index" = Some 0 ∧
  cell sample_2FHL "Flux_Density" 0 = Some 3%float ∧
  cell sample_2FHL "Spectral_Index" 0 = Some 2%float ∧
  (∀ reg, (tab' ← fill_params reg mul div exp pow Catalog2FHL sample_2FHL;
           veccol tab' "param_values") =
     Some [[3; -2; 50000; nan; nan; nan; nan; nan; nan; nan]%float]) ∧
  (tab' ← fill_params reordered_registry mul div exp pow Catalog3FGL sample_2FHL;
   veccol tab' "param_values") =
    Some [[-2; 3; 50000; nan; nan; nan; nan; nan; nan; nan]%float].
Proof.
  split_and!; by vm_compute.
Qed.
(** ** Sorting and joining *)

Section Joining.
Context {lib : Library}.

Lemma argsort_NoDup keys : NoDup (argsort keys).
Proof. rewrite argsort_Permutation. apply NoDup_seq. Qed.

Lemma argsort_lt keys i : i ∈ argsort keys → i < length keys.
Proof. rewrite argsort_Permutation, elem_of_seq. lia. Qed.

(** The keys taken in the order of [argsort] are sorted. *)
Lemma argsort_take keys :
  ∃ ks, take keys (argsort keys) = Some ks ∧ Sorted keyval_le ks.
Proof. apply argsort_sorted. Qed.

Lemma take_omap {A} (l : list A) idx l' : take l idx = Some l' → l' = omap (l !!.) idx.
Proof.
  unfold take. rewrite mapM_Some. induction 1 as [|i x idx l' Hi _ IH]; [done|].
  simpl. by rewrite Hi, IH.
Qed.

Lemma take_seq_app {A} (k l : list A) :
  omap ((k ++ l) !!.) (seq (length k) (length l)) = l.
Proof.
  revert k. induction l as [|x l IH]; intros k; [done|]. simpl.
  rewrite list_lookup_middle by done. f_equal.
  specialize (IH (k ++ [x])). rewrite <- app_assoc, length_app in IH. simpl in IH.
  by rewrite Nat.add_1_r in IH.
Qed.

Lemma take_seq {A} (l : list A) : omap (l !!.) (seq 0 (length l)) = l.
Proof. apply (take_seq_app [] l). Qed.

(** The rows taken in an order that is a permutation of the row numbers
    are the rows, permuted. *)
Lemma take_Permutation {A} (l : list A) idx l' :
  idx ≡ₚ seq 0 (length l) → take l idx = Some l' → l' ≡ₚ l.
Proof.
  intros Hp ->%take_omap. rewrite Hp. by rewrite take_seq.
Qed.

Lemma take_lookup {A} (l : list A) idx l' :
  take l idx = Some l' ↔
  length l' = length idx ∧ ∀ p i, idx !! p = Some i → l' !! p = l !! i ∧ i < length l.
Proof.
  unfold take. rewrite mapM_Some, Forall2_same_length_lookup. split.
  - intros [Hlen H]. split; [done|]. intros p i Hi.
    destruct (lookup_lt_is_Some_2 l' p) as [x Hx].
    { apply lookup_lt_Some in Hi. lia. }
    pose proof (H _ _ _ Hi Hx) as Hl. split; [congruence|by apply lookup_lt_Some in Hl].
  - intros [Hlen H]. split; [done|]. intros p i x Hi Hx.
    destruct (H _ _ Hi) as [<- _]. done.
Qed.

Lemma take_is_Some {A} (l : list A) idx :
  Forall (λ i, i < length l) idx → is_Some (take l idx).
Proof.
  intros H. unfold take. apply mapM_is_Some. eapply Forall_impl; [exact H|].
  intros i Hi. by apply lookup_lt_is_Some_2.
Qed.

(** Rows taken twice are rows taken once. *)
Lemma take_take {A} (l : list A) idx l1 perm l2 idx' :
  take l idx = Some l1 → take l1 perm = Some l2 → take idx perm = Some idx' →
  take l idx' = Some l2.
Proof.
  rewrite !take_lookup. intros [Hl1 H1] [Hl2 H2] [Hl3 H3]. split; [lia|].
  intros p j Hj.
  destruct (lookup_lt_is_Some_2 perm p) as [i Hi].
  { apply lookup_lt_Some in Hj. lia. }
  destruct (H2 _ _ Hi) as [-> _]. destruct (H3 _ _ Hi) as [Hji _].
  rewrite Hj in Hji. symmetry in Hji. by destruct (H1 _ _ Hji) as [-> ?].
Qed.

Lemma take_col_take c idx c1 perm c2 idx' :
  take_col c idx = Some c1 → take_col c1 perm = Some c2 → take idx perm = Some idx' →
  take_col c idx' = Some c2.
Proof.
  intros H1 H2 H3.
  destruct c; simpl in *; apply fmap_Some in H1 as (l1 & Hl1 & ->); simpl in H2;
    apply fmap_Some in H2 as (l2 & Hl2 & ->);
    by rewrite (take_take _ _ _ _ _ _ Hl1 Hl2 H3).
Qed.

Lemma NoDup_all_equal {A} (l : list A) (x : A) :
  NoDup l → Forall (λ y, y = x) l → length l ≤ 1.
Proof.
  intros Hnd Hall. destruct l as [|a [|b l]]; simpl; [lia..|].
  apply NoDup_cons in Hnd as [Hnotin _].
  apply Forall_cons in Hall as [-> Hall]. apply Forall_cons in Hall as [-> _].
  exfalso. apply Hnotin. by left.
Qed.

(** A key of the left table matches at most one row of a right table whose
    keys are unique. *)
Lemma matching_unique rk k : NoDup rk → length (matching rk k) ≤ 1.
Proof.
  intros Hnd. unfold matching.
  destruct (filter (λ j, rk !! j = Some k) (argsort rk)) as [|j0 l] eqn:Hf; [simpl; lia|].
  rewrite <- Hf. apply (NoDup_all_equal _ j0).
  - apply NoDup_filter, argsort_NoDup.
  - apply Forall_forall. intros j Hj.
    assert (Hj0 : j0 ∈ filter (λ j, rk !! j = Some k) (argsort rk))
      by (rewrite Hf; by left).
    apply list_elem_of_filter in Hj as [Hj _]. apply list_elem_of_filter in Hj0 as [Hj0 _].
    by eapply NoDup_lookup.
Qed.

(** With unique keys on the right, the join has one row for each row of
    the left table, in the order of [argsort]. *)
Lemma join_rows_unique lk rk : NoDup rk → (join_rows lk rk).*1 = argsort lk.
Proof.
  intros Hnd. unfold join_rows.
  assert (Hlt := argsort_lt lk). revert Hlt.
  generalize (argsort lk). intros l Hlt.
  induction l as [|i l IH]; [done|].
  rewrite bind_cons, fmap_app, IH by (intros j Hj; apply Hlt; by right).
  destruct (lookup_lt_is_Some_2 lk i) as [k Hk]; [apply Hlt; by left|].
  rewrite Hk. assert (Hm := matching_unique rk k Hnd).
  destruct (matching rk k) as [|j [|j' js]]; simpl in *; [done..|lia].
Qed.

Lemma filled_unmasked c : filled_col (unmasked c) = c.
Proof.
  destruct c; simpl; f_equal; rewrite <- list_fmap_compose; by apply list_fmap_id.
Qed.

Lemma take_col_length c idx d : take_col c idx = Some d → col_len d = length idx.
Proof.
  unfold take. destruct c; simpl; intros H;
    apply fmap_Some in H as (l & Hl%length_mapM & ->); simpl; lia.
Qed.

Lemma key_column_length c ks : key_column c = Some ks → length ks = col_len c.
Proof. destruct c; simpl; intros [= <-]; by rewrite ?length_fmap. Qed.

Lemma key_columns_Some lc rc lk rk :
  key_columns lc rc = Some (lk, rk) → key_column lc = Some lk ∧ key_column rc = Some rk.
Proof. destruct lc, rc; simpl; intros [= <- <-]; done. Qed.

Lemma getcol_NoDup (t : Table) n c : NoDup t.*1 → (n, c) ∈ t → getcol t n = Some c.
Proof.
  induction t as [|[n0 c0] t IH]; simpl; [by intros _ ?%elem_of_nil|].
  intros [Hnotin Hnd]%NoDup_cons [[= -> ->]|Hin]%elem_of_cons.
  - by rewrite bool_decide_eq_true_2.
  - rewrite bool_decide_eq_false_2; [auto|].
    intros ->. apply Hnotin. by apply (list_elem_of_fmap_2 fst _ (n, c)).
Qed.

Lemma rename_column_getcol t old new t' :
  rename_column t old new = Some t' → getcol t' new = getcol t old.
Proof.
  unfold rename_column. destruct (has_col t old); [simpl|done].
  destruct (has_col t new) eqn:Hnew; [done|]. simpl. intros [= <-].
  apply has_col_false in Hnew.
  induction t as [|[n c] t IH]; simpl in *; [done|].
  case_bool_decide as Hn; [done|].
  case_bool_decide as Ho; simpl.
  - by rewrite bool_decide_eq_true_2.
  - rewrite bool_decide_eq_false_2 by done. auto.
Qed.

Lemma select_columns_getcol t cols sel c :
  select_columns t cols = Some sel → c ∈ cols → getcol sel c = getcol t c.
Proof.
  unfold select_columns. case_bool_decide as Hnd; [|done].
  intros Hm%mapM_Some. revert Hnd.
  induction Hm as [|c0 [n d] cols sel Hc Hm IH]; [by intros _ ?%elem_of_nil|].
  intros [Hnotin Hnd]%NoDup_cons. simpl.
  destruct (getcol t c0) as [d0|] eqn:Hd0; [simpl in Hc|done]. injection Hc as <- <-.
  intros [->|Hin]%elem_of_cons.
  - by rewrite bool_decide_eq_true_2.
  - rewrite bool_decide_eq_false_2 by (intros ->; done). auto.
Qed.

Lemma col_len_filled_take_masked c idx :
  col_len (filled_col (take_masked_col c idx)) = length idx.
Proof.
  destruct c; unfold take_masked_col, filled_col, col_len, take_masked;
    by rewrite !length_fmap.
Qed.

Lemma select_columns_names t cols sel : select_columns t cols = Some sel → sel.*1 = cols.
Proof.
  unfold select_columns. case_bool_decide as Hnd; [|done]. clear Hnd.
  intros Hm%mapM_Some.
  induction Hm as [|c0 [n d] cols sel Hc Hm IH]; [done|]. simpl.
  destruct (getcol t c0); [simpl in Hc|done]. injection Hc as <- <-.
  f_equal. apply IH.
Qed.

(** Every row of the left table has a row in a left outer join, and
    every row of the join is a row of the left table. *)
Lemma join_rows_left lk rk i : i ∈ (join_rows lk rk).*1 ↔ i < length lk.
Proof.
  unfold join_rows. rewrite list_elem_of_fmap. setoid_rewrite list_elem_of_bind.
  split.
  - intros ([i' oj] & -> & i0 & Hin & Hi0). simpl.
    destruct (lk !! i0) as [k|] eqn:Hk; [|by apply elem_of_nil in Hin].
    assert (i' = i0) as ->.
    { destruct (matching rk k) as [|j js]; [by apply list_elem_of_singleton in Hin as [= ->]|].
      apply list_elem_of_fmap in Hin as (? & [= -> _] & _). done. }
    by apply lookup_lt_Some in Hk.
  - intros Hlt. destruct (lookup_lt_is_Some_2 lk i Hlt) as [k Hk].
    assert (Hi : i ∈ argsort lk) by (rewrite argsort_Permutation, elem_of_seq; lia).
    destruct (matching rk k) as [|j js] eqn:Hm.
    + exists (i, None). split; [done|]. exists i. rewrite Hk, Hm. split; [by left|done].
    + exists (i, Some j). split; [done|]. exists i. rewrite Hk, Hm. split; [by left|done].
Qed.

(** The left columns of a join: the columns of [left], each with its rows
    in the order of the rows of the join, under its name when the name is
    the key or no name of [right]. *)
Lemma join_left_columns left right key out :
  join left right key = Some out →
  ∃ lc rc lk rk,
    len left ≠ 0 ∧ len right ≠ 0 ∧
    getcol left key = Some lc ∧ getcol right key = Some rc ∧
    key_column lc = Some lk ∧ key_column rc = Some rk ∧
    NoDup out.*1 ∧
    Forall (λ nc : string * mcoldata,
              col_len (filled_col nc.2) = length (join_rows lk rk)) out ∧
    (∀ (k : nat) (n : string) (c : coldata), left !! k = Some (n, c) →
       ∃ n' d, out !! k = Some (n', unmasked d) ∧
               take_col c (join_rows lk rk).*1 = Some d ∧
               (n = key ∨ has_col right n = false → n' = n)).
Proof.
  unfold join. intros H.
  destruct (bool_decide (len left = 0) || bool_decide (len right = 0)) eqn:Hz;
    [done|simpl in H].
  apply orb_false_iff in Hz as [Hzl%bool_decide_eq_false Hzr%bool_decide_eq_false].
  destruct (getcol left key) as [lc|]; [simpl in H|done].
  destruct (getcol right key) as [rc|]; [simpl in H|done].
  destruct (key_columns lc rc) as [[lk rk]|] eqn:Hk; [simpl in H|done].
  destruct (mapM _ left) as [lcols|] eqn:Hl; [simpl in H|done].
  case_bool_decide as Hnd; [|done]. injection H as <-.
  apply key_columns_Some in Hk as [Hlk Hrk].
  apply mapM_Some in Hl.
  exists lc, rc, lk, rk. split_and!; [done..| |].
  { apply Forall_app. split.
    - apply Forall_forall. intros [n' md] [k Hk]%list_elem_of_lookup.
      destruct (Forall2_lookup_r _ _ _ _ _ Hl Hk) as ([n c] & _ & Hf). simpl in Hf.
      destruct (take_col c (join_rows lk rk).*1) as [d|] eqn:Hd; [simpl in Hf|done].
      injection Hf as _ <-. simpl. rewrite filled_unmasked.
      rewrite (take_col_length _ _ _ Hd). by rewrite length_fmap.
    - apply Forall_fmap, Forall_forall. intros [n c] _. simpl.
      rewrite col_len_filled_take_masked. by rewrite length_fmap. }
  intros k n c Hkc.
  destruct (Forall2_lookup_l _ _ _ _ _ Hl Hkc) as ([n' md] & Hout & Hf).
  simpl in Hf.
  destruct (take_col c (join_rows lk rk).*1) as [d|] eqn:Hd; [simpl in Hf|done].
  injection Hf as <- <-.
  exists (if bool_decide (n ≠ key) && has_col right n then n +:+ "_1" else n), d.
  split_and!; [|done|].
  - by apply lookup_app_l_Some.
  - intros [->| ->]; [by rewrite bool_decide_eq_false_2 by (intros ?; done)|].
    by rewrite andb_false_r.
Qed.

Lemma take_fmap {A B} (f : A → B) (l : list A) idx l' :
  take l idx = Some l' → take (f <$> l) idx = Some (f <$> l').
Proof.
  unfold take. rewrite !mapM_Some. intros H. apply Forall2_fmap_r.
  eapply Forall2_impl; [exact H|]. intros i x Hx. simpl in *.
  by rewrite list_lookup_fmap, Hx.
Qed.

Lemma key_column_take c idx d lk :
  key_column c = Some lk → take_col c idx = Some d →
  key_column d = take lk idx.
Proof.
  destruct c; simpl; try done; intros [= <-] (l & Hl & ->)%fmap_Some; simpl;
    symmetry; by apply take_fmap.
Qed.

Lemma filled_names (t : MTable) : (filled t).*1 = t.*1.
Proof.
  unfold filled. rewrite <- list_fmap_compose. apply list_fmap_ext.
  by intros i [n c] _.
Qed.

(** C2. When the keys of [right] are unique, [join_tables] returns as many
    rows as [left] has; the rows are those of [left] taken in ascending
    order of the join key, which is the order of [left] only when [left] is
    sorted by it: every column of [left] stands in the result with its
    cells permuted by one permutation, under which the key column is
    sorted. *)
Theorem join_tables_rows left right key_left key_right cols_right rk out :
  wf_table left →
  key_of right key_right = Some rk → NoDup rk →
  join_tables left right key_left key_right cols_right = Some out →
  len out = len left ∧
  ∃ lk perm ks,
    key_of left key_left = Some lk ∧
    perm ≡ₚ seq 0 (len left) ∧
    (∀ (k : nat) (n : string) (c : coldata), left !! k = Some (n, c) →
       ∃ n' c', out !! k = Some (n', c') ∧ take_col c perm = Some c') ∧
    key_of out key_left = Some ks ∧ take lk perm = Some ks ∧
    Sorted keyval_le ks.
Proof.
  intros [Hwf _] Hrk Hnd H. unfold join_tables in H.
  destruct (if bool_decide (key_left ≠ key_right) then _ else _) as [right'|] eqn:Hr;
    [simpl in H|done].
  destruct (select_columns right' _) as [sel|] eqn:Hsel; [simpl in H|done].
  destruct (join left sel key_left) as [mo|] eqn:Hj; [simpl in H|done].
  injection H as <-.
  destruct (join_left_columns _ _ _ _ Hj)
    as (lc & rc & lk & rk' & _ & _ & Hlc & Hrc & Hlk & Hrk' & Hnames & _ & Hcols).
  assert (rk' = rk) as ->.
  { erewrite select_columns_getcol in Hrc; [|done|].
    2:{ case_bool_decide; [apply elem_of_app; right; by left|done]. }
    assert (getcol right' key_left = getcol right key_right) as Heq.
    { clear -Hr. destruct (decide (key_left = key_right)) as [->|Hne].
      - rewrite bool_decide_eq_false_2 in Hr by (intros ?; done). congruence.
      - rewrite bool_decide_eq_true_2 in Hr by done. by apply rename_column_getcol. }
    unfold key_of in Hrk. rewrite <- Heq, Hrc in Hrk. simpl in Hrk. congruence. }
  rewrite (join_rows_unique _ _ Hnd) in Hcols.
  assert (Hlen : length (argsort lk) = len left).
  { rewrite argsort_Permutation, length_seq, (key_column_length _ _ Hlk).
    apply getcol_elem_of in Hlc.
    by apply (proj1 (Forall_forall _ _) Hwf _ Hlc). }
  assert (Hout : ∀ (k : nat) (n : string) (c : coldata), left !! k = Some (n, c) →
    ∃ n' c', filled mo !! k = Some (n', c') ∧ take_col c (argsort lk) = Some c' ∧
             (n = key_left → n' = key_left)).
  { intros k n c Hk. destruct (Hcols _ _ _ Hk) as (n' & d & Hmo & Hd & Hn).
    exists n', d. unfold filled, Table, MTable in *. rewrite list_lookup_fmap, Hmo. simpl.
    rewrite filled_unmasked. split_and!; [done..|]. intros ->. apply Hn. by left. }
  split.
  { destruct left as [|[n0 c0] left]; [done|].
    destruct (Hout 0 n0 c0 eq_refl) as (n' & c' & Ho & Hc' & _).
    destruct (filled mo) as [|[n1 c1] fo]; [done|]. simpl in Ho. injection Ho as -> ->.
    simpl. rewrite (take_col_length _ _ _ Hc'). exact Hlen. }
  destruct (argsort_take lk) as (ks & Hks & Hsorted).
  exists lk, (argsort lk), ks. split_and!.
  - unfold key_of. by rewrite Hlc.
  - by rewrite argsort_Permutation, <- Hlen, argsort_Permutation, length_seq.
  - intros k n c Hk. destruct (Hout _ _ _ Hk) as (n' & c' & ? & ? & _). eauto.
  - apply getcol_elem_of, list_elem_of_lookup in Hlc as [k Hk].
    destruct (Hout _ _ _ Hk) as (n' & c' & Ho & Hc' & Hn). rewrite (Hn eq_refl) in Ho.
    unfold key_of. rewrite (getcol_NoDup _ key_left c').
    + simpl. by rewrite (key_column_take _ _ _ _ Hlk Hc').
    + by rewrite filled_names.
    + by eapply list_elem_of_lookup_2.
  - done.
  - done.
Qed.

Lemma sort_table_columns t key t' :
  sort_table t key = Some t' →
  ∃ keys, key_of t key = Some keys ∧
    ∀ n c, getcol t n = Some c →
      ∃ d, getcol t' n = Some d ∧ take_col c (argsort keys) = Some d.
Proof.
  unfold sort_table, key_of. destruct (getcol t key) as [kc|]; [simpl|done].
  destruct (key_column kc) as [keys|]; [simpl|done]. intros Hm%mapM_Some.
  exists keys. split; [done|]. intros n c.
  induction Hm as [|[n0 c0] [n1 c1] t t' H0 Hm IH]; [done|]. simpl in *.
  destruct (take_col c0 (argsort keys)) as [d0|] eqn:Hd0; [simpl in H0|done].
  injection H0 as <- <-. case_bool_decide; [|done]. intros [= <-]. eauto.
Qed.

Lemma sort_table_sorted t key t' :
  sort_table t key = Some t' → ∃ ks, key_of t' key = Some ks ∧ Sorted keyval_le ks.
Proof.
  intros H. destruct (sort_table_columns _ _ _ H) as (keys & Hkeys & Hcols).
  unfold key_of in *. destruct (getcol t key) as [kc|] eqn:Hkc; [simpl in Hkeys|done].
  destruct (Hcols _ _ Hkc) as (d & Hd & Htake). rewrite Hd. simpl.
  destruct (argsort_take keys) as (ks & Hks & Hsorted).
  exists ks. split; [|done]. by rewrite (key_column_take _ _ _ _ Hkeys Htake).
Qed.

(** The columns of [left] in the result of [join_tables]: a column whose
    name is the key or none of [cols_right] keeps its name, and holds the
    rows of [left] in the order of the rows of the join. *)
Lemma join_tables_left left right key_left key_right cols out :
  join_tables left right key_left key_right (Some cols) = Some out →
  ∃ lk idx,
    key_of left key_left = Some lk ∧ len left ≠ 0 ∧
    (∀ i, i ∈ idx ↔ i < length lk) ∧
    Forall (λ nc : string * coldata, col_len nc.2 = length idx) out ∧
    ∀ n c, getcol left n = Some c → n = key_left ∨ n ∉ cols →
      ∃ c', getcol out n = Some c' ∧ take_col c idx = Some c'.
Proof.
  intros H. unfold join_tables in H.
  destruct (if bool_decide (key_left ≠ key_right) then _ else _) as [right'|] eqn:Hr;
    [simpl in H|done].
  destruct (select_columns right' _) as [sel|] eqn:Hsel; [simpl in H|done].
  destruct (join left sel key_left) as [mo|] eqn:Hj; [simpl in H|done].
  injection H as <-.
  destruct (join_left_columns _ _ _ _ Hj)
    as (lc & rc & lk & rk & Hzl & _ & Hlc & Hrc & Hlk & Hrk & Hnames & Hlens & Hcols).
  exists lk, (join_rows lk rk).*1. split_and!.
  - unfold key_of. by rewrite Hlc.
  - done.
  - apply join_rows_left.
  - unfold filled. apply Forall_fmap. eapply Forall_impl; [exact Hlens|].
    intros [n c] Hc. simpl in *. by rewrite length_fmap.
  - intros n c Hn Hkeep.
    apply getcol_elem_of, list_elem_of_lookup in Hn as [k Hk].
    destruct (Hcols _ _ _ Hk) as (n' & d & Hmo & Hd & Hname).
    rewrite Hname in Hmo.
    2:{ destruct (decide (n = key_left)) as [->|Hne]; [by left|right].
        destruct Hkeep as [?|Hnot]; [done|].
        apply not_true_is_false. unfold has_col. rewrite bool_decide_eq_true.
        unfold colnames. rewrite (select_columns_names _ _ _ Hsel).
        intros Hin. apply Hnot.
        case_bool_decide.
        - apply elem_of_app in Hin as [Hin|Hin%list_elem_of_singleton]; [|done].
          by apply list_elem_of_filter in Hin as [_ ?].
        - by apply list_elem_of_filter in Hin as [_ ?]. }
    exists d. split; [|done].
    apply getcol_NoDup; [by rewrite filled_names|].
    apply list_elem_of_lookup. exists k. unfold filled, Table, MTable in *.
    rewrite list_lookup_fmap, Hmo. simpl. by rewrite filled_unmasked.
Qed.

(** The columns of [left] after [join_tables] and a sort: the rows are
    rows of [left], each row of [left] is among them, and one list of row
    numbers gives the order for every column. *)
Lemma join_sort_rows left right key_left key_right cols t1 key t2 :
  join_tables left right key_left key_right (Some cols) = Some t1 →
  sort_table t1 key = Some t2 →
  ∃ lk idx,
    key_of left key_left = Some lk ∧ len left ≠ 0 ∧
    (∀ i, i ∈ idx ↔ i < length lk) ∧
    ∀ n c, getcol left n = Some c → n = key_left ∨ n ∉ cols →
      ∃ c', getcol t2 n = Some c' ∧ take_col c idx = Some c'.
Proof.
  intros Hj Hs.
  destruct (join_tables_left _ _ _ _ _ _ Hj) as (lk & idx1 & Hlk & Hz & Hin & Hlens & Hcols).
  destruct (sort_table_columns _ _ _ Hs) as (keys & Hkeys & Hsort).
  assert (Hperm : argsort keys ≡ₚ seq 0 (length idx1)).
  { rewrite argsort_Permutation. unfold key_of in Hkeys.
    destruct (getcol t1 key) as [kc|] eqn:Hkc; [simpl in Hkeys|done].
    rewrite (key_column_length _ _ Hkeys).
    apply getcol_elem_of in Hkc.
    by rewrite <- (proj1 (Forall_forall _ _) Hlens _ Hkc). }
  destruct (take_is_Some idx1 (argsort keys)) as [idx Hidx].
  { apply Forall_forall. intros i Hi. rewrite Hperm, elem_of_seq in Hi. lia. }
  exists lk, idx. split_and!; [done..| |].
  - intros i. rewrite <- Hin. by rewrite (take_Permutation _ _ _ Hperm Hidx).
  - intros n c Hn Hkeep. destruct (Hcols _ _ Hn Hkeep) as (c1 & Hc1 & Ht1).
    destruct (Hsort _ _ Hc1) as (c2 & Hc2 & Ht2).
    exists c2. split; [done|]. by eapply take_col_take.
Qed.

End Joining.
(** ** [join_tables] on the heap *)

Section Hoare.
Context {A B : Type}.
Implicit Types (P E : heap → Prop).

Lemma hoare_bind P (c : ST A) (Q : A → heap → Prop) (f : A → ST B) R E :
  hoare P c Q E → (∀ x, hoare (Q x) (f x) R E) → hoare P (c ≫= f) R E.
Proof.
  intros Hc Hf h HP. specialize (Hc h HP).
  unfold mbind, ST_bind, st_bind. destruct (c h) as [[x|] h']; [|done].
  by apply Hf.
Qed.

Lemma hoare_ret P (x : A) (Q : A → heap → Prop) E :
  (∀ h, P h → Q x h) → hoare P (mret x) Q E.
Proof. intros HQ h HP. by apply HQ. Qed.

Lemma hoare_lift P (o : option A) (Q : A → heap → Prop) E :
  (∀ h, P h → match o with Some x => Q x h | None => E h end) →
  hoare P (st_lift o) Q E.
Proof. intros HQ h HP. specialize (HQ h HP). unfold st_lift. by destruct o. Qed.
End Hoare.

Lemma hoare_load P (p : loc) (Q : Table → heap → Prop) E :
  (∀ h, P h → match h !! p with Some t => Q t h | None => E h end) →
  hoare P (st_load p) Q E.
Proof. intros HQ h HP. specialize (HQ h HP). unfold st_load. by destruct (h !! p). Qed.

Lemma hoare_store P (p : loc) (t : Table) (Q : unit → heap → Prop) E :
  (∀ h, P h → Q () (<[p:=t]> h)) → hoare P (st_store p t) Q E.
Proof. intros HQ h HP. by apply HQ. Qed.

Lemma hoare_alloc P (t : Table) (Q : loc → heap → Prop) E :
  (∀ h, P h → h !! fresh (dom h) = None → Q (fresh (dom h)) (<[fresh (dom h):=t]> h)) →
  hoare P (st_alloc t) Q E.
Proof. intros HQ h HP. apply HQ; [done|]. apply not_elem_of_dom, is_fresh. Qed.

Section HeapJoin.
Context {lib : Library}.

(** The frame of a run: the heap [h0] of the caller stays below the heap
    of the run, and the copy of [right] is no table of the caller. *)
Lemma join_tables_st_hoare h0 left right key_left key_right cols_right :
  hoare (λ h, h = h0) (join_tables_st left right key_left key_right cols_right)
    (λ _ h, h0 ⊆ h) (λ h, h0 ⊆ h).
Proof.
  unfold join_tables_st, Table_copy, rename_column_st.
  eapply (hoare_bind _ _ (λ p h, h0 ⊆ h ∧ h0 !! p = None)).
  { eapply (hoare_bind _ _ (λ _ h, h = h0)).
    - apply hoare_load. intros h ->. by destruct (h0 !! right).
    - intros t. apply hoare_alloc. intros h -> Hfresh. split; [|done].
      by apply insert_subseteq. }
  intros p.
  assert (Hload : ∀ q (Q : Table → heap → Prop),
    (∀ t h, h0 ⊆ h ∧ h0 !! p = None → Q t h) →
    hoare (λ h, h0 ⊆ h ∧ h0 !! p = None) (st_load q) Q (λ h, h0 ⊆ h)).
  { intros q Q HQ. apply hoare_load. intros h HP. destruct (h !! q); [by apply HQ|apply HP]. }
  eapply (hoare_bind _ _ (λ _ h, h0 ⊆ h ∧ h0 !! p = None)).
  { destruct cols_right as [cols|].
    - eapply hoare_bind; [apply Hload; intros t h HP; exact HP|].
      intros t. by apply hoare_ret.
    - eapply hoare_bind; [apply Hload; intros t h HP; exact HP|].
      intros t. by apply hoare_ret. }
  intros cols.
  eapply (hoare_bind _ _ (λ _ h, h0 ⊆ h ∧ h0 !! p = None)).
  { case_bool_decide.
    - eapply hoare_bind; [apply Hload; intros t h HP; exact HP|]. intros t.
      eapply (hoare_bind _ _ (λ _ h, h0 ⊆ h ∧ h0 !! p = None)).
      + apply hoare_lift. intros h HP. destruct (rename_column _ _ _); [done|apply HP].
      + intros t'. apply hoare_store. intros h [Hsub Hp]. split; [|done].
        by apply insert_subseteq_r.
    - by apply hoare_ret. }
  intros _.
  eapply hoare_bind; [apply Hload; intros t h HP; exact HP|]. intros l.
  eapply hoare_bind; [apply Hload; intros t h HP; exact HP|]. intros r.
  eapply (hoare_bind _ _ (λ _ h, h0 ⊆ h ∧ h0 !! p = None)).
  { apply hoare_lift. intros h HP. destruct (select_columns _ _); [done|apply HP]. }
  intros sel.
  eapply (hoare_bind _ _ (λ _ h, h0 ⊆ h ∧ h0 !! p = None)).
  { apply hoare_lift. intros h HP. destruct (join _ _ _); [done|apply HP]. }
  intros out. apply hoare_alloc. intros h [Hsub _] Hfresh.
  etrans; [exact Hsub|]. by apply insert_subseteq.
Qed.

(** C9. [join_tables] leaves every table of the caller's heap, [left] and
    [right] among them, as it was, with its column names and its cells:
    whether it returns or raises, the heap it leaves extends the heap it
    was given. *)
Theorem join_tables_st_frame left right key_left key_right cols_right h :
  h ⊆ (join_tables_st left right key_left key_right cols_right h).2.
Proof.
  pose proof (join_tables_st_hoare h left right key_left key_right cols_right h eq_refl)
    as H.
  by destruct (join_tables_st _ _ _ _ _ h) as [[q|] h'].
Qed.

(** The two readings of [join_tables] agree: on the heap, the function
    returns a new table that holds what [join_tables] gives on the values
    of [left] and [right], and it raises when that gives nothing. *)
Lemma join_tables_st_value h0 left right L R key_left key_right cols_right :
  h0 !! left = Some L → h0 !! right = Some R →
  hoare (λ h, h = h0) (join_tables_st left right key_left key_right cols_right)
    (λ q h, h0 !! q = None ∧ is_Some (h !! q) ∧
            h !! q = join_tables L R key_left key_right cols_right)
    (λ _, join_tables L R key_left key_right cols_right = None).
Proof.
  intros HL HR. unfold join_tables_st, Table_copy, rename_column_st, join_tables.
  set (E := λ _ : heap, _ = None).
  eapply (hoare_bind _ _ (λ p h, h = <[p:=R]> h0 ∧ h0 !! p = None)).
  { eapply (hoare_bind _ _ (λ t h, h = h0 ∧ t = R)).
    - apply hoare_load. intros h ->. by rewrite HR.
    - intros t. apply hoare_alloc. by intros h [-> ->] Hfresh. }
  intros p.
  set (cols0 := match cols_right with
                | Some cols => filter (λ c, c ∈ colnames R) cols
                | None => colnames R
                end).
  eapply (hoare_bind _ _ (λ cols h, (h = <[p:=R]> h0 ∧ h0 !! p = None) ∧ cols = cols0)).
  { destruct cols_right as [cols|].
    - eapply (hoare_bind _ _ (λ t h, (h = <[p:=R]> h0 ∧ h0 !! p = None) ∧ t = R)).
      + apply hoare_load. intros h [-> Hp]. by rewrite lookup_insert_eq.
      + intros t. apply hoare_ret. by intros h [? ->].
    - eapply (hoare_bind _ _ (λ t h, (h = <[p:=R]> h0 ∧ h0 !! p = None) ∧ t = R)).
      + apply hoare_load. intros h [-> Hp]. by rewrite lookup_insert_eq.
      + intros t. apply hoare_ret. by intros h [? ->]. }
  intros cols.
  eapply (hoare_bind _ _ (λ _ h, ∃ R', h = <[p:=R']> h0 ∧ h0 !! p = None ∧ cols = cols0 ∧
     (if bool_decide (key_left ≠ key_right)
      then rename_column R key_right key_left else Some R) = Some R')).
  { case_bool_decide.
    - eapply (hoare_bind _ _ (λ t h, (h = <[p:=R]> h0 ∧ h0 !! p = None ∧ cols = cols0) ∧ t = R)).
      + apply hoare_load. intros h [[-> Hp] ->]. by rewrite lookup_insert_eq.
      + intros t.
        eapply (hoare_bind _ _ (λ t' h, (h = <[p:=R]> h0 ∧ h0 !! p = None ∧ cols = cols0) ∧
                                  rename_column R key_right key_left = Some t')).
        * apply hoare_lift. intros h [? ->].
          destruct (rename_column R key_right key_left) eqn:Hren; [done|].
          done.
        * intros t'. apply hoare_store. intros h [(-> & ? & ?) ?].
          exists t'. by rewrite insert_insert_eq.
    - apply hoare_ret. intros h [[-> ?] ->]. by exists R. }
  intros _.
  apply (hoare_bind _ _ (λ l h, (∃ R', h = <[p:=R']> h0 ∧ h0 !! p = None ∧ cols = cols0 ∧
     (if bool_decide (key_left ≠ key_right)
      then rename_column R key_right key_left else Some R) = Some R') ∧ l = L)).
  { apply hoare_load. intros h (R' & -> & Hp & ? & ?).
    rewrite lookup_insert_ne by congruence. rewrite HL. eauto 10. }
  intros l.
  apply (hoare_bind _ _ (λ r h, h = <[p:=r]> h0 ∧ h0 !! p = None ∧ cols = cols0 ∧ l = L ∧
     (if bool_decide (key_left ≠ key_right)
      then rename_column R key_right key_left else Some R) = Some r)).
  { apply hoare_load. intros h [(R' & -> & Hp & ? & ?) ->].
    by rewrite lookup_insert_eq. }
  intros r.
  apply (hoare_bind _ _ (λ sel h, (h = <[p:=r]> h0 ∧ h0 !! p = None ∧ l = L ∧
     (if bool_decide (key_left ≠ key_right)
      then rename_column R key_right key_left else Some R) = Some r) ∧
     select_columns r (if bool_decide (key_left ∉ cols0)
                       then cols0 ++ [key_left] else cols0) = Some sel)).
  { apply hoare_lift. intros h (-> & ? & -> & -> & Hr).
    destruct (select_columns r _) eqn:Hsel; [done|].
    unfold E. rewrite Hr. simpl. fold cols0. by rewrite Hsel. }
  intros sel.
  apply (hoare_bind _ _ (λ out h, (h = <[p:=r]> h0 ∧ h0 !! p = None) ∧
     join_tables L R key_left key_right cols_right = Some (filled out))).
  { apply hoare_lift. intros h [(-> & ? & -> & Hr) Hsel].
    unfold E, join_tables. fold cols0. rewrite Hr. simpl. rewrite Hsel. simpl.
    by destruct (join L sel key_left). }
  intros out. apply hoare_alloc. intros h [[-> Hp] Hout] Hfresh.
  rewrite lookup_insert_eq. fold (join_tables L R key_left key_right cols_right).
  split_and!; [|done..].
  apply lookup_insert_None in Hfresh as [? _]. done.
Qed.

End HeapJoin.
(** ** More on [_fill_params] *)

Section FillMore.
Variable reg : string → list string.
Variable mul : float → float → float.
Variable div : float → float → float.
Variable exp : float → float.
Variable pow : float → float → float.

Local Abbreviation PV := "param_values".

(** The row of a handled family, for the classes that look the slots up. *)
Lemma registry_driven_row cls tab tab' :
  registry_driven cls = true →
  fill_params reg mul div exp pow cls tab = Some tab' →
  ∃ st pv, strcol tab' "SpectrumType" = Some st ∧ veccol tab' PV = Some pv ∧
    length pv = length st ∧
    ∀ (i : nat) (fam : string) stmts,
      st !! i = Some fam → (fam, stmts) ∈ blocks_of cls →
      ∃ row, pv !! i = Some row ∧ length row = 10 ∧
        ∀ p e, (ByName p, e) ∈ stmts →
          ∃ j x, enumerate_dict (reg fam) !! p = Some j ∧ reg fam !! j = Some p ∧
            eval_row mul div exp pow tab' i e = Some x ∧ row !! j = Some x.
Proof.
  intros Hc H.
  destruct (fill_params_rows _ _ _ _ _ _ _ _ H) as (_ & st & pv & Hst & Hpv & Hl & Hrows).
  exists st, pv. split_and!; [done..|].
  intros i fam stmts Hs Hin.
  destruct (Hrows _ _ Hs) as (row & Hrow & Hlen & _ & Hstmts).
  exists row. split_and!; [done..|].
  destruct (proj1 (Forall_forall _ _) (blocks_of_named _ Hc) _ Hin) as [Hnd Hnamed].
  destruct (row_stmts_named _ _ _ _ _ _ _ _ _ _ (Hstmts _ Hin) Hnd Hnamed) as (_ & Hslots & _).
  intros p e Hp. destruct (Hslots _ _ Hp) as (j & x & ? & ? & ? & ?). eauto 10.
Qed.

(** X1. The rule of [PowerLaw] in the six classes that look the slots up:
    the slots at the registry's positions of [Prefactor], [Index] and
    [Scale] hold the flux density, [-1] times the index and the pivot
    energy of the row of the table the method was given, whose other
    columns it leaves as they were. *)
Theorem fill_params_PowerLaw_slots cls tab tab' :
  registry_driven cls = true →
  fill_params reg mul div exp pow cls tab = Some tab' →
  (∀ c, c ≠ PV → getcol tab' c = getcol tab c) ∧
  ∃ st pv, strcol tab "SpectrumType" = Some st ∧ veccol tab' PV = Some pv ∧
    length pv = length st ∧
    ∀ i : nat, st !! i = Some "PowerLaw" →
      ∃ row flux index pivot jP jI jS,
        pv !! i = Some row ∧
        cell tab (pl_flux_column cls) i = Some flux ∧
        cell tab (index_column cls) i = Some index ∧
        cell tab "Pivot_Energy" i = Some pivot ∧
        reg "PowerLaw" !! jP = Some "Prefactor" ∧
        reg "PowerLaw" !! jI = Some "Index" ∧
        reg "PowerLaw" !! jS = Some "Scale" ∧
        row !! jP = Some flux ∧
        row !! jI = Some (-1 * index)%float ∧
        row !! jS = Some pivot.
Proof.
  intros Hc H.
  destruct (fill_params_input reg mul div exp pow _ _ _ H) as [Hst_in Hcell].
  split; [exact (proj1 (fill_params_rows reg mul div exp pow _ _ _ H))|].
  destruct (registry_driven_row _ _ _ Hc H) as (st & pv & Hst & Hpv & Hl & Hrows).
  exists st, pv. rewrite <- Hst_in. split_and!; [done..|]. intros i Hs.
  assert (Hin : PowerLaw_block (pl_flux_column cls) (index_column cls) ∈ blocks_of cls)
    by (destruct cls; try discriminate Hc; by left).
  destruct (Hrows _ _ _ Hs Hin) as (row & Hrow & _ & Hslots).
  destruct (Hslots "Prefactor" _ ltac:(by left)) as (jP & xP & _ & HjP & HxP & HrP).
  destruct (Hslots "Index" _ ltac:(right; by left)) as (jI & xI & _ & HjI & HxI & HrI).
  destruct (Hslots "Scale" _ ltac:(do 2 right; by left)) as (jS & xS & _ & HjS & HxS & HrS).
  simpl in HxP, HxI, HxS.
  fold (cell tab' (index_column cls) i) in HxI.
  destruct (cell tab' (index_column cls) i) as [index|] eqn:Hi; [|done].
  injection HxI as <-.
  exists row, xP, index, xS, jP, jI, jS. split_and!; try done;
    rewrite <- Hcell by (by destruct cls); done.
Qed.

(** X2. The rule of [LogParabola] in the six classes that look the slots
    up: the slots of [norm], [alpha], [beta] and [Eb] hold the flux
    density, the index with its sign as it is, the curvature and the pivot
    energy of the row of the table the method was given. *)
Theorem fill_params_LogParabola cls tab tab' :
  registry_driven cls = true →
  fill_params reg mul div exp pow cls tab = Some tab' →
  (∀ c, c ≠ PV → getcol tab' c = getcol tab c) ∧
  ∃ st pv, strcol tab "SpectrumType" = Some st ∧ veccol tab' PV = Some pv ∧
    length pv = length st ∧
    ∀ i : nat, st !! i = Some "LogParabola" →
      ∃ row flux index curvature pivot jn ja jb jE,
        pv !! i = Some row ∧
        cell tab (lp_flux_column cls) i = Some flux ∧
        cell tab (lp_index_column cls) i = Some index ∧
        cell tab (lp_beta_column cls) i = Some curvature ∧
        cell tab "Pivot_Energy" i = Some pivot ∧
        reg "LogParabola" !! jn = Some "norm" ∧
        reg "LogParabola" !! ja = Some "alpha" ∧
        reg "LogParabola" !! jb = Some "beta" ∧
        reg "LogParabola" !! jE = Some "Eb" ∧
        row !! jn = Some flux ∧ row !! ja = Some index ∧
        row !! jb = Some curvature ∧ row !! jE = Some pivot.
Proof.
  intros Hc H.
  destruct (fill_params_input reg mul div exp pow _ _ _ H) as [Hst_in Hcell].
  split; [exact (proj1 (fill_params_rows reg mul div exp pow _ _ _ H))|].
  destruct (registry_driven_row _ _ _ Hc H) as (st & pv & Hst & Hpv & Hl & Hrows).
  exists st, pv. rewrite <- Hst_in. split_and!; [done..|]. intros i Hs.
  assert (Hin : LogParabola_block (lp_flux_column cls) (lp_index_column cls)
                  (lp_beta_column cls) ∈ blocks_of cls)
    by (destruct cls; try discriminate Hc; do 2 right; by left).
  destruct (Hrows _ _ _ Hs Hin) as (row & Hrow & _ & Hslots).
  destruct (Hslots "norm" _ ltac:(by left)) as (jn & xn & _ & Hjn & Hxn & Hrn).
  destruct (Hslots "alpha" _ ltac:(right; by left)) as (ja & xa & _ & Hja & Hxa & Hra).
  destruct (Hslots "beta" _ ltac:(do 2 right; by left)) as (jb & xb & _ & Hjb & Hxb & Hrb).
  destruct (Hslots "Eb" _ ltac:(do 3 right; by left)) as (jE & xE & _ & HjE & HxE & HrE).
  exists row, xn, xa, xb, xE, jn, ja, jb, jE. split_and!; try done;
    rewrite <- Hcell by (by destruct cls); done.
Qed.

(** X3. The rule of [PLSuperExpCutoff] in [Catalog3FGL]: the slots of
    [Prefactor], [Index1], [Scale], [Cutoff] and [Index2] hold the flux
    density times [exp((pivot / cutoff) ** exp_index)], [-1] times the
    index, the pivot energy, the cutoff and the exponential index of the
    row of the table the method was given.  The product, the quotient,
    [exp] and [**] are numpy's in the dtype of the columns. *)
Theorem Catalog3FGL_fill_params_PLSuperExpCutoff tab tab' :
  fill_params reg mul div exp pow Catalog3FGL tab = Some tab' →
  (∀ c, c ≠ PV → getcol tab' c = getcol tab c) ∧
  ∃ st pv, strcol tab "SpectrumType" = Some st ∧ veccol tab' PV = Some pv ∧
    length pv = length st ∧
    ∀ i : nat, st !! i = Some "PLSuperExpCutoff" →
      ∃ row flux index pivot cutoff exp_index jP jI1 jS jC jI2,
        pv !! i = Some row ∧
        cell tab "Flux_Density" i = Some flux ∧
        cell tab "Spectral_Index" i = Some index ∧
        cell tab "Pivot_Energy" i = Some pivot ∧
        cell tab "Cutoff" i = Some cutoff ∧
        cell tab "Exp_Index" i = Some exp_index ∧
        reg "PLSuperExpCutoff" !! jP = Some "Prefactor" ∧
        reg "PLSuperExpCutoff" !! jI1 = Some "Index1" ∧
        reg "PLSuperExpCutoff" !! jS = Some "Scale" ∧
        reg "PLSuperExpCutoff" !! jC = Some "Cutoff" ∧
        reg "PLSuperExpCutoff" !! jI2 = Some "Index2" ∧
        row !! jP = Some (mul flux (exp (pow (div pivot cutoff) exp_index))) ∧
        row !! jI1 = Some (-1 * index)%float ∧
        row !! jS = Some pivot ∧ row !! jC = Some cutoff ∧
        row !! jI2 = Some exp_index.
Proof.
  intros H.
  destruct (fill_params_input reg mul div exp pow _ _ _ H) as [Hst_in Hcell].
  split; [exact (proj1 (fill_params_rows reg mul div exp pow _ _ _ H))|].
  destruct (registry_driven_row Catalog3FGL _ _ eq_refl H)
    as (st & pv & Hst & Hpv & Hl & Hrows).
  exists st, pv. rewrite <- Hst_in. split_and!; [done..|]. intros i Hs.
  destruct (Hrows _ _ _ Hs ltac:(right; by left)) as (row & Hrow & _ & Hslots).
  destruct (Hslots "Prefactor" _ ltac:(by left)) as (jP & xP & _ & HjP & HxP & HrP).
  destruct (Hslots "Index1" _ ltac:(right; by left)) as (jI1 & xI1 & _ & HjI1 & HxI1 & HrI1).
  destruct (Hslots "Scale" _ ltac:(do 2 right; by left)) as (jS & xS & _ & HjS & HxS & HrS).
  destruct (Hslots "Cutoff" _ ltac:(do 3 right; by left)) as (jC & xC & _ & HjC & HxC & HrC).
  destruct (Hslots "Index2" _ ltac:(do 4 right; by left)) as (jI2 & xI2 & _ & HjI2 & HxI2 & HrI2).
  simpl in HxP, HxI1, HxS, HxC, HxI2.
  fold (cell tab' "Flux_Density" i) in HxP.
  fold (cell tab' "Pivot_Energy" i) in HxP, HxS.
  fold (cell tab' "Cutoff" i) in HxP, HxC.
  fold (cell tab' "Exp_Index" i) in HxP, HxI2.
  fold (cell tab' "Spectral_Index" i) in HxI1.
  rewrite HxS, HxC, HxI2 in HxP.
  destruct (cell tab' "Flux_Density" i) as [flux|] eqn:Hflux; [|done].
  destruct (cell tab' "Spectral_Index" i) as [index|] eqn:Hindex; [|done].
  simpl in HxP, HxI1. injection HxP as <-. injection HxI1 as <-.
  exists row, flux, index, xS, xC, xI2, jP, jI1, jS, jC, jI2. split_and!; try done;
    rewrite <- Hcell by done; done.
Qed.

(** X4. The rule of [PLSuperExpCutoff4] in [Catalog4FGLDR3] and
    [Catalog4FGLDR4]: the slot of [Prefactor] holds the flux density as it
    is, with no exponential factor; the slots of [IndexS], [Scale],
    [ExpfactorS] and [Index2] hold [-1] times the index, the pivot energy,
    the exponential factor and the exponential index of the row of the
    table the method was given. *)
Theorem fill_params_PLSuperExpCutoff4 cls tab tab' :
  "PLSuperExpCutoff4" ∈ families cls →
  fill_params reg mul div exp pow cls tab = Some tab' →
  (∀ c, c ≠ PV → getcol tab' c = getcol tab c) ∧
  ∃ st pv, strcol tab "SpectrumType" = Some st ∧ veccol tab' PV = Some pv ∧
    length pv = length st ∧
    ∀ i : nat, st !! i = Some "PLSuperExpCutoff4" →
      ∃ row flux index pivot expfactor exp_index jP jI jS jE jI2,
        pv !! i = Some row ∧
        cell tab "PLEC_Flux_Density" i = Some flux ∧
        cell tab "PLEC_IndexS" i = Some index ∧
        cell tab "Pivot_Energy" i = Some pivot ∧
        cell tab "PLEC_ExpfactorS" i = Some expfactor ∧
        cell tab "PLEC_Exp_Index" i = Some exp_index ∧
        reg "PLSuperExpCutoff4" !! jP = Some "Prefactor" ∧
        reg "PLSuperExpCutoff4" !! jI = Some "IndexS" ∧
        reg "PLSuperExpCutoff4" !! jS = Some "Scale" ∧
        reg "PLSuperExpCutoff4" !! jE = Some "ExpfactorS" ∧
        reg "PLSuperExpCutoff4" !! jI2 = Some "Index2" ∧
        row !! jP = Some flux ∧
        row !! jI = Some (-1 * index)%float ∧
        row !! jS = Some pivot ∧ row !! jE = Some expfactor ∧
        row !! jI2 = Some exp_index.
Proof.
  intros Hfam H.
  destruct (fill_params_input reg mul div exp pow _ _ _ H) as [Hst_in Hcell].
  split; [exact (proj1 (fill_params_rows reg mul div exp pow _ _ _ H))|].
  assert (Hc : registry_driven cls = true)
    by (destruct cls; try done; exfalso; revert Hfam; by apply (bool_decide_unpack _)).
  destruct (registry_driven_row _ _ _ Hc H) as (st & pv & Hst & Hpv & Hl & Hrows).
  exists st, pv. rewrite <- Hst_in. split_and!; [done..|]. intros i Hs.
  assert (Hin : ("PLSuperExpCutoff4",
                 [(ByName "Prefactor", Col "PLEC_Flux_Density");
                  (ByName "IndexS", Scale (-1) (Col "PLEC_IndexS"));
                  (ByName "Scale", Col "Pivot_Energy");
                  (ByName "ExpfactorS", Col "PLEC_ExpfactorS");
                  (ByName "Index2", Col "PLEC_Exp_Index")]) ∈ blocks_of cls).
  { destruct cls; try discriminate Hc;
      try (exfalso; revert Hfam; by apply (bool_decide_unpack _)); right; by left. }
  destruct (Hrows _ _ _ Hs Hin) as (row & Hrow & _ & Hslots).
  destruct (Hslots "Prefactor" _ ltac:(by left)) as (jP & xP & _ & HjP & HxP & HrP).
  destruct (Hslots "IndexS" _ ltac:(right; by left)) as (jI & xI & _ & HjI & HxI & HrI).
  destruct (Hslots "Scale" _ ltac:(do 2 right; by left)) as (jS & xS & _ & HjS & HxS & HrS).
  destruct (Hslots "ExpfactorS" _ ltac:(do 3 right; by left)) as (jE & xE & _ & HjE & HxE & HrE).
  destruct (Hslots "Index2" _ ltac:(do 4 right; by left)) as (jI2 & xI2 & _ & HjI2 & HxI2 & HrI2).
  simpl in HxI. fold (cell tab' "PLEC_IndexS" i) in HxI.
  destruct (cell tab' "PLEC_IndexS" i) as [index|] eqn:Hi; [|done].
  injection HxI as <-.
  exists row, xP, index, xS, xE, xI2, jP, jI, jS, jE, jI2. split_and!; try done;
    rewrite <- Hcell by (by destruct cls); done.
Qed.

(** X5. [_fill_params] changes no column but [param_values], and it gives
    the table a [param_values] column with one vector of ten slots for
    every row. *)
Theorem fill_params_frame cls tab tab' :
  fill_params reg mul div exp pow cls tab = Some tab' →
  (∀ c, c ≠ PV → getcol tab' c = getcol tab c) ∧
  ∃ st pv, strcol tab "SpectrumType" = Some st ∧ veccol tab' PV = Some pv ∧
    length pv = length st ∧ Forall (λ row, length row = 10) pv.
Proof.
  intros H.
  destruct (fill_params_rows _ _ _ _ _ _ _ _ H) as (Hfr & st & pv & Hst & Hpv & Hl & Hrows).
  split; [done|]. exists st, pv. split_and!; [|done..|].
  - unfold strcol in *. by rewrite <- Hfr.
  - apply Forall_forall. intros row [i Hi]%list_elem_of_lookup.
    destruct (lookup_lt_is_Some_2 st i) as [s Hs].
    { rewrite <- Hl. by eapply lookup_lt_Some. }
    destruct (Hrows _ _ Hs) as (row' & Hrow' & Hlen & _). congruence.
Qed.
End FillMore.
(** ** What [_fill_params] needs *)

Section FillNeeds.
Variable reg : string → list string.
Variable mul : float → float → float.
Variable div : float → float → float.
Variable exp : float → float.
Variable pow : float → float → float.

Local Abbreviation PV := "param_values".

Lemma eval_columns tab m e v :
  eval mul div exp pow tab m e = Some v →
  Forall (λ c, is_Some (floatcol tab c)) (expr_columns e).
Proof.
  revert v. induction e as [name|c e IH|e1 IH1 e2 IH2|e1 IH1 e2 IH2|e1 IH1 e2 IH2|e IH];
    intros v; simpl.
  - unfold col. destruct (floatcol tab name) eqn:Hf; [|done]. intros _.
    constructor; [by rewrite Hf|constructor].
  - unfold np_scale. destruct (eval mul div exp pow tab m e); [eauto|done].
  - unfold np_mul. destruct (eval mul div exp pow tab m e1); [simpl|done].
    destruct (eval mul div exp pow tab m e2); [simpl|done]. intros _. apply Forall_app; eauto.
  - unfold np_div. destruct (eval mul div exp pow tab m e1); [simpl|done].
    destruct (eval mul div exp pow tab m e2); [simpl|done]. intros _. apply Forall_app; eauto.
  - unfold np_pow. destruct (eval mul div exp pow tab m e1); [simpl|done].
    destruct (eval mul div exp pow tab m e2); [simpl|done]. intros _. apply Forall_app; eauto.
  - unfold np_exp. destruct (eval mul div exp pow tab m e); [eauto|done].
Qed.

Lemma exec_stmts_needs stmts m idxs k tab tab' a :
  exec_stmts mul div exp pow stmts m idxs k tab = Some tab' →
  veccol tab PV = Some a →
  Forall (stmt_ok tab idxs) stmts ∧
  ∃ a1, k (setdata tab PV (VecCol a1)) = Some tab'.
Proof.
  revert tab a. induction stmts as [|s stmts IH]; intros tab a; simpl.
  - intros Hk Ha. split; [constructor|]. exists a.
    by rewrite (setdata_id _ _ _ (veccol_Some _ _ _ Ha)).
  - intros Hs Ha. unfold set_param_values in Hs.
    destruct (eval mul div exp pow tab m s.2) as [v|] eqn:Hv; [simpl in Hs|done].
    destruct (slot_index idxs s.1) as [j|] eqn:Hj; [simpl in Hs|done].
    rewrite Ha in Hs. simpl in Hs.
    destruct (mask_set_slot a m j v) as [a2|] eqn:Ha2; [simpl in Hs|done].
    destruct (IH _ _ Hs (veccol_setdata _ _ _ _ Ha)) as (Hrest & a1 & Hk).
    rewrite setdata_setdata in Hk. split; [|eauto].
    constructor.
    + split; [by rewrite Hj|]. by eapply eval_columns.
    + eapply Forall_impl; [exact Hrest|]. intros s' [? Hcols]. split; [done|].
      eapply Forall_impl; [exact Hcols|]. intros c. simpl.
      by rewrite (floatcol_setdata_vec _ _ _ _ _ Ha).
Qed.

Lemma exec_blocks_needs blocks tab tab' a :
  exec_blocks reg mul div exp pow blocks tab = Some tab' →
  veccol tab PV = Some a →
  Forall (λ b : block, Forall (stmt_ok tab (enumerate_dict (reg b.1))) b.2) blocks.
Proof.
  revert tab a. induction blocks as [|b blocks IH]; intros tab a; simpl; [by constructor|].
  intros Hb Ha. destruct (spectrum_mask tab b.1) as [m|]; [simpl in Hb|done].
  destruct (exec_stmts_needs _ _ _ _ _ _ _ Hb Ha) as (Hstmts & a1 & Hk).
  constructor; [done|].
  specialize (IH _ _ Hk (veccol_setdata _ _ _ _ Ha)).
  eapply Forall_impl; [exact IH|]. intros b' Hb'.
  eapply Forall_impl; [exact Hb'|]. intros s' [? Hcols]. split; [done|].
  eapply Forall_impl; [exact Hcols|]. intros c. simpl.
  by rewrite (floatcol_setdata_vec _ _ _ _ _ Ha).
Qed.

Lemma fill_params_stmts_ok cls tab tab' :
  fill_params reg mul div exp pow cls tab = Some tab' →
  Forall (λ b : block, Forall (stmt_ok tab (enumerate_dict (reg b.1))) b.2) (blocks_of cls).
Proof.
  intros H. assert (Hc : has_fill_params cls = true) by (by destruct cls).
  rewrite fill_params_exec in H by done. unfold exec_fill in H.
  destruct (setitem tab PV _) as [tab0|] eqn:H0; [simpl in H|done].
  assert (Ha : veccol tab0 PV = Some (nan_ones (len tab) 10)).
  { unfold veccol. by rewrite (setitem_eq _ _ _ _ H0). }
  pose proof (exec_blocks_needs _ _ _ _ H Ha) as Hall.
  eapply Forall_impl; [exact Hall|]. intros b Hb.
  eapply Forall_impl; [exact Hb|]. intros s [? Hcols]. split; [done|].
  eapply Forall_impl; [exact Hcols|]. intros c [d Hd].
  assert (c ≠ PV).
  { intros ->. unfold floatcol in Hd. apply veccol_Some in Ha. by rewrite Ha in Hd. }
  unfold floatcol in *. rewrite <- (setitem_ne _ _ _ _ _ H0) by done. by rewrite Hd.
Qed.

(** X6. [_fill_params] raises when a column its statements read is absent
    from the table, whatever the spectrum types of the rows: the columns
    of every family are read even when no row has the family. *)
Theorem fill_params_missing_column cls tab c :
  c ∈ columns_read cls → getcol tab c = None →
  fill_params reg mul div exp pow cls tab = None.
Proof.
  intros Hc Hnone.
  assert (Hf : floatcol tab c = None) by (unfold floatcol; by rewrite Hnone).
  destruct (fill_params reg mul div exp pow cls tab) as [tab'|] eqn:H; [|done].
  exfalso. pose proof (fill_params_stmts_ok _ _ _ H) as Hall.
  unfold columns_read in Hc.
  apply list_elem_of_bind in Hc as (b & Hc & Hb).
  apply list_elem_of_bind in Hc as (s & Hc & Hs).
  pose proof (proj1 (Forall_forall _ _) Hall _ Hb) as Hstmts.
  destruct (proj1 (Forall_forall _ _) Hstmts _ Hs) as [_ Hcols].
  destruct (proj1 (Forall_forall _ _) Hcols _ Hc) as [d Hd]. congruence.
Qed.

(** X7. [_fill_params] raises when the registry's list for a family lacks
    a parameter name the class looks up in it, whatever the rows. *)
Theorem fill_params_missing_name cls tab fam p :
  (fam, p) ∈ names_used cls → p ∉ reg fam →
  fill_params reg mul div exp pow cls tab = None.
Proof.
  intros Hn Hnotin. destruct (fill_params reg mul div exp pow cls tab) as [tab'|] eqn:H; [|done].
  exfalso. pose proof (fill_params_stmts_ok _ _ _ H) as Hall.
  unfold names_used in Hn.
  apply list_elem_of_bind in Hn as (b & Hn & Hb).
  apply list_elem_of_bind in Hn as (s & Hn & Hs).
  pose proof (proj1 (Forall_forall _ _) Hall _ Hb) as Hstmts.
  destruct (proj1 (Forall_forall _ _) Hstmts _ Hs) as [[j Hj] _].
  destruct s as [[q|j'] e]; simpl in *; [|by apply elem_of_nil in Hn].
  apply list_elem_of_singleton in Hn as [= -> ->].
  apply enumerate_dict_lookup in Hj as [Hj _].
  apply Hnotin. by eapply list_elem_of_lookup_2.
Qed.
End FillNeeds.
(** ** More on the dispatcher *)

Section DispatcherMore.
Variable PACKAGE_DATA : string.
Variable isfile : string → bool.
Variable fits_open : string → option FitsFile.

Lemma known_releases_not_path name : name ∈ known_releases → ¬ is_path name.
Proof.
  unfold known_releases. rewrite !elem_of_cons, elem_of_nil.
  intros H [Hp|Hp]; revert Hp;
    repeat (destruct H as [->|H]; [by vm_compute|]); done.
Qed.

(** X8. [create] constructs a class on its bundled default file exactly
    for the seven release identifiers, each with its own class, and it
    does not look at the file system for them. *)
Theorem create_release_identifier name cls :
  create PACKAGE_DATA isfile fits_open name = Construct cls None ↔
  (name, cls) ∈ token_table.
Proof.
  split.
  - unfold create. destruct (_ || _).
    + destruct (fits_open _) as [h|]; [|done].
      repeat (case_bool_decide; try done); by destruct (str_contains _ _).
    + unfold token_table.
      repeat (case_bool_decide; [subst name; intros [= <-]; rewrite !elem_of_cons; naive_solver|]).
      intros [=].
  - unfold token_table. rewrite !elem_of_cons, elem_of_nil.
    intros H;
      repeat (destruct H as [[= -> ->]|H];
              [unfold create; rewrite (create_token _);
               [reflexivity|apply known_releases_not_path; set_solver]|]).
    done.
Qed.

(** X9. A path to a file whose name tag is [3FGL] or [FL8Y]: [create]
    constructs the class of that tag on the resolved file, whatever the
    version tag, the columns and the file name are. *)
Theorem create_name_tag name h tag :
  is_path name →
  fits_open (resolve PACKAGE_DATA isfile name) = Some h →
  header h !! "CDS-NAME" = Some tag →
  tag = "3FGL" ∨ tag = "FL8Y" →
  create PACKAGE_DATA isfile fits_open name =
    Construct (if bool_decide (tag = "3FGL") then Catalog3FGL else CatalogFL8Y)
      (Some (resolve PACKAGE_DATA isfile name)).
Proof.
  intros Hp Ho Hn Ht. unfold create, resolve in *.
  rewrite (create_path _ Hp), Ho, Hn. simpl.
  by destruct Ht as [->| ->].
Qed.

(** X10. A path to a file whose name tag is [4FGL], whose version tag
    belongs to a schema generation and whose table has the signature column
    of that generation: [create] constructs the class of the generation on
    the resolved file. *)
Theorem create_generation name h version signature cls :
  is_path name →
  fits_open (resolve PACKAGE_DATA isfile name) = Some h →
  header h !! "CDS-NAME" = Some "4FGL" →
  header h !! "VERSION" = Some version →
  generation version = Some (signature, cls) →
  signature ∈ columns h →
  create PACKAGE_DATA isfile fits_open name =
    Construct cls (Some (resolve PACKAGE_DATA isfile name)).
Proof.
  intros Hp Ho Hn Hv Hg Hs. unfold create, resolve in *.
  rewrite (create_path _ Hp), Ho, Hn, Hv. simpl.
  unfold generation in Hg.
  repeat (destruct (bool_decide (version ∈ _));
          [injection Hg as <- <-; by rewrite bool_decide_eq_true_2|]).
  done.
Qed.

(** X11. A path to a file whose name tag is [4FGL] and whose header has no
    version tag: [create] raises the exception of an unrecognised file
    version, whatever columns the table has. *)
Theorem create_version_absent name h :
  is_path name →
  fits_open (resolve PACKAGE_DATA isfile name) = Some h →
  header h !! "CDS-NAME" = Some "4FGL" →
  header h !! "VERSION" = None →
  create PACKAGE_DATA isfile fits_open name =
    Raise (Exception "Error - 4FGL catalog fits file version not recognised.").
Proof.
  intros Hp Ho Hn Hv. unfold create, resolve in *.
  by rewrite (create_path _ Hp), Ho, Hn, Hv.
Qed.

(** X12. A path to a file whose name tag is absent or none of [3FGL],
    [FL8Y] and [4FGL]: [create] raises nothing; it constructs [Catalog2FHL]
    when the resolved path contains [gll_psch_v08], else [Catalog4FGLP] when
    the table has a column [NickName], else [CatalogFPY]. *)
Theorem create_other_tag name h :
  is_path name →
  fits_open (resolve PACKAGE_DATA isfile name) = Some h →
  default "" (header h !! "CDS-NAME") ∉ ["3FGL"; "FL8Y"; "4FGL"] →
  create PACKAGE_DATA isfile fits_open name =
    Construct
      (if str_contains "gll_psch_v08" (resolve PACKAGE_DATA isfile name) then Catalog2FHL
       else if bool_decide ("NickName" ∈ columns h) then Catalog4FGLP
       else CatalogFPY)
      (Some (resolve PACKAGE_DATA isfile name)).
Proof.
  intros Hp Ho Hn. unfold create, resolve in *.
  rewrite (create_path _ Hp), Ho. simpl.
  repeat (case_bool_decide as Hin; [exfalso; set_solver|clear Hin]).
  destruct (str_contains _ _); [done|]. by case_bool_decide.
Qed.

(** X13. Whenever [create] hands a file to a class, the name was a path
    and the file is the resolved path: the path itself when a file is
    there, the bundled file of that name otherwise. *)
Theorem create_file name cls f :
  create PACKAGE_DATA isfile fits_open name = Construct cls (Some f) →
  is_path name ∧ f = resolve PACKAGE_DATA isfile name.
Proof.
  unfold create, resolve, is_path.
  destruct (bool_decide (_ = ".fits") || _) eqn:He.
  - apply orb_true_iff in He. rewrite !bool_decide_eq_true in He.
    intros H. split; [done|]. revert H.
    destruct (fits_open _) as [h|]; [|done].
    repeat (case_bool_decide; try done); try destruct (str_contains _ _);
      congruence.
  - by repeat case_bool_decide.
Qed.
End DispatcherMore.
(** ** Stripping white space *)

Lemma append_cons c (s t : string) : String c s +:+ t = String c (s +:+ t).
Proof. reflexivity. Qed.

Lemma append_nil_r (s : string) : s +:+ "" = s.
Proof. induction s as [|a s IH]; [done|by rewrite append_cons, IH]. Qed.

Lemma append_assoc (a b c : string) : (a +:+ b) +:+ c = a +:+ (b +:+ c).
Proof. induction a as [|x a IH]; [done|by rewrite !append_cons, IH]. Qed.

Lemma rev_app_append (s a : string) : String.rev_app s a = String.rev s +:+ a.
Proof.
  unfold String.rev. revert a. induction s as [|c s IH]; intros a; simpl; [done|].
  rewrite IH, (IH (String c "")). by rewrite append_assoc.
Qed.

Lemma rev_cons c (s : string) : String.rev (String c s) = String.rev s +:+ String c "".
Proof. unfold String.rev at 1. simpl. apply rev_app_append. Qed.

Lemma rev_append (a b : string) : String.rev (a +:+ b) = String.rev b +:+ String.rev a.
Proof.
  induction a as [|c a IH].
  - change (String.rev b = String.rev b +:+ ""). by rewrite append_nil_r.
  - by rewrite append_cons, !rev_cons, IH, append_assoc.
Qed.

Lemma rev_involutive (s : string) : String.rev (String.rev s) = s.
Proof.
  induction s as [|c s IH]; [done|]. by rewrite rev_cons, rev_append, IH.
Qed.

Lemma all_space_append (a b : string) : all_space (a +:+ b) ↔ all_space a ∧ all_space b.
Proof.
  unfold all_space. induction a as [|c a IH]; [naive_solver|].
  rewrite append_cons. simpl. rewrite !andb_true_iff, IH. naive_solver.
Qed.

Lemma all_space_rev (s : string) : all_space s → all_space (String.rev s).
Proof.
  induction s as [|c s IH]; [done|]. rewrite rev_cons, all_space_append.
  unfold all_space at 1. simpl. rewrite andb_true_iff. intros [Hc Hs].
  split; [by apply IH|]. unfold all_space. simpl. by rewrite Hc.
Qed.

Lemma lstrip_spec (s : string) :
  ∃ l, s = l +:+ lstrip s ∧ all_space l ∧
       ∀ c t, lstrip s = String c t → Ascii.is_space c = false.
Proof.
  induction s as [|a s (l & Hl & Hsp & Hhd)]; simpl.
  - by exists "".
  - destruct (Ascii.is_space a) eqn:Ha.
    + exists (String a l). split_and!; [by rewrite append_cons, <- Hl| |done].
      unfold all_space. simpl. by rewrite Ha.
    + exists "". split_and!; [done..|]. by intros c t [= <- _].
Qed.

Lemma rstrip_spec (s : string) :
  ∃ r, s = rstrip s +:+ r ∧ all_space r ∧
       ∀ t c, rstrip s = t +:+ String c "" → Ascii.is_space c = false.
Proof.
  unfold rstrip. destruct (lstrip_spec (String.rev s)) as (l & Hl & Hsp & Hhd).
  exists (String.rev l). split_and!.
  - by rewrite <- rev_append, <- Hl, rev_involutive.
  - by apply all_space_rev.
  - intros t c Ht. apply (Hhd c (String.rev t)).
    by rewrite <- (rev_involutive (lstrip _)), Ht, rev_append.
Qed.

Lemma strip_spec (s : string) :
  (∃ l r, s = l +:+ strip s +:+ r ∧ all_space l ∧ all_space r) ∧
  no_space_ends (strip s).
Proof.
  unfold strip. destruct (lstrip_spec s) as (l & Hl & Hsl & Hhd).
  destruct (rstrip_spec (lstrip s)) as (r & Hr & Hsr & Hlast).
  split.
  - exists l, r. split_and!; [|done..]. by rewrite <- Hr.
  - split; [|done]. intros c t Hc. apply (Hhd c (t +:+ r)).
    by rewrite Hr, Hc at 1.
Qed.

Lemma strip_fixed (s : string) : no_space_ends s → strip s = s.
Proof.
  intros [Hhd Hlast]. unfold strip.
  assert (Hl : lstrip s = s).
  { destruct s as [|c t]; [done|]. simpl. by rewrite (Hhd c t eq_refl). }
  rewrite Hl. unfold rstrip.
  assert (Hr : lstrip (String.rev s) = String.rev s).
  { destruct (String.rev s) as [|c t] eqn:Hrev; [done|]. simpl.
    rewrite (Hlast (String.rev t) c); [done|].
    by rewrite <- (rev_involutive s), Hrev, rev_cons. }
  by rewrite Hr, rev_involutive.
Qed.

Lemma strip_idemp (s : string) : strip (strip s) = strip s.
Proof. apply strip_fixed, strip_spec. Qed.
(** ** [strip_columns] *)

Lemma getcol_strip_columns tab name :
  getcol (strip_columns tab) name =
    (λ c, match c with StrCol d => StrCol (strip <$> d) | _ => c end) <$> getcol tab name.
Proof.
  induction tab as [|[n c] tab IH]; [done|].
  unfold strip_columns in *. rewrite fmap_cons. simpl.
  destruct c; simpl; case_bool_decide; simpl; done.
Qed.

(** X14. [strip_columns] on a text column: the column keeps its length,
    and every cell is the cell of the input with white space taken from
    its two ends and nothing else changed; no cell of the result begins or
    ends with white space. *)
Theorem strip_columns_cells tab name d :
  strcol tab name = Some d →
  ∃ d', strcol (strip_columns tab) name = Some d' ∧ length d' = length d ∧
    ∀ (i : nat) (s : string), d !! i = Some s →
      ∃ s' l r, d' !! i = Some s' ∧ s = l +:+ s' +:+ r ∧
        all_space l ∧ all_space r ∧ no_space_ends s'.
Proof.
  unfold strcol. rewrite getcol_strip_columns.
  destruct (getcol tab name) as [[d0| | | |]|]; try done. simpl. intros [= ->].
  exists (strip <$> d). split_and!; [done|by rewrite length_fmap|].
  intros i s Hi. destruct (strip_spec s) as [(l & r & Hs & Hl & Hr) Hends].
  exists (strip s), l, r. by rewrite list_lookup_fmap, Hi.
Qed.

(** X15. [strip_columns] keeps the names of the columns and their order,
    the number of rows and every column that is no text column; a table
    whose columns have one length and distinct names stays one. *)
Theorem strip_columns_frame tab :
  colnames (strip_columns tab) = colnames tab ∧
  len (strip_columns tab) = len tab ∧
  (∀ name c, getcol tab name = Some c → (∀ d, c ≠ StrCol d) →
     getcol (strip_columns tab) name = Some c) ∧
  (wf_table tab → wf_table (strip_columns tab)).
Proof.
  assert (Hn : colnames (strip_columns tab) = colnames tab).
  { unfold colnames, strip_columns. rewrite <- list_fmap_compose.
    apply list_fmap_ext. by intros i [n []] _. }
  assert (Hl : len (strip_columns tab) = len tab).
  { destruct tab as [|[n []] tab]; simpl; by rewrite ?length_fmap. }
  split_and!; [done..| |].
  - intros name c Hc Hns. rewrite getcol_strip_columns, Hc. simpl.
    destruct c; try done. by destruct (Hns d).
  - intros [Hlen Hnd]. split; [|by rewrite Hn].
    rewrite Hl. unfold strip_columns. apply Forall_fmap.
    eapply Forall_impl; [exact Hlen|]. intros [n []]; simpl; by rewrite ?length_fmap.
Qed.

(** X16. [strip_columns] a second time changes nothing. *)
Theorem strip_columns_idempotent tab :
  strip_columns (strip_columns tab) = strip_columns tab.
Proof.
  unfold strip_columns. rewrite <- list_fmap_compose. apply list_fmap_ext.
  intros i [n []] _; simpl; try done.
  do 2 f_equal. rewrite <- list_fmap_compose. apply list_fmap_ext.
  intros j s _. apply strip_idemp.
Qed.
(** ** [add_columns] *)

Lemma col_len_zeros_like n c : col_len (zeros_like n c) = n.
Proof. destruct c; simpl; by rewrite length_replicate. Qed.

Lemma len_app_zeros (t0 : Table) name c :
  len (t0 ++ [(name, zeros_like (len t0) c)]) = len t0.
Proof. destruct t0 as [|[n0 c0] t0]; simpl; [apply col_len_zeros_like|done]. Qed.

Lemma add_columns_cons t0 nc t1 :
  add_columns t0 (nc :: t1) =
    add_columns (if has_col t0 nc.1 then t0
                 else t0 ++ [(nc.1, zeros_like (len t0) nc.2)]) t1.
Proof. reflexivity. Qed.

Lemma add_columns_len t0 t1 : len (add_columns t0 t1) = len t0.
Proof.
  revert t0. induction t1 as [|nc t1 IH]; intros t0; [done|].
  rewrite add_columns_cons, IH. destruct (has_col t0 nc.1); [done|apply len_app_zeros].
Qed.

Lemma add_columns_getcol t0 t1 name :
  getcol (add_columns t0 t1) name =
    match getcol t0 name with
    | Some c => Some c
    | None => zeros_like (len t0) <$> getcol t1 name
    end.
Proof.
  revert t0. induction t1 as [|[n c] t1 IH]; intros t0.
  - simpl. by destruct (getcol t0 name).
  - rewrite add_columns_cons, IH. simpl.
    destruct (has_col t0 n) eqn:Hh.
    + case_bool_decide as Hn; [|done]. subst n.
      apply has_col_getcol in Hh as [c0 Hc0]. by rewrite Hc0.
    + apply has_col_false in Hh. rewrite len_app_zeros.
      case_bool_decide as Hn.
      * subst n. by rewrite getcol_app_eq, Hh.
      * by rewrite getcol_app_ne.
Qed.

Lemma add_columns_present t0 t1 :
  Forall (λ nc : string * coldata, has_col t0 nc.1 = true) t1 → add_columns t0 t1 = t0.
Proof.
  induction 1 as [|nc t1 Hnc _ IH]; [done|]. by rewrite add_columns_cons, Hnc.
Qed.

Lemma filter_ext_in {A} (P Q : A → Prop) `{∀ x, Decision (P x)} `{∀ x, Decision (Q x)}
    (l : list A) :
  (∀ x, x ∈ l → (P x ↔ Q x)) → filter P l = filter Q l.
Proof.
  induction l as [|x l IH]; intros Hx; [done|].
  rewrite !filter_cons, IH by (intros y Hy; apply Hx; by right).
  destruct (decide (P x)) as [HP|HP], (decide (Q x)) as [HQ|HQ]; try done;
    exfalso; apply (Hx x) in HP || apply HP, (Hx x); try done; by left.
Qed.

Lemma add_columns_names t0 t1 :
  NoDup (colnames t1) →
  colnames (add_columns t0 t1) =
    colnames t0 ++ filter (λ n, n ∉ colnames t0) (colnames t1).
Proof.
  unfold colnames. revert t0. induction t1 as [|[n c] t1 IH]; intros t0.
  - intros _. simpl. by rewrite filter_nil, app_nil_r.
  - rewrite fmap_cons. intros [Hnotin Hnd]%NoDup_cons.
    rewrite add_columns_cons, (IH _ Hnd), filter_cons. simpl.
    unfold has_col, colnames. case_bool_decide as Hin.
    + by rewrite decide_False by (intros ?; done).
    + rewrite decide_True by done. rewrite fmap_app, <- app_assoc. simpl.
      do 2 f_equal. apply filter_ext_in. intros m Hm.
      rewrite elem_of_app, list_elem_of_singleton. split; [naive_solver|].
      intros Hm' [?| ->]; done.
Qed.

Lemma add_columns_lengths t0 t1 :
  Forall (λ nc : string * coldata, col_len nc.2 = len t0) t0 →
  Forall (λ nc : string * coldata, col_len nc.2 = len t0) (add_columns t0 t1).
Proof.
  revert t0. induction t1 as [|[n c] t1 IH]; intros t0 Hall; [done|].
  rewrite add_columns_cons. simpl. destruct (has_col t0 n); [by apply IH|].
  pose proof (IH (t0 ++ [(n, zeros_like (len t0) c)])) as IH'.
  rewrite len_app_zeros in IH'. apply IH'.
  apply Forall_app. split; [done|]. constructor; [|done]. apply col_len_zeros_like.
Qed.

(** X17. After [add_columns(t0, t1)]: a column of [t0] is as it was; a
    column of [t1] whose name [t0] lacks stands in [t0] as a column of
    zeros (empty strings, [False]) of the length of [t0], one value per
    cell, with no value of [t1] copied; no other column is there, and the
    number of rows is as before. *)
Theorem add_columns_columns t0 t1 :
  (∀ name c, getcol t0 name = Some c → getcol (add_columns t0 t1) name = Some c) ∧
  (∀ name c, getcol t0 name = None → getcol t1 name = Some c →
     getcol (add_columns t0 t1) name = Some (zeros_like (len t0) c)) ∧
  (∀ name, getcol t0 name = None → getcol t1 name = None →
     getcol (add_columns t0 t1) name = None) ∧
  len (add_columns t0 t1) = len t0.
Proof.
  split_and!; [| | |apply add_columns_len].
  - intros name c Hc. by rewrite add_columns_getcol, Hc.
  - intros name c H0 H1. by rewrite add_columns_getcol, H0, H1.
  - intros name H0 H1. by rewrite add_columns_getcol, H0, H1.
Qed.

(** X18. When the columns of [t0] have one length and distinct names, and
    the names of [t1] are distinct, the table [add_columns] leaves is of
    that kind too, and its names are those of [t0] followed by the names
    only [t1] has, in the order of [t1]. *)
Theorem add_columns_wf t0 t1 :
  wf_table t0 → NoDup (colnames t1) →
  wf_table (add_columns t0 t1) ∧
  colnames (add_columns t0 t1) =
    colnames t0 ++ filter (λ n, n ∉ colnames t0) (colnames t1).
Proof.
  intros [Hlen Hnd0] Hnd1. split; [|by apply add_columns_names].
  split.
  - rewrite add_columns_len. by apply add_columns_lengths.
  - rewrite (add_columns_names _ _ Hnd1). apply NoDup_app. split_and!; [done| |].
    + by intros n Hn [Hn' _]%list_elem_of_filter.
    + by apply NoDup_filter.
Qed.

(** X19. [add_columns] a second time with the same [t1] changes nothing. *)
Theorem add_columns_idempotent t0 t1 :
  add_columns (add_columns t0 t1) t1 = add_columns t0 t1.
Proof.
  apply add_columns_present, Forall_forall. intros [n c] Hin. simpl.
  apply has_col_getcol. rewrite add_columns_getcol.
  destruct (getcol t0 n); [eauto|].
  destruct (getcol t1 n) as [c'|] eqn:Hn; [simpl; eauto|].
  exfalso. apply has_col_false in Hn. unfold has_col in Hn.
  apply bool_decide_eq_false in Hn. apply Hn.
  by apply (list_elem_of_fmap_2 fst _ (n, c)).
Qed.
(** ** More on [join_tables] *)

Section JoinMore.
Context {lib : Library}.

(** X20. With [cols_right] left at its default and two different key
    names, [join_tables] raises for every pair of tables: the list of
    columns is read from [right] before its key column is renamed, and
    names the old key. *)
Theorem join_tables_default_columns left right key_left key_right :
  key_left ≠ key_right →
  join_tables left right key_left key_right None = None.
Proof.
  intros Hne. unfold join_tables.
  rewrite (bool_decide_eq_true_2 (key_left ≠ key_right)) by done.
  destruct (rename_column right key_right key_left) as [right'|] eqn:Hr; [simpl|done].
  unfold rename_column in Hr.
  destruct (has_col right key_right) eqn:Ho; [simpl in Hr|done].
  destruct (has_col right key_left) eqn:Hn; [done|]. simpl in Hr. injection Hr as <-.
  assert (Hsel : select_columns
            ((λ nc : string * coldata,
                if bool_decide (nc.1 = key_right) then (key_left, nc.2) else nc) <$> right)
            (if bool_decide (key_left ∉ colnames right)
             then colnames right ++ [key_left] else colnames right) = None).
  { unfold select_columns. case_bool_decide; [|done].
    apply eq_None_not_Some. intros [sel Hsel%mapM_Some].
    unfold has_col in Ho. apply bool_decide_eq_true in Ho.
    assert (Hin : key_right ∈ (if bool_decide (key_left ∉ colnames right)
             then colnames right ++ [key_left] else colnames right)).
    { case_bool_decide; [apply elem_of_app; by left|done]. }
    apply list_elem_of_lookup in Hin as [i Hi].
    destruct (Forall2_lookup_l _ _ _ _ _ Hsel Hi) as (y & _ & Hy).
    apply bind_Some in Hy as (d & Hd & _).
    assert (getcol ((λ nc : string * coldata,
                if bool_decide (nc.1 = key_right) then (key_left, nc.2) else nc) <$> right)
              key_right = None) as Hnone; [|congruence].
    clear -Hne. induction right as [|[n c] right IH]; [done|].
    rewrite fmap_cons. simpl. case_bool_decide as Hn; simpl.
    - subst n. by rewrite bool_decide_eq_false_2.
    - by rewrite bool_decide_eq_false_2. }
  by rewrite Hsel.
Qed.

(** X21. [join_tables] raises when [left] has no column [key_left] or
    [right] has no column [key_right]. *)
Theorem join_tables_missing_key left right key_left key_right cols_right :
  getcol left key_left = None ∨ getcol right key_right = None →
  join_tables left right key_left key_right cols_right = None.
Proof.
  intros Hmiss. unfold join_tables.
  destruct (if bool_decide (key_left ≠ key_right) then _ else _) as [right'|] eqn:Hr;
    [simpl|done].
  destruct (select_columns right' _) as [sel|] eqn:Hsel; [simpl|done].
  destruct (join left sel key_left) as [out|] eqn:Hj; [exfalso|done].
  unfold join in Hj.
  destruct (bool_decide (len left = 0) || bool_decide (len sel = 0)); [done|simpl in Hj].
  destruct (getcol left key_left) as [lc|] eqn:Hlc; [simpl in Hj|done].
  destruct (getcol sel key_left) as [rc|] eqn:Hrc; [|done].
  destruct Hmiss as [?|Hmiss]; [done|].
  erewrite select_columns_getcol in Hrc; [|done|].
  2:{ case_bool_decide; [apply elem_of_app; right; by left|done]. }
  destruct (decide (key_left = key_right)) as [Heq|Hne].
  - rewrite (bool_decide_eq_false_2 (key_left ≠ key_right)) in Hr by (intros ?; done).
    injection Hr as <-. congruence.
  - rewrite (bool_decide_eq_true_2 _ Hne) in Hr.
    unfold rename_column in Hr. apply has_col_false in Hmiss. by rewrite Hmiss in Hr.
Qed.

(** The rows of a join: each pairs a row of [left] with a row of [right]
    of the same key, or with no row when [right] has no such key. *)
Lemma join_rows_spec lk rk :
  Forall (λ io : nat * option nat,
            ∃ k, lk !! io.1 = Some k ∧
                 match io.2 with
                 | Some j => rk !! j = Some k
                 | None => k ∉ rk
                 end)
    (join_rows lk rk).
Proof.
  apply Forall_forall. intros [i oj] Hin. unfold join_rows in Hin.
  apply list_elem_of_bind in Hin as (i' & Hin & _).
  destruct (lk !! i') as [k|] eqn:Hk; [|by apply elem_of_nil in Hin].
  destruct (matching rk k) as [|j0 js] eqn:Hm.
  - apply list_elem_of_singleton in Hin as [= -> ->]. exists k. split; [done|]. simpl.
    intros [j Hj]%list_elem_of_lookup.
    assert (j ∈ matching rk k) as Hjm; [|rewrite Hm in Hjm; by apply elem_of_nil in Hjm].
    unfold matching. apply list_elem_of_filter. split; [done|].
    rewrite argsort_Permutation. apply elem_of_seq. apply lookup_lt_Some in Hj. lia.
  - apply list_elem_of_fmap in Hin as (j & [= -> ->] & Hj). exists k. split; [done|].
    simpl. rewrite <- Hm in Hj. unfold matching in Hj.
    by apply list_elem_of_filter in Hj as [Hj _].
Qed.

Lemma cell_at_take c idx d r i :
  take_col c idx = Some d → idx !! r = Some i → cell_at d r = cell_at c i.
Proof.
  unfold take. intros Hd Hr.
  destruct c; simpl in *; apply fmap_Some in Hd as (l & Hl%mapM_Some & ->); simpl;
    destruct (Forall2_lookup_l _ _ _ _ _ Hl Hr) as (y & -> & ->); done.
Qed.

Lemma cell_at_take_masked c idx r oj :
  idx !! r = Some oj →
  cell_at (filled_col (take_masked_col c idx)) r =
    match oj with
    | Some j => match cell_at c j with
                | Some v => Some v
                | None => Some (fill_value c)
                end
    | None => Some (fill_value c)
    end.
Proof.
  intros Hr.
  destruct c; unfold take_masked_col, filled_col, cell_at, fill_value, take_masked;
    rewrite !list_lookup_fmap, Hr; simpl;
    destruct oj as [j|]; simpl; try done; by destruct (d !! j).
Qed.

Lemma key_column_cell c ks r k :
  key_column c = Some ks → ks !! r = Some k →
  cell_at c r = Some (match k with KStr s => CStr s | KInt z => CInt z end).
Proof.
  destruct c; simpl; try done; intros [= <-]; rewrite list_lookup_fmap;
    destruct (d !! r); simpl; try done; by intros [= <-].
Qed.

Lemma rename_column_getcol_ne t old new t' c :
  rename_column t old new = Some t' → c ≠ old → c ≠ new → getcol t' c = getcol t c.
Proof.
  unfold rename_column. destruct (_ && _); [|done]. intros [= <-] Ho Hn.
  induction t as [|[n d] t IH]; [done|]. rewrite fmap_cons. simpl.
  case_bool_decide as H1; simpl.
  - subst n. by rewrite !bool_decide_eq_false_2 by done.
  - case_bool_decide; [done|apply IH].
Qed.

Lemma key_column_take_Some c idx d lk :
  key_column c = Some lk → take_col c idx = Some d →
  ∃ ks, key_column d = Some ks ∧ take lk idx = Some ks.
Proof.
  destruct c; simpl; try done; intros [= <-] (l & Hl & ->)%fmap_Some; simpl;
    eexists; (split; [done|]); by apply take_fmap.
Qed.

Lemma cell_at_is_Some c j : j < col_len c → is_Some (cell_at c j).
Proof.
  destruct c; simpl; intros Hj; apply fmap_is_Some; by apply lookup_lt_is_Some_2.
Qed.

(** X22. The cells [join_tables] gives a column of [right]: on a row
    whose key is a key of [right], the cell of the row of [right] with
    that key; on a row whose key [right] does not have, [''] in a text
    column, [0] in a column of integers and [nan] in a column of floats. *)
Theorem join_tables_right_cells left right key_left key_right cols_right out c rc rk :
  wf_table right →
  join_tables left right key_left key_right cols_right = Some out →
  key_of right key_right = Some rk →
  getcol right c = Some rc → c ≠ key_left → c ≠ key_right →
  match cols_right with Some cols => c ∈ cols | None => True end →
  has_col left c = false →
  ∃ oc ks, getcol out c = Some oc ∧ key_of out key_left = Some ks ∧
    col_len oc = length ks ∧
    ∀ (r : nat) (k : keyval), ks !! r = Some k →
      (k ∉ rk → cell_at oc r = Some (fill_value rc)) ∧
      (k ∈ rk → ∃ j, rk !! j = Some k ∧ cell_at oc r = cell_at rc j).
Proof.
  intros [Hwf Hwfn] H Hrk Hc Hcl Hcr Hcols Hleft. unfold join_tables in H.
  destruct (if bool_decide (key_left ≠ key_right) then _ else _) as [right'|] eqn:Hr;
    [simpl in H|done].
  destruct (select_columns right' _) as [sel|] eqn:Hsel; [simpl in H|done].
  destruct (join left sel key_left) as [mo|] eqn:Hj; [simpl in H|done].
  injection H as <-.
  assert (Hkey : getcol right' key_left = getcol right key_right).
  { clear -Hr. destruct (decide (key_left = key_right)) as [->|Hne].
    - rewrite bool_decide_eq_false_2 in Hr by (intros ?; done). congruence.
    - rewrite bool_decide_eq_true_2 in Hr by done. by apply rename_column_getcol. }
  assert (Hc' : getcol right' c = Some rc).
  { rewrite <- Hc. clear -Hr Hcl Hcr.
    destruct (decide (key_left = key_right)) as [->|Hne].
    - rewrite bool_decide_eq_false_2 in Hr by (intros ?; done). congruence.
    - rewrite bool_decide_eq_true_2 in Hr by done.
      by apply (rename_column_getcol_ne _ _ _ _ _ Hr). }
  assert (Hselk : getcol sel key_left = getcol right key_right).
  { rewrite <- Hkey. eapply select_columns_getcol; [done|].
    case_bool_decide; [apply elem_of_app; right; by left|done]. }
  assert (Hselc : getcol sel c = Some rc).
  { rewrite <- Hc'. eapply select_columns_getcol; [done|].
    assert (c ∈ match cols_right with
                | Some cols => filter (λ c, c ∈ colnames right) cols
                | None => colnames right
                end) as Hin.
    { assert (c ∈ colnames right).
      { apply getcol_elem_of in Hc. by apply (list_elem_of_fmap_2 fst _ (c, rc)). }
      destruct cols_right; [by apply list_elem_of_filter|done]. }
    case_bool_decide; [apply elem_of_app; by left|done]. }
  unfold join in Hj.
  destruct (bool_decide (len left = 0) || bool_decide (len sel = 0)); [done|simpl in Hj].
  destruct (getcol left key_left) as [lc|] eqn:Hlc; [simpl in Hj|done].
  rewrite Hselk in Hj. unfold key_of in Hrk.
  destruct (getcol right key_right) as [kc|] eqn:Hkc; [simpl in Hj, Hrk|done].
  destruct (key_columns lc kc) as [[lk rk']|] eqn:Hk; [simpl in Hj|done].
  apply key_columns_Some in Hk as [Hlk Hrk'].
  assert (rk' = rk) as -> by congruence.
  set (rows := join_rows lk rk) in *.
  destruct (mapM _ left) as [lcols|] eqn:Hl; [simpl in Hj|done].
  case_bool_decide as Hnd; [|done]. injection Hj as <-.
  match goal with |- context [filled (lcols ++ ?r)] => set (rcols := r) in * end.
  apply mapM_Some in Hl.
  (* the key column of the result *)
  apply getcol_elem_of, list_elem_of_lookup in Hlc as [n Hn].
  destruct (Forall2_lookup_l _ _ _ _ _ Hl Hn) as ([kn kd] & Hkn & Hkd).
  simpl in Hkd. destruct (take_col lc rows.*1) as [d|] eqn:Hd; [simpl in Hkd|done].
  rewrite bool_decide_eq_false_2 in Hkd by (intros ?; done). simpl in Hkd.
  injection Hkd as <- <-.
  destruct (key_column_take_Some _ _ _ _ Hlk Hd) as (ks & Hks & Htake).
  assert (Hgk : getcol (filled (lcols ++ rcols)) key_left = Some d).
  { apply getcol_NoDup; [by rewrite filled_names|].
    unfold filled. apply list_elem_of_fmap. exists (key_left, unmasked d).
    split; [simpl; by rewrite filled_unmasked|].
    apply elem_of_app. left. by eapply list_elem_of_lookup_2. }
  (* the column [c] of the result *)
  set (oc := filled_col (take_masked_col rc rows.*2)).
  assert (Hgc : getcol (filled (lcols ++ rcols)) c = Some oc).
  { apply getcol_NoDup; [by rewrite filled_names|].
    unfold filled. apply list_elem_of_fmap. exists (c, take_masked_col rc rows.*2).
    split; [done|]. apply elem_of_app. right.
    apply list_elem_of_fmap. exists (c, rc). simpl. rewrite Hleft. split; [done|].
    apply list_elem_of_filter. split; [done|]. by apply getcol_elem_of. }
  exists oc, ks. unfold key_of. rewrite Hgc, Hgk. simpl. split_and!; [done..| |].
  { unfold oc. rewrite col_len_filled_take_masked.
    apply length_mapM in Htake. by rewrite <- Htake, !length_fmap. }
  intros r k Hr'.
  apply mapM_Some in Htake.
  destruct (Forall2_lookup_r _ _ _ _ _ Htake Hr') as (i & Hi & Hik).
  apply list_lookup_fmap_Some in Hi as ([i' oj] & -> & Hrow). simpl in Hik.
  pose proof (proj1 (Forall_forall _ _) (join_rows_spec lk rk) (i', oj)
                ltac:(by eapply list_elem_of_lookup_2)) as (k' & Hk' & Hoj).
  simpl in Hk', Hoj. assert (k' = k) as -> by congruence.
  assert (Hcell := cell_at_take_masked rc rows.*2 r oj
                     ltac:(by rewrite list_lookup_fmap, Hrow)).
  fold oc in Hcell. split.
  - intros Hnotin. destruct oj as [j|]; [|done].
    exfalso. apply Hnotin. by eapply list_elem_of_lookup_2.
  - intros Hin. destruct oj as [j|]; [|done]. exists j. split; [done|].
    rewrite Hcell.
    destruct (cell_at_is_Some rc j) as [v ->]; [|done].
    apply lookup_lt_Some in Hoj. rewrite (key_column_length _ _ Hrk) in Hoj.
    apply getcol_elem_of in Hkc, Hc.
    pose proof (proj1 (Forall_forall _ _) Hwf _ Hc) as Hlc.
    pose proof (proj1 (Forall_forall _ _) Hwf _ Hkc) as Hlk'.
    simpl in Hlc, Hlk'. lia.
Qed.

(** X23. On table objects, [join_tables] returns a table that was not in
    the caller's heap and that holds what the join of the values of
    [left] and [right] gives; it raises exactly when that join gives
    nothing. *)
Theorem join_tables_st_result h left right L R key_left key_right cols_right :
  h !! left = Some L → h !! right = Some R →
  match join_tables_st left right key_left key_right cols_right h with
  | (Some q, h') =>
      h !! q = None ∧
      ∃ out, h' !! q = Some out ∧
             join_tables L R key_left key_right cols_right = Some out
  | (None, _) => join_tables L R key_left key_right cols_right = None
  end.
Proof.
  intros HL HR.
  pose proof (join_tables_st_value h left right L R key_left key_right cols_right
                HL HR h eq_refl) as H.
  destruct (join_tables_st _ _ _ _ _ h) as [[q|] h']; [|done].
  destruct H as (Hq & [out Hout] & Heq). split; [done|]. exists out. by rewrite <- Heq.
Qed.

End JoinMore.
(** ** What the constructors leave *)

Lemma getcol_filter_ne (t : Table) name c :
  name ≠ c → getcol (filter (λ nc : string * coldata, nc.1 ≠ name) t) c = getcol t c.
Proof.
  intros Hne. unfold Table in *. induction t as [|[n c0] t IH]; [done|].
  rewrite filter_cons. case_decide as Hn; simpl in *.
  - case_bool_decide; [done|apply IH].
  - subst n. rewrite bool_decide_eq_false_2 by done. apply IH.
Qed.

Lemma getcol_remove_ne t name t' c :
  remove_column t name = Some t' → name ≠ c → getcol t' c = getcol t c.
Proof.
  unfold remove_column. destruct (has_col t name); [|done]. intros [= <-] Hne.
  by apply getcol_filter_ne.
Qed.

Lemma relabel_ne t name w old new t' c :
  relabel t name w old new = Some t' → name ≠ c → getcol t' c = getcol t c.
Proof.
  intros H Hne. destruct (relabel_eq _ _ _ _ _ _ H) as (_ & _ & _ & Hfr). by apply Hfr.
Qed.

Lemma relabel_gone t name w old new t' :
  relabel t name w old new = Some t' → old ≠ truncate w new →
  ∃ d, strcol t' name = Some d ∧ old ∉ d.
Proof.
  intros H Hne. destruct (relabel_eq _ _ _ _ _ _ H) as (d & _ & Hd & _).
  eexists. split; [exact Hd|].
  intros (x & Hx & _)%list_elem_of_fmap. by case_bool_decide.
Qed.

Lemma length_pos_nonempty (s : string) : 0 < String.length s ↔ s ≠ "".
Proof. destruct s; simpl; split; (done || lia). Qed.

Lemma take_col_StrCol c idx d' :
  take_col c idx = Some (StrCol d') → ∃ d, c = StrCol d ∧ take d idx = Some d'.
Proof.
  destruct c; simpl; intros (l & Hl & [= <-])%fmap_Some. eauto.
Qed.

Lemma take_col_FloatCol c idx d' :
  take_col c idx = Some (FloatCol d') → ∃ d, c = FloatCol d ∧ take d idx = Some d'.
Proof.
  destruct c; simpl; intros (l & Hl & [= <-])%fmap_Some. eauto.
Qed.

(** A text column of the file, once stripped, and a column of floats. *)
Lemma strip_columns_StrCol table name d :
  getcol (strip_columns table) name = Some (StrCol d) →
  ∃ d0, strcol table name = Some d0 ∧ d = strip <$> d0.
Proof.
  rewrite getcol_strip_columns. unfold strcol.
  destruct (getcol table name) as [[d0| | | |]|]; simpl; try done.
  intros [= <-]. eauto.
Qed.

Lemma strip_columns_FloatCol table name d :
  getcol (strip_columns table) name = Some (FloatCol d) → floatcol table name = Some d.
Proof.
  rewrite getcol_strip_columns. unfold floatcol.
  destruct (getcol table name) as [[d0| | | |]|]; simpl; try done.
  by intros [= <-].
Qed.

Section ConstructorFacts.
Context {lib : Library}.
Variable reg : string → list string.
Variable mul : float → float → float.
Variable div : float → float → float.
Variable exp : float → float.
Variable pow : float → float → float.

(** X24. What [Catalog.__init__] leaves besides the column [extended]:
    the directory it was given, every column the table had other than
    [extended] and [extdir] as it was, and a column [extdir] with the
    directory on every row.  It returns only when the table has the
    columns [RAJ2000] and [DEJ2000]. *)
Theorem Catalog_init_frame table extdir self :
  Catalog_init table extdir = Some self →
  _extdir self = extdir ∧
  is_Some (getcol table "RAJ2000") ∧ is_Some (getcol table "DEJ2000") ∧
  (∀ c, c ≠ "extended" → c ≠ "extdir" → is_Some (getcol table c) →
     getcol (_table self) c = getcol table c) ∧
  strcol (_table self) "extdir" = Some (replicate (len table) extdir).
Proof.
  intros H.
  destruct (Catalog_init_columns _ _ _ H)
    as (? & (ra & dec & Hra & Hdec & _) & _ & _ & _ & ? & _ & ?).
  rewrite Hra, Hdec. split_and!; eauto.
Qed.

(** X25. [CatalogFPY.__init__] raises when the table has no column
    [Spatial_Filename]: it reads the column before the base constructor,
    which would add it, runs. *)
Theorem CatalogFPY_init_requires_filename table extdir :
  getcol table "Spatial_Filename" = None → CatalogFPY_init table extdir = None.
Proof.
  intros Hnone. unfold CatalogFPY_init, relabel, strcol.
  by rewrite getcol_strip_columns, Hnone.
Qed.

(** X26. After [CatalogFPY.__init__], every cell of [Spatial_Filename] is
    the cell of the file with white space stripped, but that a cell that
    reads [None] once stripped is the empty string; the directory is the
    one given, or the archive [Extended_archive_v18] of the data
    directory. *)
Theorem CatalogFPY_init_filename table extdir self :
  CatalogFPY_init table extdir = Some self →
  _extdir self = default "$FERMIPY_DATA_DIR/catalogs/Extended_archive_v18" extdir ∧
  ∃ file_names names,
    strcol table "Spatial_Filename" = Some file_names ∧
    strcol (_table self) "Spatial_Filename" = Some names ∧
    length names = length file_names ∧
    ∀ (i : nat) (s : string), file_names !! i = Some s →
      names !! i = Some (if bool_decide (strip s = "None") then "" else strip s).
Proof.
  unfold CatalogFPY_init. intros H.
  destruct (relabel (strip_columns table) _ _ _ _) as [t1|] eqn:H1; [simpl in H|done].
  destruct (Catalog_init_columns _ _ _ H) as (Hdir & _ & _ & _ & _ & Hfr & _).
  split; [done|].
  destruct (relabel_eq _ _ _ _ _ _ H1) as (d & Hd & Hd' & _).
  unfold strcol in Hd. rewrite getcol_strip_columns in Hd.
  destruct (getcol table "Spatial_Filename") as [[d0| | | |]|] eqn:Hc; try done.
  simpl in Hd. injection Hd as <-.
  exists d0, ((λ x, if bool_decide (x = "None") then "" else x) <$> (strip <$> d0)).
  split_and!.
  - unfold strcol. by rewrite Hc.
  - unfold strcol in *. rewrite Hfr; [done..|].
    destruct (getcol t1 "Spatial_Filename"); [eauto|done].
  - by rewrite !length_fmap.
  - intros i s Hi. by rewrite !list_lookup_fmap, Hi.
Qed.

(** The columns the constructors take from the table of extended sources. *)
Local Abbreviation extsrc_columns :=
  ["Model_Form"; "Model_SemiMajor"; "Model_SemiMinor"; "Model_PosAng";
   "Spatial_Filename"; "Spatial_Function"].

(** The steps of a constructor of the family that returns.  [idx] lists
    the rows of the file in the order of the rows of the catalog. *)
Lemma Catalog4FGL_family_init_steps archive new_label fp
    table width table_extsrc extdir self :
  (∀ t t' c, fp t = Some t' → c ≠ "param_values" → getcol t' c = getcol t c) →
  Catalog4FGL_family_init mul archive new_label fp table width table_extsrc extdir
    = Some self →
  ∃ lk idx t2 base t8 t9 t10,
    key_of (strip_columns table) "Extended_Source_Name" = Some lk ∧
    (∀ i, i ∈ idx ↔ i < length lk) ∧
    (∀ n c, getcol (strip_columns table) n = Some c →
       n = "Extended_Source_Name" ∨ n ∉ extsrc_columns →
       ∃ c', getcol t2 n = Some c' ∧ take_col c idx = Some c') ∧
    (∃ ks, key_of t2 "Source_Name" = Some ks ∧ Sorted keyval_le ks) ∧
    Catalog_init t2 (default (os_path_join "$FERMIPY_DATA_DIR" ["catalogs"; archive])
                       extdir) = Some base ∧
    (∃ names, strcol (_table base) "Extended_Source_Name" = Some names ∧
       boolcol t8 "extended" =
         Some ((λ n, bool_decide (0 < String.length (strip n))) <$> names) ∧
       boolcol t8 "Extended" =
         Some ((λ n, bool_decide (0 < String.length (strip n))) <$> names)) ∧
    (∀ c, c ≠ "extended" → c ≠ "Extended" → c ≠ "Spatial_Function" →
          getcol t8 c = getcol (_table base) c) ∧
    (∃ d, strcol t8 "Spatial_Function" = Some d ∧ "RadialGauss" ∉ d) ∧
    (∃ signif, floatcol t8 "Signif_Avg" = Some signif ∧
       setitem t8 "TS" (FloatCol (zip_with mul signif signif)) = Some t9) ∧
    match new_label with
    | Some l => relabel t9 "SpectrumType" width "PLSuperExpCutoff" l
    | None => Some t9
    end = Some t10 ∧
    fp t10 = Some (_table self) ∧
    (∀ c, c ≠ "param_values" → getcol (_table self) c = getcol t10 c).
Proof.
  intros Hfp H. unfold Catalog4FGL_family_init in H.
  destruct (add_spatial_function _) as [ext|]; [simpl in H|done].
  destruct (join_tables _ _ _ _ _) as [t1|] eqn:H1; [simpl in H|done].
  destruct (sort_table t1 _) as [t2|] eqn:H2; [simpl in H|done].
  destruct (Catalog_init t2 _) as [[t3 d]|] eqn:H3; [simpl in H|done].
  destruct (strcol t3 "Extended_Source_Name") as [names|] eqn:Hn; [simpl in H|done].
  destruct (setitem t3 "extended" _) as [t4|] eqn:H4; [simpl in H|done].
  destruct (setitem t4 "Extended" _) as [t5|] eqn:H5; [simpl in H|done].
  destruct (strcol t5 "Spatial_Function") as [scol|]; [simpl in H|done].
  destruct (remove_column t5 _) as [t6|] eqn:H6; [simpl in H|done].
  destruct (setitem t6 "Spatial_Function" _) as [t7|] eqn:H7; [simpl in H|done].
  destruct (relabel t7 _ _ _ _) as [t8|] eqn:H8; [simpl in H|done].
  destruct (floatcol t8 _) as [signif|] eqn:Hs; [simpl in H|done].
  destruct (setitem t8 "TS" _) as [t9|] eqn:H9; [simpl in H|done].
  destruct (match new_label with Some l => _ | None => _ end) as [t10|] eqn:H10;
    [simpl in H|done].
  destruct (fp t10) as [t11|] eqn:H11; [simpl in H|done].
  injection H as <-. simpl.
  destruct (join_sort_rows _ _ _ _ _ _ _ _ H1 H2) as (lk & idx & Hlk & _ & Hidx & Hcols).
  exists lk, idx, t2, (mkCatalog t3 d), t8, t9, t10.
  split_and!; [done|done|done|by eapply sort_table_sorted|done| | | | |done|done|].
  - exists names. split; [done|]. unfold boolcol.
    rewrite !(relabel_ne _ _ _ _ _ _ _ H8) by done.
    rewrite !(setitem_ne _ _ _ _ _ H7) by done.
    rewrite !(getcol_remove_ne _ _ _ _ H6) by done.
    rewrite (setitem_eq _ _ _ _ H5).
    rewrite (setitem_ne _ _ _ _ _ H5) by done.
    by rewrite (setitem_eq _ _ _ _ H4).
  - intros c ? ? ?. simpl.
    rewrite (relabel_ne _ _ _ _ _ _ _ H8) by done.
    rewrite (setitem_ne _ _ _ _ _ H7) by done.
    rewrite (getcol_remove_ne _ _ _ _ H6) by done.
    rewrite (setitem_ne _ _ _ _ _ H5) by done.
    by rewrite (setitem_ne _ _ _ _ _ H4).
  - by apply (relabel_gone _ _ _ _ _ _ H8).
  - by exists signif.
  - intros c ?. by apply (Hfp _ _ _ H11).
Qed.

Lemma init_4FGL_family_inv cls init :
  init_4FGL_family reg mul exp pow cls = Some init →
  ∃ archive new_label fcls,
    has_fill_params fcls = true ∧
    new_label = (if bool_decide (cls = CatalogFL8Y) then None
                 else if bool_decide (cls ∈ [Catalog4FGL; Catalog4FGLDR2])
                 then Some "PLSuperExpCutoff2" else Some "PLSuperExpCutoff4") ∧
    init = Catalog4FGL_family_init mul archive new_label (fill_params reg mul div exp pow fcls).
Proof.
  intros Hcls. destruct cls; try discriminate Hcls; injection Hcls as <-.
  - by exists "Extended_archive_v18", None, CatalogFL8Y.
  - by exists "Extended_8years", (Some "PLSuperExpCutoff2"), Catalog4FGL.
  - by exists "Extended_8years", (Some "PLSuperExpCutoff2"), Catalog4FGLDR2.
  - by exists "Extended_12years", (Some "PLSuperExpCutoff4"), Catalog4FGLDR3.
  - by exists "Extended_14years", (Some "PLSuperExpCutoff4"), Catalog4FGLDR4.
Qed.

Lemma init_4FGL_family_steps cls init table width table_extsrc extdir self :
  init_4FGL_family reg mul exp pow cls = Some init →
  init table width table_extsrc extdir = Some self →
  ∃ archive fcls lk idx t2 base t8 t9 t10,
    key_of (strip_columns table) "Extended_Source_Name" = Some lk ∧
    (∀ i, i ∈ idx ↔ i < length lk) ∧
    (∀ n c, getcol (strip_columns table) n = Some c →
       n = "Extended_Source_Name" ∨ n ∉ extsrc_columns →
       ∃ c', getcol t2 n = Some c' ∧ take_col c idx = Some c') ∧
    (∃ ks, key_of t2 "Source_Name" = Some ks ∧ Sorted keyval_le ks) ∧
    Catalog_init t2 (default (os_path_join "$FERMIPY_DATA_DIR" ["catalogs"; archive])
                       extdir) = Some base ∧
    (∃ names, strcol (_table base) "Extended_Source_Name" = Some names ∧
       boolcol t8 "extended" =
         Some ((λ n, bool_decide (0 < String.length (strip n))) <$> names) ∧
       boolcol t8 "Extended" =
         Some ((λ n, bool_decide (0 < String.length (strip n))) <$> names)) ∧
    (∀ c, c ≠ "extended" → c ≠ "Extended" → c ≠ "Spatial_Function" →
          getcol t8 c = getcol (_table base) c) ∧
    (∃ d, strcol t8 "Spatial_Function" = Some d ∧ "RadialGauss" ∉ d) ∧
    (∃ signif, floatcol t8 "Signif_Avg" = Some signif ∧
       setitem t8 "TS" (FloatCol (zip_with mul signif signif)) = Some t9) ∧
    (if bool_decide (cls = CatalogFL8Y) then Some t9
     else relabel t9 "SpectrumType" width "PLSuperExpCutoff"
            (if bool_decide (cls ∈ [Catalog4FGL; Catalog4FGLDR2])
             then "PLSuperExpCutoff2" else "PLSuperExpCutoff4")) = Some t10 ∧
    fill_params reg mul div exp pow fcls t10 = Some (_table self) ∧
    (∀ c, c ≠ "param_values" → getcol (_table self) c = getcol t10 c).
Proof.
  intros Hcls H.
  destruct (init_4FGL_family_inv _ _ Hcls) as (archive & new_label & fcls & Hf & Hl & ->).
  destruct (Catalog4FGL_family_init_steps _ _ _ _ _ _ _ _
              (λ t t' c Ht, proj1 (fill_params_rows reg mul div exp pow fcls t t' Ht) c) H)
    as (lk & idx & t2 & base & t8 & t9 & t10 &
        ? & ? & ? & ? & ? & ? & ? & ? & ? & H10 & ? & ?).
  exists archive, fcls, lk, idx, t2, base, t8, t9, t10. split_and!; try done.
  revert H10. rewrite Hl. by repeat case_bool_decide.
Qed.

(** A constructor of the family that returns: the row numbers [idx] of the
    file in the order of the rows of the catalog, and the table [t9] before
    the relabelling of the spectrum types and [_fill_params]. *)
Lemma init_4FGL_family_rows cls init table width table_extsrc extdir self :
  init_4FGL_family reg mul exp pow cls = Some init →
  init table width table_extsrc extdir = Some self →
  ∃ fcls file_names idx names t9 t10,
    strcol table "Extended_Source_Name" = Some file_names ∧
    (∀ i, i ∈ idx ↔ i < length file_names) ∧
    take (strip <$> file_names) idx = Some names ∧
    (∀ n c, getcol (strip_columns table) n = Some c →
       n = "Extended_Source_Name" ∨ n ∉ extsrc_columns →
       n ≠ "extended" → n ≠ "Extended" → n ≠ "extdir" → n ≠ "TS" →
       ∃ c', getcol t9 n = Some c' ∧ take_col c idx = Some c') ∧
    strcol t9 "Extended_Source_Name" = Some names ∧
    boolcol t9 "extended" =
      Some ((λ n, bool_decide (0 < String.length (strip n))) <$> names) ∧
    boolcol t9 "Extended" =
      Some ((λ n, bool_decide (0 < String.length (strip n))) <$> names) ∧
    (∃ signif, floatcol t9 "Signif_Avg" = Some signif ∧
       floatcol t9 "TS" = Some (zip_with mul signif signif)) ∧
    (∃ d, strcol t9 "Spatial_Function" = Some d ∧ "RadialGauss" ∉ d) ∧
    (∃ ks, key_of t9 "Source_Name" = Some ks ∧ Sorted keyval_le ks) ∧
    (if bool_decide (cls = CatalogFL8Y) then Some t9
     else relabel t9 "SpectrumType" width "PLSuperExpCutoff"
            (if bool_decide (cls ∈ [Catalog4FGL; Catalog4FGLDR2])
             then "PLSuperExpCutoff2" else "PLSuperExpCutoff4")) = Some t10 ∧
    (∀ c, c ≠ "SpectrumType" → getcol t10 c = getcol t9 c) ∧
    fill_params reg mul div exp pow fcls t10 = Some (_table self) ∧
    (∀ c, c ≠ "param_values" → getcol (_table self) c = getcol t10 c).
Proof.
  intros Hcls H.
  destruct (init_4FGL_family_steps _ _ _ _ _ _ _ Hcls H)
    as (archive & fcls & lk & idx & t2 & base & t8 & t9 & t10 &
        Hlk & Hidx & Hcols & (ks & Hks & Hsorted) & H3 & (names & Hn & He & HE) &
        H8 & (sf & Hsf & Hgone) & (signif & Hs & H9) & H10 & Hfp & H11).
  destruct (Catalog_init_columns _ _ _ H3) as (_ & _ & _ & _ & _ & Hfr & _).
  assert (Hlab : ∀ c, c ≠ "SpectrumType" → getcol t10 c = getcol t9 c).
  { intros c Hc. destruct (bool_decide (cls = CatalogFL8Y)); [congruence|].
    by eapply relabel_ne. }
  assert (Hkeep : ∀ n c, getcol (strip_columns table) n = Some c →
      n = "Extended_Source_Name" ∨ n ∉ extsrc_columns →
      n ≠ "extended" → n ≠ "Extended" → n ≠ "extdir" → n ≠ "TS" →
      ∃ c', getcol t9 n = Some c' ∧ take_col c idx = Some c').
  { intros n c Hc Hn' ? ? ? ?.
    destruct (Hcols _ _ Hc Hn') as (c' & Hc' & Ht). exists c'. split; [|done].
    rewrite (setitem_ne _ _ _ _ _ H9) by done.
    rewrite H8; [|done..|].
    2:{ destruct Hn' as [->|Hn']; [done|]. intros ->. apply Hn'. set_solver. }
    rewrite Hfr, Hc'; [done..|]. rewrite Hc'. eauto. }
  unfold key_of in Hlk.
  destruct (getcol (strip_columns table) "Extended_Source_Name") as [kc|] eqn:Hkc;
    [simpl in Hlk|done].
  destruct (Hkeep _ _ Hkc) as (c' & Hc' & Ht); [by left|done..|].
  assert (Hsame : getcol t9 "Extended_Source_Name"
                  = getcol (_table base) "Extended_Source_Name").
  { rewrite (setitem_ne _ _ _ _ _ H9) by done. by rewrite H8. }
  unfold strcol in Hn. rewrite <- Hsame, Hc' in Hn. simpl in Hn.
  destruct c' as [d'| | | |]; try done. injection Hn as ->.
  destruct (take_col_StrCol _ _ _ Ht) as (d & -> & Hd).
  destruct (strip_columns_StrCol _ _ _ Hkc) as (file_names & Hfile & ->).
  simpl in Hlk. injection Hlk as <-. rewrite !length_fmap in Hidx.
  exists fcls, file_names, idx, names, t9, t10.
  split_and!; [done|done|done|done| | | | | | |done|done|done|done].
  - unfold strcol. by rewrite Hc'.
  - unfold boolcol in *. by rewrite (setitem_ne _ _ _ _ _ H9).
  - unfold boolcol in *. by rewrite (setitem_ne _ _ _ _ _ H9).
  - exists signif. unfold floatcol in *.
    rewrite (setitem_ne _ _ _ _ _ H9) by done. by rewrite (setitem_eq _ _ _ _ H9).
  - exists sf. unfold strcol in *. by rewrite (setitem_ne _ _ _ _ _ H9).
  - exists ks. split; [|done]. rewrite <- Hks. unfold key_of.
    rewrite (setitem_ne _ _ _ _ _ H9) by done. rewrite H8 by done.
    rewrite Hfr; [done..|].
    unfold key_of in Hks. destruct (getcol t2 "Source_Name"); [eauto|done].
Qed.

(** C6. After the constructor of [Catalog4FGL], [CatalogFL8Y],
    [Catalog4FGLDR2], [Catalog4FGLDR3] or [Catalog4FGLDR4], the columns
    [extended] and [Extended] have a cell for every cell of
    [Extended_Source_Name], and the cell is true on exactly the rows
    whose extended-source name is not empty once white space is stripped.
    The rule of the base constructor (file name or spatial function
    present) no longer decides the column.  The rows are those of the
    file: every source of the file has a row of the catalog, every row of
    the catalog is a source of the file, and its extended-source name is
    the one of the file with white space stripped. *)
Theorem init_4FGL_family_extended cls init table width table_extsrc extdir self :
  init_4FGL_family reg mul exp pow cls = Some init →
  init table width table_extsrc extdir = Some self →
  ∃ file_names idx names extended Extended,
    strcol table "Extended_Source_Name" = Some file_names ∧
    (∀ i, i ∈ idx ↔ i < length file_names) ∧
    take (strip <$> file_names) idx = Some names ∧
    strcol (_table self) "Extended_Source_Name" = Some names ∧
    boolcol (_table self) "extended" = Some extended ∧
    boolcol (_table self) "Extended" = Some Extended ∧
    length extended = length names ∧ length Extended = length names ∧
    ∀ (i : nat) (name : string), names !! i = Some name →
      ∃ e, extended !! i = Some e ∧ Extended !! i = Some e ∧
           (e = true ↔ strip name ≠ "").
Proof.
  intros Hcls H.
  destruct (init_4FGL_family_rows _ _ _ _ _ _ _ Hcls H)
    as (fcls & file_names & idx & names & t9 & t10 & Hfile & Hidx & Htake & _ &
        Hn & He & HE & _ & _ & _ & _ & Hlab & _ & Hfr).
  eexists file_names, idx, names, _, _. unfold strcol, boolcol in *.
  rewrite !Hfr, !Hlab by done. rewrite Hn, He, HE.
  split_and!; [done..|by rewrite length_fmap|by rewrite length_fmap|].
  intros i name Hi. eexists. rewrite !list_lookup_fmap, Hi. simpl.
  split_and!; [done..|]. rewrite bool_decide_eq_true. apply length_pos_nonempty.
Qed.

(** X27. After the constructor of a class of the 4FGL family, the rows of
    the table are in ascending order of [Source_Name]. *)
Theorem init_4FGL_family_sorted cls init table width table_extsrc extdir self :
  init_4FGL_family reg mul exp pow cls = Some init →
  init table width table_extsrc extdir = Some self →
  ∃ ks, key_of (_table self) "Source_Name" = Some ks ∧ Sorted keyval_le ks.
Proof.
  intros Hcls H.
  destruct (init_4FGL_family_rows _ _ _ _ _ _ _ Hcls H)
    as (fcls & file_names & idx & names & t9 & t10 & _ & _ & _ & _ &
        _ & _ & _ & _ & _ & (ks & Hks & Hsorted) & _ & Hlab & _ & Hfr).
  exists ks. split; [|done]. rewrite <- Hks. unfold key_of.
  by rewrite Hfr, Hlab.
Qed.

(** X28. After the constructor of a class of the 4FGL family, the cell of
    [TS] is the product of the cell of [Signif_Avg] with itself on every
    row, the product numpy's in the dtype of the column; and the cells of
    [Signif_Avg] are those of the file, on the rows of the file in the
    order of the catalog. *)
Theorem init_4FGL_family_TS cls init table width table_extsrc extdir self :
  init_4FGL_family reg mul exp pow cls = Some init →
  init table width table_extsrc extdir = Some self →
  ∃ file_names idx signif,
    strcol table "Extended_Source_Name" = Some file_names ∧
    (∀ i, i ∈ idx ↔ i < length file_names) ∧
    floatcol (_table self) "Signif_Avg" = Some signif ∧
    floatcol (_table self) "TS" = Some (zip_with mul signif signif) ∧
    ∀ file_signif, floatcol table "Signif_Avg" = Some file_signif →
      take file_signif idx = Some signif.
Proof.
  intros Hcls H.
  destruct (init_4FGL_family_rows _ _ _ _ _ _ _ Hcls H)
    as (fcls & file_names & idx & names & t9 & t10 & Hfile & Hidx & _ & Hkeep &
        _ & _ & _ & (signif & Hs & HTS) & _ & _ & _ & Hlab & _ & Hfr).
  exists file_names, idx, signif. unfold floatcol in *.
  rewrite !Hfr, !Hlab by done. split_and!; [done..|].
  intros file_signif Hf.
  destruct (Hkeep "Signif_Avg" (FloatCol file_signif)) as (c' & Hc' & Ht);
    [|right; set_solver|done..|].
  { rewrite getcol_strip_columns.
    destruct (getcol table "Signif_Avg") as [[| |?| |]|]; try done.
    simpl in *. congruence. }
  rewrite Hc' in Hs. simpl in Ht.
  apply fmap_Some in Ht as (l & Hl & ->). simpl in Hs. congruence.
Qed.

(** X29. After the constructor of a class of the 4FGL family, no cell of
    [Spatial_Function] reads [RadialGauss].  The cells of [SpectrumType]
    are those of the file with white space stripped, on the rows of the
    file in the order of the catalog, but that, in the classes other than
    [CatalogFL8Y], a cell that reads [PLSuperExpCutoff] holds the new
    label of the class ([PLSuperExpCutoff2] in [Catalog4FGL] and
    [Catalog4FGLDR2], [PLSuperExpCutoff4] in [Catalog4FGLDR3] and
    [Catalog4FGLDR4]) cut to the width of the column.  In these classes
    no cell reads [PLSuperExpCutoff] when the column is 17 bytes wide or
    wider; in a column 16 bytes wide the label cut is [PLSuperExpCutoff]
    again, and the cells are those of the file. *)
Theorem init_4FGL_family_labels cls init table width table_extsrc extdir self :
  init_4FGL_family reg mul exp pow cls = Some init →
  init table width table_extsrc extdir = Some self →
  ∃ file_names idx functions types,
    strcol table "Extended_Source_Name" = Some file_names ∧
    (∀ i, i ∈ idx ↔ i < length file_names) ∧
    strcol (_table self) "Spatial_Function" = Some functions ∧
    strcol (_table self) "SpectrumType" = Some types ∧
    ("RadialGauss" ∉ functions) ∧
    (cls ≠ CatalogFL8Y → 17 ≤ width → "PLSuperExpCutoff" ∉ types) ∧
    ∀ file_types, strcol table "SpectrumType" = Some file_types →
      let label :=
        if bool_decide (cls ∈ [Catalog4FGL; Catalog4FGLDR2])
        then "PLSuperExpCutoff2" else "PLSuperExpCutoff4" in
      take ((λ s, if bool_decide (cls ≠ CatalogFL8Y ∧ strip s = "PLSuperExpCutoff")
                  then truncate width label else strip s) <$> file_types) idx
        = Some types ∧
      (width = 16 ∨ cls = CatalogFL8Y → take (strip <$> file_types) idx = Some types).
Proof.
  intros Hcls H.
  destruct (init_4FGL_family_rows _ _ _ _ _ _ _ Hcls H)
    as (fcls & file_names & idx & names & t9 & t10 & Hfile & Hidx & _ & Hkeep &
        _ & _ & _ & _ & (sf & Hsf & Hgone) & _ & H10 & Hlab & Hfp & Hfr).
  destruct (fill_params_rows _ _ _ _ _ _ _ _ Hfp) as (_ & types & _ & Htypes & _).
  assert (Hself : strcol (_table self) "SpectrumType" = strcol t10 "SpectrumType").
  { unfold strcol. by rewrite Hfr. }
  exists file_names, idx, sf, types. split_and!; [done|done| |done|done| |].
  - unfold strcol in *. by rewrite Hfr, Hlab.
  - intros Hne Hw. rewrite bool_decide_eq_false_2 in H10 by done.
    destruct (relabel_gone _ _ _ _ _ _ H10) as (d' & Hd' & Hgone').
    { assert (Hlen : ∀ l, String.length l = 17 → truncate width l = l).
      { intros l Hl. unfold truncate.
        replace width with (String.length l + (width - 17)) by lia.
        clear. induction l as [|a l IH]; simpl; [by destruct (_ - _)|]. by rewrite IH. }
      case_bool_decide; by rewrite Hlen. }
    rewrite Hself in Htypes. congruence.
  - intros file_types Hft label.
    destruct (Hkeep "SpectrumType" (StrCol (strip <$> file_types))) as (c' & Hc' & Ht);
      [|right; set_solver|done..|].
    { rewrite getcol_strip_columns. unfold strcol in Hft.
      destruct (getcol table "SpectrumType") as [[?| | | |]|]; try done.
      simpl in *. congruence. }
    simpl in Ht. apply fmap_Some in Ht as (l & Hl & ->).
    assert (Hexact : take ((λ s, if bool_decide (cls ≠ CatalogFL8Y ∧
                                               strip s = "PLSuperExpCutoff")
                                 then truncate width label else strip s) <$> file_types)
                       idx = Some types).
    { rewrite Hself in Htypes. destruct (decide (cls = CatalogFL8Y)) as [->|Hne].
      - rewrite bool_decide_eq_true_2 in H10 by done. injection H10 as <-.
        unfold strcol in Htypes. rewrite Hc' in Htypes. injection Htypes as <-.
        rewrite <- Hl. reflexivity.
      - rewrite bool_decide_eq_false_2 in H10 by done.
        destruct (relabel_eq _ _ _ _ _ _ H10) as (d & Hd & Hd' & _).
        unfold strcol in Hd. rewrite Hc' in Hd. injection Hd as <-.
        rewrite Hd' in Htypes. injection Htypes as <-.
        pose proof (take_fmap (λ x, if bool_decide (x = "PLSuperExpCutoff")
                                    then truncate width label else x) _ _ _ Hl) as Hl'.
        rewrite <- list_fmap_compose in Hl'. etrans; [|exact Hl']. f_equal.
        apply list_fmap_ext. intros i s _. simpl.
        repeat case_bool_decide; naive_solver. }
    split; [done|]. intros Hw. rewrite <- Hexact. f_equal.
    apply list_fmap_ext. intros i s _.
    destruct (decide (cls ≠ CatalogFL8Y ∧ strip s = "PLSuperExpCutoff")) as [[Hne Hs]|Hn];
      [rewrite bool_decide_eq_true_2 by done|by rewrite bool_decide_eq_false_2].
    destruct Hw as [->|?]; [|done].
    rewrite Hs. unfold label.
    by destruct (bool_decide (cls ∈ [Catalog4FGL; Catalog4FGLDR2])).
Qed.

End ConstructorFacts.
(** ** The constructor of [Catalog2FHL] *)

Lemma key_of_strip_columns table key lk :
  key_of (strip_columns table) key = Some lk →
  ∃ c, getcol table key = Some c ∧ length lk = col_len c.
Proof.
  unfold key_of. rewrite getcol_strip_columns.
  destruct (getcol table key) as [c|]; [simpl|done]. intros Hk.
  exists c. split; [done|]. rewrite (key_column_length _ _ Hk).
  destruct c; simpl; by rewrite ?length_fmap.
Qed.

Section Constructor2FHLFacts.
Context {lib : Library}.
Variable eval_norm : float → list float → float → float → list float → list float.

(** X30. After [Catalog2FHL.__init__], every source is a power law with
    the pivot energy 50000: on every row the spectrum type is [PowerLaw],
    the cell of [Pivot_Energy] is 50000, and the parameter vector holds
    the flux density, [-1] times the spectral index and 50000 in its
    slots 0, 1 and 2 and [nan] in the seven others.  The rows are those
    of the file: every source of the file has a row of the catalog, and
    the spectral index of a row is the one of its source in the file. *)
Theorem Catalog2FHL_init_PowerLaw table table_extsrc extdir self :
  Catalog2FHL_init eval_norm table table_extsrc extdir = Some self →
  ∃ types pv,
    strcol (_table self) "SpectrumType" = Some types ∧
    veccol (_table self) "param_values" = Some pv ∧
    length pv = length types ∧
    (∀ i : nat, i < length types →
      types !! i = Some "PowerLaw" ∧
      cell (_table self) "Pivot_Energy" i = Some 50000%float ∧
      ∃ flux index,
        cell (_table self) "Flux_Density" i = Some flux ∧
        cell (_table self) "Spectral_Index" i = Some index ∧
        pv !! i = Some [flux; (-1 * index)%float; 50000%float;
                        nan; nan; nan; nan; nan; nan; nan]) ∧
    ∃ names idx,
      getcol table "Source_Name" = Some names ∧
      (∀ i, i ∈ idx ↔ i < col_len names) ∧
      ∀ file_index, floatcol table "Spectral_Index" = Some file_index →
        ∃ index, take file_index idx = Some index ∧
                 floatcol (_table self) "Spectral_Index" = Some index.
Proof.
  unfold Catalog2FHL_init. intros H.
  destruct (add_spatial_function _) as [ext|]; [simpl in H|done].
  destruct (join_tables _ _ _ _ _) as [t1|] eqn:H1; [simpl in H|done].
  destruct (sort_table t1 _) as [t2|] eqn:H2; [simpl in H|done].
  destruct (Catalog_init t2 _) as [[t3 d]|] eqn:H3; [simpl in H|done].
  destruct (floatcol t3 "Spectral_Index") as [index|] eqn:Hindex; [simpl in H|done].
  destruct (floatcol t3 "Flux50") as [flux50|]; [simpl in H|done].
  destruct (setitem t3 "Flux_Density" _) as [ta|] eqn:Ha; [simpl in H|done].
  destruct (setscalar ta "Pivot_Energy" _) as [tb|] eqn:Hb; [simpl in H|done].
  destruct (setscalar tb "SpectrumType" _) as [tc|] eqn:Hc; [simpl in H|done].
  destruct (Catalog2FHL_fill_params tc) as [out|] eqn:Hout; [simpl in H|done].
  injection H as <-. simpl.
  destruct (fill_params_rows (λ _, []) (λ x _, x) (λ x _, x) (λ x, x) (λ x _, x)
              Catalog2FHL tc out Hout)
    as (Hfr & types & pv & Hst & Hpv & Hl & Hrows).
  destruct (setscalar_eq _ _ _ _ Hc) as (n & Hn & Hcase).
  assert (types = replicate n "PowerLaw") as ->.
  { unfold strcol in Hst. rewrite Hfr, Hn in Hst by done. simpl in Hst. congruence. }
  destruct (setscalar_eq _ _ _ _ Hb) as (m & Hm & _).
  assert (Hpiv : floatcol out "Pivot_Energy" = Some (replicate m 50000%float)).
  { unfold floatcol. rewrite Hfr by done.
    rewrite (setscalar_ne _ _ _ _ _ Hc) by done. by rewrite Hm. }
  exists (replicate n "PowerLaw"), pv. split_and!; [done..| |].
  - rewrite length_replicate. intros i Hi.
    assert (Hti : replicate n "PowerLaw" !! i = Some "PowerLaw")
      by (by apply lookup_replicate_2).
    destruct (Hrows _ _ Hti) as (row & Hrow & _ & _ & Hstmts).
    specialize (Hstmts _ ltac:(by left)).
    apply row_stmts_cons in Hstmts as (j0 & x0 & [= <-] & Hx0 & _ & Hstmts).
    apply row_stmts_cons in Hstmts as (j1 & x1 & [= <-] & Hx1 & _ & Hstmts).
    apply row_stmts_cons in Hstmts as (j2 & x2 & [= <-] & Hx2 & _ & Hstmts).
    simpl in Hstmts, Hx0, Hx1, Hx2. injection Hstmts as <-.
    fold (cell out "Flux_Density" i) in Hx0.
    fold (cell out "Spectral_Index" i) in Hx1.
    fold (cell out "Pivot_Energy" i) in Hx2.
    destruct (cell out "Spectral_Index" i) as [x|]; [|done].
    injection Hx1 as <-.
    assert (x2 = 50000%float) as ->.
    { unfold cell in Hx2. rewrite Hpiv in Hx2. simpl in Hx2.
      by apply lookup_replicate_1 in Hx2 as [-> _]. }
    split_and!; [done..|]. exists x0, x. by split_and!.
  - destruct (join_sort_rows _ _ _ _ _ _ _ _ H1 H2) as (lk & idx & Hlk & _ & Hidx & Hcols).
    destruct (key_of_strip_columns _ _ _ Hlk) as (names & Hnames & Hlen).
    exists names, idx. split_and!; [done| |].
    { intros i. by rewrite Hidx, Hlen. }
    intros file_index Hf.
    destruct (Hcols "Spectral_Index" (FloatCol file_index)) as (c' & Hc' & Ht);
      [|right; set_solver|].
    { rewrite getcol_strip_columns. unfold floatcol in Hf.
      destruct (getcol table "Spectral_Index") as [[| |?| |]|]; try done.
      simpl in *. congruence. }
    simpl in Ht. apply fmap_Some in Ht as (l & Hl' & ->).
    exists l. split; [done|]. unfold floatcol. rewrite Hfr by done.
    rewrite (setscalar_ne _ _ _ _ _ Hc) by done.
    rewrite (setscalar_ne _ _ _ _ _ Hb) by done.
    rewrite (setitem_ne _ _ _ _ _ Ha) by done.
    destruct (Catalog_init_columns _ _ _ H3) as (_ & _ & _ & _ & _ & Hfr3 & _).
    simpl in Hfr3. rewrite Hfr3, Hc'; [done..|]. rewrite Hc'. eauto.
Qed.
End Constructor2FHLFacts.
(** ** The theorems at the sample inputs *)

(** The order of the rows of the join of [left_BA] and [right_A] is the
    same with every [argsort]: the keys of each table are distinct. *)
Lemma argsort_BA {lib : Library} : argsort [KStr "B"; KStr "A"] = [1; 0].
Proof.
  pose proof (argsort_Permutation [KStr "B"; KStr "A"]) as Hp.
  destruct (argsort_sorted [KStr "B"; KStr "A"]) as (ks & Hks & Hsorted).
  simpl in Hp. symmetry in Hp.
  apply Permutation_length_2_inv in Hp as [Hp|Hp]; rewrite Hp in *; [|done].
  exfalso. injection Hks as <-. apply Sorted_inv in Hsorted as [_ Hhd].
  apply HdRel_inv in Hhd. by vm_compute in Hhd.
Qed.

Lemma argsort_A {lib : Library} : argsort [KStr "A"] = [0].
Proof.
  pose proof (argsort_Permutation [KStr "A"]) as Hp. simpl in Hp.
  by apply Permutation_singleton_r in Hp.
Qed.

Lemma join_tables_BA {lib : Library} :
  join_tables left_BA right_A "k" "k" None = Some sample_joined.
Proof.
  unfold join_tables, join, join_rows, matching. simpl.
  rewrite argsort_BA. simpl. rewrite !argsort_A. reflexivity.
Qed.

Lemma join_tables_rows_witness :
  wf_table left_BA ∧ key_of right_A "k" = Some [KStr "A"] ∧ NoDup [KStr "A"] ∧
  join_tables (lib:=merge_sort_library) left_BA right_A "k" "k" None = Some sample_joined ∧
  len sample_joined = len left_BA.
Proof.
  assert (H1 : wf_table left_BA).
  { split; apply (bool_decide_unpack _); vm_compute; reflexivity. }
  assert (H2 : key_of right_A "k" = Some [KStr "A"]) by reflexivity.
  assert (H3 : NoDup [KStr "A"]) by apply NoDup_singleton.
  assert (H4 : join_tables (lib:=merge_sort_library)
      left_BA right_A "k" "k" None = Some sample_joined)
    by (vm_compute; reflexivity).
  split_and!; [done..|].
  exact (proj1 (join_tables_rows (lib:=merge_sort_library) left_BA right_A "k" "k" None [KStr "A"]
                  sample_joined H1 H2 H3 H4)).
Defined.

(** C2, the order of the rows: [left] with the keys B, A and [right] with
    the one key A.  The result has the two rows of [left], the row of A
    first. *)
Lemma join_tables_order_counterexample :
  key_of right_A "k" = Some [KStr "A"] ∧ NoDup [KStr "A"] ∧
  ∃ out, join_tables (lib:=merge_sort_library) left_BA right_A "k" "k" None = Some out ∧
    len out = len left_BA ∧
    strcol left_BA "k" = Some ["B"; "A"] ∧ strcol out "k" = Some ["A"; "B"] ∧
    ¬ same_row_order left_BA out.
Proof.
  split; [done|]. split; [apply NoDup_singleton|].
  exists sample_joined. split; [apply join_tables_BA|]. split_and!; [done..|].
  intros H. destruct (H 0 _ _ eq_refl) as [n' Hn']. vm_compute in Hn'. discriminate Hn'.
Qed.

Lemma fill_params_PLSuperExpCutoff2_witness :
  fill_params sample_registry sample_mul sample_div sample_exp sample_pow
      Catalog4FGL sample_table = Some sample_filled ∧
  ∃ st pv, strcol sample_table "SpectrumType" = Some st ∧
    veccol sample_filled "param_values" = Some pv ∧ length pv = length st ∧
    ∀ i : nat, st !! i = Some "PLSuperExpCutoff2" →
      ∃ row, pv !! i = Some row ∧
        row !! 0 = Some (sample_mul 1.0e-12 (sample_exp (sample_mul 0.01 (sample_pow 1000 1.5)))) ∧
        row !! 1 = Some (-2.0)%float ∧ row !! 2 = Some 1000%float ∧
        row !! 3 = Some 0.01%float ∧ row !! 4 = Some 1.5%float.
Proof.
  assert (H : fill_params sample_registry sample_mul sample_div sample_exp sample_pow
      Catalog4FGL sample_table = Some sample_filled)
    by (vm_compute; reflexivity).
  split; [exact H|].
  destruct (fill_params_PLSuperExpCutoff2 sample_registry sample_mul sample_div sample_exp
      sample_pow Catalog4FGL sample_table sample_filled H)
    as (st & pv & Hst & Hpv & Hl & Hrows).
  exists st, pv. split_and!; [done..|]. intros i Hi.
  destruct (Hrows i Hi) as (row & Hrow & Hfam & _). exists row. split; [done|].
  destruct (Hfam ltac:(by left))
    as (flux & expfactor & pivot & exp_index & index & jP & jI1 & jS & jE & jI2 &
        Hflux & Hexpf & Hpivot & Hexp & Hindex & HjP & HjI1 & HjS & HjE & HjI2 &
        _ & _ & _ & _ & _ & Hscenario).
  injection HjP as <-. injection HjI1 as <-. injection HjS as <-.
  injection HjE as <-. injection HjI2 as <-.
  injection Hst as <-.
  destruct i as [|[|[|i]]]; try discriminate Hi.
  injection Hflux as <-. injection Hexpf as <-. injection Hpivot as <-.
  injection Hexp as <-. injection Hindex as <-.
  by apply Hscenario.
Defined.

(** C3, the classes of the third schema generation: [Catalog4FGLDR3] on a
    row of [PLSuperExpCutoff2] with the cells of the scenario.  The slot
    of [Index1] is [nan], as the nine others are, and not [-2.0]. *)
Lemma fill_params_PLSuperExpCutoff2_counterexample :
  fill_params sample_registry sample_mul sample_div sample_exp sample_pow
      Catalog4FGLDR3 sample_DR3_PLEC2
    = Some sample_DR3_PLEC2_filled ∧
  strcol sample_DR3_PLEC2 "SpectrumType" = Some ["PLSuperExpCutoff2"] ∧
  cell sample_DR3_PLEC2 "PLEC_Flux_Density" 0 = Some 1.0e-12%float ∧
  cell sample_DR3_PLEC2 "PLEC_Expfactor" 0 = Some 0.01%float ∧
  cell sample_DR3_PLEC2 "Pivot_Energy" 0 = Some 1000%float ∧
  cell sample_DR3_PLEC2 "PLEC_Exp_Index" 0 = Some 1.5%float ∧
  cell sample_DR3_PLEC2 "PLEC_Index" 0 = Some 2.0%float ∧
  enumerate_dict (sample_registry "PLSuperExpCutoff2") !! "Index1" = Some 1 ∧
  enumerate_dict (sample_registry "PLSuperExpCutoff2") !! "Scale" = Some 2 ∧
  veccol sample_DR3_PLEC2_filled "param_values" = Some [replicate 10 nan] ∧
  ¬ (∃ pv row, veccol sample_DR3_PLEC2_filled "param_values" = Some pv ∧
       pv !! 0 = Some row ∧
       (row !! 1 = Some (-2.0)%float ∨ row !! 2 = Some 1000%float)).
Proof.
  split_and!; try (vm_compute; reflexivity).
  intros (pv & row & Hpv & Hrow & Hslot).
  assert (pv = [replicate 10 nan]) as ->.
  { symmetry. apply (inj Some). exact Hpv. }
  assert (row = replicate 10 nan) as ->.
  { symmetry. apply (inj Some). exact Hrow. }
  destruct Hslot as [Hslot|Hslot];
    apply (f_equal (λ o : option float,
                      match o with Some x => PrimFloat.is_nan x | None => false end))
      in Hslot;
    vm_compute in Hslot; discriminate Hslot.
Qed.

Lemma fill_params_PowerLaw_witness :
  fill_params reordered_registry sample_mul sample_div sample_exp sample_pow
    Catalog2FHL sample_2FHL = Some sample_2FHL_filled ∧
  enumerate_dict (reordered_registry "PowerLaw") !! "Index" = Some 0 ∧
  ∃ st pv, strcol sample_2FHL "SpectrumType" = Some st ∧
    veccol sample_2FHL_filled "param_values" = Some pv ∧ length pv = length st ∧
    ∀ (i : nat) (s : string), st !! i = Some s →
      ∃ row, pv !! i = Some row ∧ length row = 10 ∧
        (s = "PowerLaw" →
           ∃ x flux pivot,
             cell sample_2FHL "Spectral_Index" i = Some x ∧
             cell sample_2FHL "Flux_Density" i = Some flux ∧
             cell sample_2FHL "Pivot_Energy" i = Some pivot ∧
             row = [flux; (-1 * x)%float; pivot; nan; nan; nan; nan; nan; nan; nan]).
Proof.
  assert (H : fill_params reordered_registry sample_mul sample_div sample_exp sample_pow
                Catalog2FHL sample_2FHL = Some sample_2FHL_filled)
    by (vm_compute; reflexivity).
  split; [exact H|]. split; [reflexivity|].
  destruct (fill_params_PowerLaw reordered_registry sample_mul sample_div sample_exp
              sample_pow Catalog2FHL sample_2FHL sample_2FHL_filled H)
    as (st & pv & Hst & Hpv & Hl & Hrows).
  exists st, pv. split_and!; [done..|]. intros i s Hi.
  destruct (Hrows i s Hi) as (row & Hrow & Hlen & Hpl & _).
  exists row. split_and!; [done..|]. intros Hs.
  destruct (Hpl Hs) as (x & Hx & _ & H2FHL).
  destruct (H2FHL eq_refl) as (flux & pivot & Hflux & Hpivot & Hr).
  by exists x, flux, pivot.
Defined.

Lemma Catalog_init_extended_witness :
  Catalog_init (lib:=merge_sort_library) sample_extsrc_radec "" = Some sample_base ∧
  ∃ filename function extended,
    spatial sample_extsrc_radec "Spatial_Filename" = Some filename ∧
    spatial sample_extsrc_radec "Spatial_Function" = Some function ∧
    strcol (_table sample_base) "Spatial_Filename" = Some filename ∧
    strcol (_table sample_base) "Spatial_Function" = Some function ∧
    boolcol (_table sample_base) "extended" = Some extended ∧
    length filename = length extended ∧ length function = length extended ∧
    (wf_table sample_extsrc_radec → length extended = len sample_extsrc_radec) ∧
    len (_table sample_base) = len sample_extsrc_radec ∧
    ∀ i, i < length extended →
      ∃ fn fu e, filename !! i = Some fn ∧ function !! i = Some fu ∧
        extended !! i = Some e ∧
        (e = true ↔ fn ≠ "" ∨ fu ≠ "") ∧
        (fn = "" → fu = "" → e = false).
Proof.
  split; [vm_compute; reflexivity|].
  apply (Catalog_init_extended (lib:=merge_sort_library) sample_extsrc_radec "" sample_base).
  vm_compute; reflexivity.
Defined.

Lemma init_4FGL_family_extended_witness :
  init_4FGL_family (lib:=merge_sort_library) sample_registry sample_mul sample_exp sample_pow
      Catalog4FGL =
    Some (Catalog4FGL_init (lib:=merge_sort_library)
        sample_registry sample_mul sample_exp sample_pow) ∧
  Catalog4FGL_init (lib:=merge_sort_library) sample_registry sample_mul sample_exp sample_pow
    sample_table 17 sample_extsrc None = Some sample_catalog ∧
  ∃ file_names idx names extended Extended,
    strcol sample_table "Extended_Source_Name" = Some file_names ∧
    (∀ i, i ∈ idx ↔ i < length file_names) ∧
    take (strip <$> file_names) idx = Some names ∧
    strcol (_table sample_catalog) "Extended_Source_Name" = Some names ∧
    boolcol (_table sample_catalog) "extended" = Some extended ∧
    boolcol (_table sample_catalog) "Extended" = Some Extended ∧
    length extended = length names ∧ length Extended = length names ∧
    ∀ (i : nat) (name : string), names !! i = Some name →
      ∃ e, extended !! i = Some e ∧ Extended !! i = Some e ∧
           (e = true ↔ strip name ≠ "").
Proof.
  split; [reflexivity|]. split; [vm_compute; reflexivity|].
  apply (init_4FGL_family_extended (lib:=merge_sort_library) sample_registry sample_mul sample_div
           sample_exp sample_pow Catalog4FGL
           (Catalog4FGL_init (lib:=merge_sort_library)
               sample_registry sample_mul sample_exp sample_pow)
           sample_table 17 sample_extsrc None sample_catalog).
  - reflexivity.
  - vm_compute; reflexivity.
Defined.

Lemma create_unrecognized_version_witness :
  create "/data" (λ _, false) (sample_open sample_v99) "gll_psc.fit" =
    Raise (Exception "Error - 4FGL catalog fits file version not recognised.").
Proof.
  apply (create_unrecognized_version "/data" (λ _, false) (sample_open sample_v99)
           "gll_psc.fit" sample_v99 "v99").
  - right. vm_compute. reflexivity.
  - vm_compute; reflexivity.
  - vm_compute; reflexivity.
  - vm_compute; reflexivity.
  - apply (bool_decide_unpack _). vm_compute; reflexivity.
Defined.

Lemma create_unrecognized_catalog_witness :
  create "/data" (λ _, false) (sample_open sample_v99) "5FGL" =
    Raise (Exception "Unrecognized catalog 5FGL.").
Proof.
  apply (create_unrecognized_catalog "/data" (λ _, false) (sample_open sample_v99) "5FGL").
  - apply (bool_decide_unpack _). vm_compute; reflexivity.
  - apply (bool_decide_unpack _). vm_compute; reflexivity.
Defined.

Lemma create_signature_absent_witness :
  create "/data" (λ _, false) (sample_open sample_v20) "gll_psc.fit" =
    Construct Catalog4FGLP (Some "/data/catalogs/gll_psc.fit").
Proof.
  apply (create_signature_absent "/data" (λ _, false) (sample_open sample_v20)
           "gll_psc.fit" sample_v20 "v20" "PLEC_Index" Catalog4FGL).
  - right. vm_compute. reflexivity.
  - vm_compute; reflexivity.
  - vm_compute; reflexivity.
  - vm_compute; reflexivity.
  - vm_compute; reflexivity.
  - apply (bool_decide_unpack _). vm_compute; reflexivity.
Defined.

(** *** The further theorems *)

Lemma fill_params_PowerLaw_slots_witness :
  registry_driven Catalog4FGL = true ∧
  fill_params sample_registry sample_mul sample_div sample_exp sample_pow
      Catalog4FGL sample_table = Some sample_filled ∧
  ∃ st pv, strcol sample_table "SpectrumType" = Some st ∧
    veccol sample_filled "param_values" = Some pv ∧ length pv = length st ∧
    ∀ i : nat, st !! i = Some "PowerLaw" →
      ∃ row flux index pivot,
        pv !! i = Some row ∧
        cell sample_table "PL_Flux_Density" i = Some flux ∧
        cell sample_table "PL_Index" i = Some index ∧
        cell sample_table "Pivot_Energy" i = Some pivot ∧
        row !! 0 = Some flux ∧ row !! 1 = Some (-1 * index)%float ∧
        row !! 2 = Some pivot.
Proof.
  assert (H2 : fill_params sample_registry sample_mul sample_div sample_exp sample_pow
      Catalog4FGL sample_table = Some sample_filled)
    by (vm_compute; reflexivity).
  split; [reflexivity|]. split; [exact H2|].
  destruct (fill_params_PowerLaw_slots sample_registry sample_mul sample_div sample_exp sample_pow
      Catalog4FGL sample_table sample_filled
              eq_refl H2)
    as (_ & st & pv & Hst & Hpv & Hl & Hrows).
  exists st, pv. split_and!; [done..|].
  intros i Hi.
  destruct (Hrows i Hi)
    as (row & flux & index & pivot & jP & jI & jS & Hrow & Hf & Hx & Hp &
        HjP & HjI & HjS & HrP & HrI & HrS).
  assert (jP = 0) as ->.
  { destruct jP as [|[|[|?]]]; try discriminate HjP; reflexivity. }
  assert (jI = 1) as ->.
  { destruct jI as [|[|[|?]]]; try discriminate HjI; reflexivity. }
  assert (jS = 2) as ->.
  { destruct jS as [|[|[|?]]]; try discriminate HjS; reflexivity. }
  exists row, flux, index, pivot. by split_and!.
Defined.

Lemma fill_params_LogParabola_witness :
  registry_driven Catalog3FGL = true ∧
  fill_params sample_registry sample_mul sample_div sample_exp sample_pow
      Catalog3FGL sample_3FGL = Some sample_3FGL_filled ∧
  ∃ st pv, strcol sample_3FGL "SpectrumType" = Some st ∧
    veccol sample_3FGL_filled "param_values" = Some pv ∧ length pv = length st ∧
    ∀ i : nat, st !! i = Some "LogParabola" → ∃ row, pv !! i = Some row.
Proof.
  assert (H2 : fill_params sample_registry sample_mul sample_div sample_exp sample_pow
      Catalog3FGL sample_3FGL = Some sample_3FGL_filled)
    by (vm_compute; reflexivity).
  split; [reflexivity|]. split; [exact H2|].
  destruct (fill_params_LogParabola sample_registry sample_mul sample_div sample_exp sample_pow
      Catalog3FGL sample_3FGL sample_3FGL_filled
              eq_refl H2)
    as (_ & st & pv & Hst & Hpv & Hl & Hrows).
  exists st, pv. split_and!; [done..|].
  intros i Hi. destruct (Hrows i Hi) as (row & _ & _ & _ & _ & _ & _ & _ & _ & Hrow & _).
  by exists row.
Defined.

Lemma Catalog3FGL_fill_params_PLSuperExpCutoff_witness :
  fill_params sample_registry sample_mul sample_div sample_exp sample_pow
      Catalog3FGL sample_3FGL = Some sample_3FGL_filled ∧
  ∃ st pv, strcol sample_3FGL "SpectrumType" = Some st ∧
    veccol sample_3FGL_filled "param_values" = Some pv ∧ length pv = length st ∧
    ∀ i : nat, st !! i = Some "PLSuperExpCutoff" → ∃ row, pv !! i = Some row.
Proof.
  assert (H2 : fill_params sample_registry sample_mul sample_div sample_exp sample_pow
      Catalog3FGL sample_3FGL = Some sample_3FGL_filled)
    by (vm_compute; reflexivity).
  split; [exact H2|].
  destruct (Catalog3FGL_fill_params_PLSuperExpCutoff sample_registry sample_mul sample_div
      sample_exp sample_pow
              sample_3FGL sample_3FGL_filled H2)
    as (_ & st & pv & Hst & Hpv & Hl & Hrows).
  exists st, pv. split_and!; [done..|].
  intros i Hi.
  destruct (Hrows i Hi) as (row & _ & _ & _ & _ & _ & _ & _ & _ & _ & _ & Hrow & _).
  by exists row.
Defined.

Lemma fill_params_PLSuperExpCutoff4_witness :
  "PLSuperExpCutoff4" ∈ families Catalog4FGLDR3 ∧
  fill_params sample_registry sample_mul sample_div sample_exp sample_pow
      Catalog4FGLDR3 sample_DR3 = Some sample_DR3_filled ∧
  ∃ st pv, strcol sample_DR3 "SpectrumType" = Some st ∧
    veccol sample_DR3_filled "param_values" = Some pv ∧ length pv = length st ∧
    ∀ i : nat, st !! i = Some "PLSuperExpCutoff4" → ∃ row, pv !! i = Some row.
Proof.
  assert (H1 : "PLSuperExpCutoff4" ∈ families Catalog4FGLDR3)
    by (apply (bool_decide_unpack _); vm_compute; reflexivity).
  assert (H2 : fill_params sample_registry sample_mul sample_div sample_exp sample_pow
      Catalog4FGLDR3 sample_DR3 = Some sample_DR3_filled)
    by (vm_compute; reflexivity).
  split; [exact H1|]. split; [exact H2|].
  destruct (fill_params_PLSuperExpCutoff4 sample_registry sample_mul sample_div sample_exp
      sample_pow Catalog4FGLDR3 sample_DR3
              sample_DR3_filled H1 H2)
    as (_ & st & pv & Hst & Hpv & Hl & Hrows).
  exists st, pv. split_and!; [done..|].
  intros i Hi.
  destruct (Hrows i Hi) as (row & _ & _ & _ & _ & _ & _ & _ & _ & _ & _ & Hrow & _).
  by exists row.
Defined.

Lemma fill_params_frame_witness :
  fill_params sample_registry sample_mul sample_div sample_exp sample_pow Catalog4FGL sample_table =
    Some sample_filled ∧
  (∀ c, c ≠ "param_values" → getcol sample_filled c = getcol sample_table c) ∧
  ∃ st pv, strcol sample_table "SpectrumType" = Some st ∧
    veccol sample_filled "param_values" = Some pv ∧
    length pv = length st ∧ Forall (λ row, length row = 10) pv.
Proof.
  split; [vm_compute; reflexivity|].
  apply (fill_params_frame sample_registry sample_mul sample_div sample_exp sample_pow Catalog4FGL
           sample_table sample_filled).
  vm_compute; reflexivity.
Defined.

Lemma fill_params_missing_column_witness :
  "PL_Flux_Density" ∈ columns_read Catalog4FGL ∧
  getcol sample_2FHL "PL_Flux_Density" = None ∧
  fill_params sample_registry sample_mul sample_div sample_exp sample_pow
      Catalog4FGL sample_2FHL = None.
Proof.
  assert (H1 : "PL_Flux_Density" ∈ columns_read Catalog4FGL)
    by (apply (bool_decide_unpack _); vm_compute; reflexivity).
  split; [exact H1|]. split; [reflexivity|].
  exact (fill_params_missing_column sample_registry sample_mul sample_div sample_exp sample_pow
           Catalog4FGL sample_2FHL "PL_Flux_Density" H1 eq_refl).
Defined.

Lemma fill_params_missing_name_witness :
  ("PLSuperExpCutoff4", "IndexS") ∈ names_used Catalog4FGLDR3 ∧
  ("IndexS" ∉ older_registry "PLSuperExpCutoff4") ∧
  fill_params older_registry sample_mul sample_div sample_exp sample_pow
      Catalog4FGLDR3 sample_DR3 = None.
Proof.
  assert (H1 : ("PLSuperExpCutoff4", "IndexS") ∈ names_used Catalog4FGLDR3)
    by (apply (bool_decide_unpack _); vm_compute; reflexivity).
  assert (H2 : "IndexS" ∉ older_registry "PLSuperExpCutoff4")
    by (apply (bool_decide_unpack _); vm_compute; reflexivity).
  split; [exact H1|]. split; [exact H2|].
  exact (fill_params_missing_name older_registry sample_mul sample_div sample_exp sample_pow
           Catalog4FGLDR3 sample_DR3 "PLSuperExpCutoff4" "IndexS" H1 H2).
Defined.

Lemma create_name_tag_witness :
  create "/data" (λ _, false) (sample_open sample_tag_3FGL) "gll_psc.fit" =
    Construct Catalog3FGL (Some "/data/catalogs/gll_psc.fit").
Proof.
  apply (create_name_tag "/data" (λ _, false) (sample_open sample_tag_3FGL)
           "gll_psc.fit" sample_tag_3FGL "3FGL").
  - right. vm_compute. reflexivity.
  - vm_compute; reflexivity.
  - vm_compute; reflexivity.
  - by left.
Defined.

Lemma create_generation_witness :
  create "/data" (λ _, false) (sample_open sample_v30) "gll_psc.fit" =
    Construct Catalog4FGLDR3 (Some "/data/catalogs/gll_psc.fit").
Proof.
  apply (create_generation "/data" (λ _, false) (sample_open sample_v30)
           "gll_psc.fit" sample_v30 "v30" "PLEC_IndexS" Catalog4FGLDR3).
  - right. vm_compute. reflexivity.
  - vm_compute; reflexivity.
  - vm_compute; reflexivity.
  - vm_compute; reflexivity.
  - vm_compute; reflexivity.
  - apply (bool_decide_unpack _). vm_compute; reflexivity.
Defined.

Lemma create_version_absent_witness :
  create "/data" (λ _, false) (sample_open sample_no_version) "gll_psc.fit" =
    Raise (Exception "Error - 4FGL catalog fits file version not recognised.").
Proof.
  apply (create_version_absent "/data" (λ _, false) (sample_open sample_no_version)
           "gll_psc.fit" sample_no_version).
  - right. vm_compute. reflexivity.
  - vm_compute; reflexivity.
  - vm_compute; reflexivity.
  - vm_compute; reflexivity.
Defined.

Lemma create_other_tag_witness :
  create "/data" (λ _, false) (sample_open sample_untagged) "gll_psc.fit" =
    Construct CatalogFPY (Some "/data/catalogs/gll_psc.fit").
Proof.
  apply (create_other_tag "/data" (λ _, false) (sample_open sample_untagged)
           "gll_psc.fit" sample_untagged).
  - right. vm_compute. reflexivity.
  - vm_compute; reflexivity.
  - apply (bool_decide_unpack _). vm_compute; reflexivity.
Defined.

Lemma create_file_witness :
  is_path "gll_psc.fit" ∧
  "/data/catalogs/gll_psc.fit" = resolve "/data" (λ _, false) "gll_psc.fit".
Proof.
  apply (create_file "/data" (λ _, false) (sample_open sample_v20) "gll_psc.fit"
           Catalog4FGLP "/data/catalogs/gll_psc.fit").
  vm_compute; reflexivity.
Defined.

Lemma strip_columns_cells_witness :
  strcol sample_table "Source_Name" = Some ["4FGL J0002"; "4FGL J0001 "; "4FGL J0003"] ∧
  ∃ d', strcol (strip_columns sample_table) "Source_Name" = Some d' ∧ length d' = 3.
Proof.
  split; [reflexivity|].
  destruct (strip_columns_cells sample_table "Source_Name"
              ["4FGL J0002"; "4FGL J0001 "; "4FGL J0003"] eq_refl)
    as (d' & Hd' & Hl & _).
  by exists d'.
Defined.

Lemma add_columns_wf_witness :
  wf_table left_BA ∧ NoDup (colnames right_A) ∧
  wf_table (add_columns left_BA right_A) ∧
  colnames (add_columns left_BA right_A) = ["k"; "x"; "y"].
Proof.
  assert (H1 : wf_table left_BA).
  { split; [by repeat constructor|apply (bool_decide_unpack _); vm_compute; reflexivity]. }
  assert (H2 : NoDup (colnames right_A)) by (apply (bool_decide_unpack _); vm_compute; reflexivity).
  split; [exact H1|]. split; [exact H2|].
  exact (add_columns_wf left_BA right_A H1 H2).
Defined.

Lemma join_tables_default_columns_witness :
  join_tables (lib:=merge_sort_library) left_BA right_A "j" "k" None = None.
Proof.
  apply (join_tables_default_columns (lib:=merge_sort_library)
      left_BA right_A "j" "k"). discriminate.
Defined.

Lemma join_tables_missing_key_witness :
  getcol left_BA "z" = None ∧
  join_tables (lib:=merge_sort_library) left_BA right_A "z" "k" (Some ["y"]) = None.
Proof.
  split; [reflexivity|].
  apply (join_tables_missing_key (lib:=merge_sort_library)
      left_BA right_A "z" "k" (Some ["y"])). by left.
Defined.

Lemma join_tables_right_cells_witness :
  join_tables (lib:=merge_sort_library) left_BA right_A "k" "k" None = Some sample_joined ∧
  ∃ oc ks, getcol sample_joined "y" = Some oc ∧ key_of sample_joined "k" = Some ks ∧
    col_len oc = length ks ∧
    ∀ (r : nat) (k : keyval), ks !! r = Some k →
      (k ∉ [KStr "A"] → cell_at oc r = Some (fill_value (IntCol [10]%Z))) ∧
      (k ∈ [KStr "A"] → ∃ j, [KStr "A"] !! j = Some k ∧
                             cell_at oc r = cell_at (IntCol [10]%Z) j).
Proof.
  split; [vm_compute; reflexivity|].
  apply (join_tables_right_cells (lib:=merge_sort_library)
      left_BA right_A "k" "k" None sample_joined "y"
           (IntCol [10]%Z) [KStr "A"]).
  - split; [by repeat constructor|apply (bool_decide_unpack _); vm_compute; reflexivity].
  - vm_compute; reflexivity.
  - reflexivity.
  - reflexivity.
  - discriminate.
  - discriminate.
  - exact I.
  - reflexivity.
Defined.

Lemma join_tables_st_result_witness :
  sample_heap !! 0 = Some left_BA ∧ sample_heap !! 1 = Some right_A ∧
  match join_tables_st (lib:=merge_sort_library) 0 1 "k" "k" None sample_heap with
  | (Some q, h') =>
      sample_heap !! q = None ∧
      ∃ out, h' !! q = Some out ∧
             join_tables (lib:=merge_sort_library) left_BA right_A "k" "k" None = Some out
  | (None, _) => join_tables (lib:=merge_sort_library) left_BA right_A "k" "k" None = None
  end.
Proof.
  assert (H1 : sample_heap !! 0 = Some left_BA) by (vm_compute; reflexivity).
  assert (H2 : sample_heap !! 1 = Some right_A) by (vm_compute; reflexivity).
  split; [exact H1|]. split; [exact H2|].
  exact (join_tables_st_result (lib:=merge_sort_library)
      sample_heap 0 1 left_BA right_A "k" "k" None H1 H2).
Defined.

Lemma Catalog_init_frame_witness :
  Catalog_init (lib:=merge_sort_library) sample_extsrc_radec "" = Some sample_base ∧
  _extdir sample_base = "" ∧
  strcol (_table sample_base) "extdir" = Some (replicate (len sample_extsrc_radec) "").
Proof.
  assert (H : Catalog_init (lib:=merge_sort_library) sample_extsrc_radec "" = Some sample_base)
    by (vm_compute; reflexivity).
  split; [exact H|].
  destruct (Catalog_init_frame (lib:=merge_sort_library) sample_extsrc_radec "" sample_base H)
    as (Hd & _ & _ & _ & He).
  by split.
Defined.

Lemma CatalogFPY_init_requires_filename_witness :
  getcol right_A "Spatial_Filename" = None ∧
  CatalogFPY_init (lib:=merge_sort_library) right_A None = None.
Proof.
  split; [reflexivity|].
  exact (CatalogFPY_init_requires_filename (lib:=merge_sort_library) right_A None eq_refl).
Defined.

Lemma CatalogFPY_init_filename_witness :
  CatalogFPY_init (lib:=merge_sort_library) sample_FPY None = Some sample_FPY_catalog ∧
  _extdir sample_FPY_catalog = "$FERMIPY_DATA_DIR/catalogs/Extended_archive_v18" ∧
  ∃ file_names names,
    strcol sample_FPY "Spatial_Filename" = Some file_names ∧
    strcol (_table sample_FPY_catalog) "Spatial_Filename" = Some names ∧
    length names = length file_names ∧
    ∀ (i : nat) (s : string), file_names !! i = Some s →
      names !! i = Some (if bool_decide (strip s = "None") then "" else strip s).
Proof.
  split; [vm_compute; reflexivity|].
  apply (CatalogFPY_init_filename (lib:=merge_sort_library) sample_FPY None sample_FPY_catalog).
  vm_compute; reflexivity.
Defined.

Lemma init_4FGL_family_sorted_witness :
  init_4FGL_family (lib:=merge_sort_library) sample_registry sample_mul sample_exp sample_pow
      Catalog4FGL =
    Some (Catalog4FGL_init (lib:=merge_sort_library)
        sample_registry sample_mul sample_exp sample_pow) ∧
  Catalog4FGL_init (lib:=merge_sort_library) sample_registry sample_mul sample_exp sample_pow
    sample_table 17 sample_extsrc None = Some sample_catalog ∧
  ∃ ks, key_of (_table sample_catalog) "Source_Name" = Some ks ∧ Sorted keyval_le ks.
Proof.
  split; [reflexivity|]. split; [vm_compute; reflexivity|].
  apply (init_4FGL_family_sorted (lib:=merge_sort_library) sample_registry sample_mul sample_div
           sample_exp sample_pow Catalog4FGL
           (Catalog4FGL_init (lib:=merge_sort_library)
               sample_registry sample_mul sample_exp sample_pow)
           sample_table 17 sample_extsrc None sample_catalog).
  - reflexivity.
  - vm_compute; reflexivity.
Defined.

Lemma init_4FGL_family_TS_witness :
  Catalog4FGL_init (lib:=merge_sort_library) sample_registry sample_mul sample_exp sample_pow
    sample_table 17 sample_extsrc None = Some sample_catalog ∧
  ∃ file_names idx signif,
    strcol sample_table "Extended_Source_Name" = Some file_names ∧
    (∀ i, i ∈ idx ↔ i < length file_names) ∧
    floatcol (_table sample_catalog) "Signif_Avg" = Some signif ∧
    floatcol (_table sample_catalog) "TS" = Some (zip_with sample_mul signif signif) ∧
    ∀ file_signif, floatcol sample_table "Signif_Avg" = Some file_signif →
      take file_signif idx = Some signif.
Proof.
  split; [vm_compute; reflexivity|].
  apply (init_4FGL_family_TS (lib:=merge_sort_library) sample_registry sample_mul sample_div
           sample_exp sample_pow Catalog4FGL
           (Catalog4FGL_init (lib:=merge_sort_library)
               sample_registry sample_mul sample_exp sample_pow)
           sample_table 17 sample_extsrc None sample_catalog).
  - reflexivity.
  - vm_compute; reflexivity.
Defined.

Lemma init_4FGL_family_labels_witness :
  Catalog4FGL_init (lib:=merge_sort_library) sample_registry sample_mul sample_exp sample_pow
    sample_table 17 sample_extsrc None = Some sample_catalog ∧
  ∃ functions types,
    strcol (_table sample_catalog) "Spatial_Function" = Some functions ∧
    strcol (_table sample_catalog) "SpectrumType" = Some types ∧
    ("RadialGauss" ∉ functions) ∧ ("PLSuperExpCutoff" ∉ types).
Proof.
  assert (H : Catalog4FGL_init (lib:=merge_sort_library)
      sample_registry sample_mul sample_exp sample_pow
                sample_table 17 sample_extsrc None = Some sample_catalog)
    by (vm_compute; reflexivity).
  split; [exact H|].
  destruct (init_4FGL_family_labels (lib:=merge_sort_library) sample_registry sample_mul sample_div
              sample_exp sample_pow Catalog4FGL
              (Catalog4FGL_init (lib:=merge_sort_library)
                  sample_registry sample_mul sample_exp sample_pow)
              sample_table 17 sample_extsrc None sample_catalog eq_refl H)
    as (file_names & idx & functions & types & _ & _ & Hf & Ht & Hg & Hw & _).
  exists functions, types. split_and!; [done..|]. apply Hw; [discriminate|lia].
Defined.

Lemma Catalog2FHL_init_PowerLaw_witness :
  Catalog2FHL_init (lib:=merge_sort_library)
      sample_eval_norm sample_2FHL_file sample_2FHL_extsrc None =
    Some sample_2FHL_catalog ∧
  ∃ types pv,
    strcol (_table sample_2FHL_catalog) "SpectrumType" = Some types ∧
    veccol (_table sample_2FHL_catalog) "param_values" = Some pv ∧
    length pv = length types.
Proof.
  assert (H : Catalog2FHL_init (lib:=merge_sort_library) sample_eval_norm sample_2FHL_file
                sample_2FHL_extsrc None = Some sample_2FHL_catalog).
  { vm_compute. reflexivity. }
  split; [exact H|].
  destruct (Catalog2FHL_init_PowerLaw (lib:=merge_sort_library) sample_eval_norm sample_2FHL_file
              sample_2FHL_extsrc None sample_2FHL_catalog H)
    as (types & pv & H1 & H2 & H3 & _).
  exact (ex_intro _ types (ex_intro _ pv (conj H1 (conj H2 H3)))).
Defined.
